(** * Mosca: the LevelUp persistence and the MQTT server

    A shallow embedding of [lib/persistance/levelup.js] and of the server
    ([Server.prototype.serve], [Server.prototype.closeConn]) of Mosca.

    The stores of LevelUp are finite maps from keys to values, a value
    with the TTL it was put with.  The server is a state machine: its
    state holds the registry, the client objects, the registrations on
    the bus and the timers that wait, and a step is the arrival of a
    packet, the firing of a timer, a message from the bus or the end of a
    stream.  What the server writes and emits is kept in a trace.

    Callbacks are run in the order the source issues them: every
    continuation-passing call of the source ([put], [get], [del], the
    authorization hooks, the bus) completes before the next statement of
    the model is evaluated.

    Of the listeners of [serve], the ones for PUBLISH, UNSUBSCRIBE and
    PINGREQ are left out; nothing below depends on them. *)

From Stdlib Require Import ZArith Ascii String List Bool Lia.
From stdpp Require Import base decidable option list strings gmap fin_maps.

Local Open Scope string_scope.
Local Open Scope Z_scope.
Local Open Scope list_scope.

(** ** Topics *)

Module Topic.

(** [String.prototype.split] with a one-character separator. *)
Fixpoint split (sep : ascii) (s : string) : list string :=
  match s with
  | EmptyString => [EmptyString]
  | String c s' =>
      if Ascii.eqb c sep then EmptyString :: split sep s'
      else match split sep s' with
           | w :: ws => String c w :: ws
           | [] => [String c EmptyString]
           end
  end.

(** Modelled from the spec: the wildcard semantics of the topic matcher
    (the Qlobber library, which is not part of the repository).  [+]
    matches one non-empty level, a final [#] matches the remaining levels,
    also none; anything else is compared literally. *)
Fixpoint match_levels (f t : list string) : bool :=
  match f with
  | [] => match t with [] => true | _ => false end
  | a :: f' =>
      if String.eqb a "#" && match f' with [] => true | _ => false end then true
      else match t with
           | [] => false
           | x :: t' =>
               if String.eqb a "+" then negb (String.eqb x "") && match_levels f' t'
               else String.eqb a x && match_levels f' t'
           end
  end.

Definition slash : ascii := "/"%char.

Definition matches (filter topic : string) : bool :=
  match_levels (split slash filter) (split slash topic).

End Topic.

(** ** The matcher *)

Module Qlobber.

Section matcher.
Context {V : Type} `{EqDecision V}.

(** Modelled from the spec: the topic matcher of section 4.1 (the
    Qlobber library, which is not part of the repository): the pairs
    [(filter, token)] that were added, in the order of their addition. *)
Definition t := list (string * V).

Definition empty : t := [].

Definition has (filter : string) (token : V) (m : t) : bool :=
  existsb (fun p => String.eqb (fst p) filter && bool_decide (snd p = token)) m.

(** Modelled from the spec: [add(filter, token)] of the matcher; a pair
    that is already there is not added again. *)
Definition add (filter : string) (token : V) (m : t) : t :=
  if has filter token m then m else m ++ [(filter, token)].

(** Modelled from the spec: [remove(token)] of the matcher, by value
    equality. *)
Definition remove (token : V) (m : t) : t :=
  List.filter (fun p => negb (bool_decide (snd p = token))) m.

Fixpoint dedup (l : list V) : list V :=
  match l with
  | [] => []
  | x :: l' => if bool_decide (x ∈ l') then dedup l' else x :: dedup l'
  end.

(** Modelled from the spec: [match(topic)] of the matcher, every token
    whose filter matches, each one once. *)
Definition match_ (topic : string) (m : t) : list V :=
  dedup (List.map snd (List.filter (fun p => Topic.matches (fst p) topic) m)).

End matcher.

Arguments t : clear implicits.

End Qlobber.

(** [util.format("%s:%s", a, b)] *)
Definition format (a b : string) : string := (a ++ ":" ++ b)%string.

(** The rest of [s] after the prefix [p], when [s] starts with [p]. *)
Fixpoint strip_prefix (p s : string) : option string :=
  match p with
  | EmptyString => Some s
  | String a p' =>
      match s with
      | EmptyString => None
      | String b s' => if Ascii.eqb a b then strip_prefix p' s' else None
      end
  end.

(** JavaScript's [x || d] on an optional number: [undefined] and [0] are
    falsy. *)
Definition or_default (x : option Z) (d : Z) : Z :=
  match x with
  | Some v => if v =? 0 then d else v
  | None => d
  end.

(** ** The persistence: [lib/persistance/levelup.js] *)

Module Persistance.

Record packet := Packet {
  topic : string;
  payload : string;
  qos : Z;
  messageId : option Z;
  retain : bool
}.

(** The client as the persistence reads it; of a subscription the JSON
    encoding keeps the qos, not the handler. *)
Record client := Client {
  id : string;
  clean : bool;
  subscriptions : gmap string Z
}.

(** A row of the [subscriptions] sublevel. *)
Record sub := Sub {
  sub_client : string;
  sub_topic : string;
  sub_qos : Z
}.

(** A value of the store with the TTL it was put with. *)
Record entry (A : Type) := Entry {
  value : A;
  ttl : option Z
}.
Arguments Entry {A} _ _.
Arguments value {A} _.
Arguments ttl {A} _.

Record ttl_options := TtlOptions {
  ttl_subscriptions : option Z;
  ttl_packets : option Z;
  ttl_checkFrequency : option Z
}.

(** The [ttl] object after the constructor has put the defaults in. *)
Record ttl_settings := TtlSettings {
  subscriptionsTTL : Z;
  packetsTTL : Z;
  checkFrequency : Z
}.

Definition defaults (o : ttl_options) : ttl_settings :=
  {| subscriptionsTTL := or_default (ttl_subscriptions o) (60 * 60 * 1000);
     packetsTTL := or_default (ttl_packets o) (60 * 60 * 1000);
     checkFrequency := or_default (ttl_checkFrequency o) (60 * 1000) |}.

Record LevelUpPersistance := Build {
  options : ttl_settings;
  _retained : gmap string (entry packet);
  _clientSubscriptions : gmap string (entry (gmap string Z));
  _subscriptions : gmap string (entry sub);
  _offlinePackets : gmap string (entry packet);
  _subLobber : Qlobber.t string
}.

Definition set_retained f (p : LevelUpPersistance) : LevelUpPersistance :=
  Build (options p) (f (_retained p)) (_clientSubscriptions p)
        (_subscriptions p) (_offlinePackets p) (_subLobber p).
Definition set_clientSubscriptions f (p : LevelUpPersistance) : LevelUpPersistance :=
  Build (options p) (_retained p) (f (_clientSubscriptions p))
        (_subscriptions p) (_offlinePackets p) (_subLobber p).
Definition set_subscriptions f (p : LevelUpPersistance) : LevelUpPersistance :=
  Build (options p) (_retained p) (_clientSubscriptions p)
        (f (_subscriptions p)) (_offlinePackets p) (_subLobber p).
Definition set_offlinePackets f (p : LevelUpPersistance) : LevelUpPersistance :=
  Build (options p) (_retained p) (_clientSubscriptions p)
        (_subscriptions p) (f (_offlinePackets p)) (_subLobber p).
Definition set_subLobber f (p : LevelUpPersistance) : LevelUpPersistance :=
  Build (options p) (_retained p) (_clientSubscriptions p)
        (_subscriptions p) (_offlinePackets p) (f (_subLobber p)).

(** The constructor, on the rows [rows] that the [subscriptions] sublevel
    holds when the database is opened: the matcher is rebuilt from them. *)
Definition create (o : ttl_options) (rows : gmap string (entry sub))
  : LevelUpPersistance :=
  {| options := defaults o;
     _retained := ∅;
     _clientSubscriptions := ∅;
     _subscriptions := rows;
     _offlinePackets := ∅;
     _subLobber :=
       foldl (fun q data => Qlobber.add (sub_topic (value (snd data))) (fst data) q)
             Qlobber.empty (map_to_list rows) |}.

Definition storeRetained (pkt : packet) (p : LevelUpPersistance)
  : LevelUpPersistance :=
  set_retained (insert (topic pkt) (Entry pkt None)) p.

Definition lookupRetained (pattern : string) (p : LevelUpPersistance)
  : list packet :=
  let qlobber := Qlobber.add pattern true Qlobber.empty in
  List.map (fun data => value (snd data))
    (List.filter
       (fun data => (0 <? length (Qlobber.match_ (fst data) qlobber))%nat)
       (map_to_list (_retained p))).

Definition storeSubscriptions (c : client) (p : LevelUpPersistance)
  : LevelUpPersistance :=
  let ttl := Some (subscriptionsTTL (options p)) in
  if clean c then p
  else
    let subscriptions : gmap string Z :=
      filter (fun kv => 0 < snd kv) (subscriptions c) in
    let p1 := set_clientSubscriptions (insert (id c) (Entry subscriptions ttl)) p in
    foldl (fun st kv =>
             let key := fst kv in
             let sub := {| sub_client := id c; sub_topic := key; sub_qos := snd kv |} in
             let levelKey := format key (id c) in
             set_subscriptions (insert levelKey (Entry sub ttl))
               (set_subLobber (Qlobber.add key levelKey) st))
          p1 (map_to_list subscriptions).

(** The keys of the offline packets of [cid] as [level-range] streams
    them, the prefix taken off, each with its value. *)
Definition range (cid : string) (m : gmap string (entry packet))
  : list (string * entry packet) :=
  omap (fun kv => match strip_prefix (cid ++ ":")%string (fst kv) with
                  | Some rest => Some (rest, snd kv)
                  | None => None
                  end) (map_to_list m).

(** [streamOfflinePackets]: the store afterwards and the packets handed
    to [cb]. *)
Definition streamOfflinePackets (c : client) (p : LevelUpPersistance)
  : LevelUpPersistance * list packet :=
  let stream := range (id c) (_offlinePackets p) in
  (foldl (fun st data => set_offlinePackets (delete (format (id c) (fst data))) st)
         p stream,
   if clean c then [] else List.map (fun data => value (snd data)) stream).

Definition lookupSubscriptions (c : client) (p : LevelUpPersistance)
  : LevelUpPersistance * gmap string Z :=
  match _clientSubscriptions p !! id c with
  | Some e =>
      if clean c then
        let p1 := set_clientSubscriptions (delete (id c)) p in
        let p2 := fst (streamOfflinePackets c p1) in
        (foldl (fun st kv =>
                  let levelKey := format (fst kv) (id c) in
                  set_subscriptions (delete levelKey)
                    (set_subLobber (Qlobber.remove levelKey) st))
               p2 (map_to_list (value e)),
         ∅)
      else (p, value e)
  | None => (p, ∅)
  end.

(** [_storePacket] when the database takes the put; [now] is what
    [new Date().toISOString()] gives. *)
Definition _storePacket (cid : string) (pkt : packet) (now : string)
    (p : LevelUpPersistance) : LevelUpPersistance :=
  let key := format cid now in
  let ttl := Some (subscriptionsTTL (options p)) in
  set_offlinePackets (insert key (Entry pkt ttl)) p.

(** What [get] passes to its callback for a key that is not there, and
    [put] for a key that the database cannot write. *)
Inductive error :=
  | NotFoundError (key : string)
  | WriteError (key : string).

(** The iterations of [async.each] in [storeOfflinePacket], from the
    [i]-th match on; [clock i] is what [new Date().toISOString()] gives
    to the [i]-th iteration.  Every iteration is run; the first error is
    the one that reaches [done]. *)
Fixpoint each_sub (clock : nat -> string) (i : nat) (subs : list string)
    (pkt : packet) (p : LevelUpPersistance) : LevelUpPersistance * option error :=
  match subs with
  | [] => (p, None)
  | key :: rest =>
      match _subscriptions p !! key with
      | None =>
          let r := each_sub clock (S i) rest pkt p in
          (fst r, Some (NotFoundError key))
      | Some e =>
          each_sub clock (S i) rest pkt
            (_storePacket (sub_client (value e)) pkt (clock i) p)
      end
  end.

(** [storeOfflinePacket]: the store afterwards and the error [done] is
    called with. *)
Definition storeOfflinePacket (clock : nat -> string) (pkt : packet)
    (p : LevelUpPersistance) : LevelUpPersistance * option error :=
  let subs := Qlobber.match_ (topic pkt) (_subLobber p) in
  each_sub clock 0 subs pkt p.

(** [_storePacket] gives [cb] to the [put], so what the database
    answers goes to [cb]: when it refuses the put, nothing is written and
    [cb] gets the error; when it takes it, the store is the one of
    [_storePacket] above and [cb] gets no error. *)
Definition _storePacket_cb (refused : bool) (cid : string) (pkt : packet)
    (now : string) (p : LevelUpPersistance) : LevelUpPersistance * option error :=
  if refused then (p, Some (WriteError (format cid now)))
  else (_storePacket cid pkt now p, None).

(** The iterations of [async.each] on a database that refuses the put of
    the [i]-th iteration when [refused i]: an iteration calls its [cb]
    with the error of the [get] or with what [_storePacket] passes on;
    every iteration is run, and [done] is called with the first error
    (the iterations are taken in order). *)
Fixpoint each_sub_cb (refused : nat -> bool) (clock : nat -> string) (i : nat)
    (subs : list string) (pkt : packet) (p : LevelUpPersistance)
  : LevelUpPersistance * option error :=
  match subs with
  | [] => (p, None)
  | key :: rest =>
      match _subscriptions p !! key with
      | None =>
          let r := each_sub_cb refused clock (S i) rest pkt p in
          (fst r, Some (NotFoundError key))
      | Some e =>
          let w := _storePacket_cb (refused i) (sub_client (value e)) pkt (clock i) p in
          let r := each_sub_cb refused clock (S i) rest pkt (fst w) in
          (fst r, match snd w with
                  | Some err => Some err
                  | None => snd r
                  end)
      end
  end.

(** [storeOfflinePacket] on such a database; [each_sub] and
    [storeOfflinePacket] above are the case of a database that takes
    every put. *)
Definition storeOfflinePacket_cb (refused : nat -> bool) (clock : nat -> string)
    (pkt : packet) (p : LevelUpPersistance) : LevelUpPersistance * option error :=
  let subs := Qlobber.match_ (topic pkt) (_subLobber p) in
  each_sub_cb refused clock 0 subs pkt p.

(** The keys of the puts of [storeOfflinePacket], in the order of the
    iterations: [sub.client], a colon and the time of the iteration, for
    every matched key whose row is read. *)
Fixpoint put_keys (clock : nat -> string) (i : nat) (subs : list string)
    (p : LevelUpPersistance) : list string :=
  match subs with
  | [] => []
  | key :: rest =>
      match _subscriptions p !! key with
      | None => put_keys clock (S i) rest p
      | Some e => format (sub_client (value e)) (clock i) :: put_keys clock (S i) rest p
      end
  end.

End Persistance.

(** ** The server: [Server.prototype.serve] and [closeConn] *)

Module Server.

(** A PUBLISH written to a client. *)
Record packet := Packet {
  topic : string;
  payload : string;
  qos : Z;
  messageId : Z
}.

Record will_packet := Will {
  will_topic : string;
  will_payload : string;
  will_qos : Z
}.

Record connect_packet := Connect {
  clientId : string;
  username : option string;
  password : option string;
  connect_keepalive : Z;
  connect_will : option will_packet
}.

(** An element of [packet.subscriptions] of a SUBSCRIBE. *)
Record request := Request {
  req_topic : string;
  req_qos : Z
}.

(** The closure [handler] that the SUBSCRIBE handler makes: it calls
    [forward] for the client [h_conn] with [s.topic] and [s.qos].  Two
    closures are two functions, also when they hold the same values:
    [h_id] tells them apart. *)
Record handler := Handler {
  h_id : nat;
  h_conn : nat;
  h_topic : string;
  h_qos : Z
}.

#[global] Instance handler_eq_dec : EqDecision handler.
Proof. solve_decision. Defined.

(** An entry of [client.subscriptions]. *)
Record subscription := Subscription {
  sub_qos : Z;
  sub_handler : handler
}.

(** The client object.  [listening] says that the listeners which [serve]
    puts on the client are there ([removeAllListeners] takes them off),
    [onclose] that [client._onclose] listens to ["close"];
    [end_listeners] are the [cleanup] closures that [closeConn] has put
    on the ["end"] of the stream, each with the callback it was given
    ([true]: the one of [_onclose], which delivers the will). *)
Record client := Client {
  id : option string;
  keepalive : Z;
  will : option will_packet;
  timer : option nat;
  subscriptions : gmap string subscription;
  nextId : Z;
  inflight : gmap Z nat;
  _closed : bool;
  listening : bool;
  onclose : bool;
  stream_ended : bool;
  end_listeners : list bool
}.

Definition set_id v (c : client) : client :=
  Client v (keepalive c) (will c) (timer c) (subscriptions c) (nextId c)
    (inflight c) (_closed c) (listening c) (onclose c) (stream_ended c) (end_listeners c).
Definition set_keepalive v (c : client) : client :=
  Client (id c) v (will c) (timer c) (subscriptions c) (nextId c)
    (inflight c) (_closed c) (listening c) (onclose c) (stream_ended c) (end_listeners c).
Definition set_will v (c : client) : client :=
  Client (id c) (keepalive c) v (timer c) (subscriptions c) (nextId c)
    (inflight c) (_closed c) (listening c) (onclose c) (stream_ended c) (end_listeners c).
Definition set_timer v (c : client) : client :=
  Client (id c) (keepalive c) (will c) v (subscriptions c) (nextId c)
    (inflight c) (_closed c) (listening c) (onclose c) (stream_ended c) (end_listeners c).
Definition set_subscriptions f (c : client) : client :=
  Client (id c) (keepalive c) (will c) (timer c) (f (subscriptions c)) (nextId c)
    (inflight c) (_closed c) (listening c) (onclose c) (stream_ended c) (end_listeners c).
Definition set_nextId v (c : client) : client :=
  Client (id c) (keepalive c) (will c) (timer c) (subscriptions c) v
    (inflight c) (_closed c) (listening c) (onclose c) (stream_ended c) (end_listeners c).
Definition set_inflight f (c : client) : client :=
  Client (id c) (keepalive c) (will c) (timer c) (subscriptions c) (nextId c)
    (f (inflight c)) (_closed c) (listening c) (onclose c) (stream_ended c) (end_listeners c).
Definition set_closed v (c : client) : client :=
  Client (id c) (keepalive c) (will c) (timer c) (subscriptions c) (nextId c)
    (inflight c) v (listening c) (onclose c) (stream_ended c) (end_listeners c).
Definition set_listening v (c : client) : client :=
  Client (id c) (keepalive c) (will c) (timer c) (subscriptions c) (nextId c)
    (inflight c) (_closed c) v (onclose c) (stream_ended c) (end_listeners c).
Definition set_onclose v (c : client) : client :=
  Client (id c) (keepalive c) (will c) (timer c) (subscriptions c) (nextId c)
    (inflight c) (_closed c) (listening c) v (stream_ended c) (end_listeners c).
Definition set_stream_ended v (c : client) : client :=
  Client (id c) (keepalive c) (will c) (timer c) (subscriptions c) (nextId c)
    (inflight c) (_closed c) (listening c) (onclose c) v (end_listeners c).
Definition set_end_listeners f (c : client) : client :=
  Client (id c) (keepalive c) (will c) (timer c) (subscriptions c) (nextId c)
    (inflight c) (_closed c) (listening c) (onclose c) (stream_ended c) (f (end_listeners c)).

(** What a timer runs when it fires. *)
Inductive callback :=
  | Resend (conn : nat) (pkt : packet) (retry : Z)
  | KeepaliveTimeout (conn : nat).

(** What the server does that can be seen from outside, in order: what
    it writes to a connection, the timers it sets and clears, the events
    it emits, and the will it hands to the bus ([WillPublished]: the
    call of [ascoltatore.publish] in [client._onclose]). *)
Inductive effect :=
  | Publish (conn : nat) (pkt : packet)
  | Connack (conn : nat) (returnCode : Z)
  | Suback (conn : nat) (mid : Z) (granted : list Z)
  | SetTimeout (handle : nat) (delay : Z)
  | ClearTimeout (handle : nat)
  | ClientError (conn : nat) (message : string)
  | StreamEnd (conn : nat)
  | ServerError
  | ClientConnected (conn : nat)
  | ClientDisconnected (conn : nat)
  | WillPublished (conn : nat) (w : will_packet)
  | Warn (conn : nat) (message : string).

(** [new Error(...)] or a string, as the hooks pass them to a callback. *)
Inductive verdict :=
  | Err
  | Verdict (ok : bool).

(** The functions of the server that "override at will" invites to
    replace. *)
Record hooks := Hooks {
  authenticate : client -> option string -> option string -> verdict;
  authorizeSubscribe : client -> string -> verdict
}.

Definition default_hooks : hooks :=
  {| authenticate := fun _ _ _ => Verdict true;
     authorizeSubscribe := fun _ _ => Verdict true |}.

(** The server: its registry [clients] (client id to connection), the
    client objects, the registrations on the bus, the timers that have
    not fired. *)
Record server := Server {
  baseRetryTimeout : Z;
  clients : gmap string nat;
  conns : gmap nat client;
  bus : list (string * handler);
  timers : gmap nat (callback * Z);
  next_timer : nat;
  next_handler : nat;
  next_conn : nat;
  trace : list effect
}.

Definition set_clients f (s : server) : server :=
  Server (baseRetryTimeout s) (f (clients s)) (conns s) (bus s) (timers s)
    (next_timer s) (next_handler s) (next_conn s) (trace s).
Definition set_conns f (s : server) : server :=
  Server (baseRetryTimeout s) (clients s) (f (conns s)) (bus s) (timers s)
    (next_timer s) (next_handler s) (next_conn s) (trace s).
Definition set_bus f (s : server) : server :=
  Server (baseRetryTimeout s) (clients s) (conns s) (f (bus s)) (timers s)
    (next_timer s) (next_handler s) (next_conn s) (trace s).
Definition set_timers f (s : server) : server :=
  Server (baseRetryTimeout s) (clients s) (conns s) (bus s) (f (timers s))
    (next_timer s) (next_handler s) (next_conn s) (trace s).
Definition set_next_timer v (s : server) : server :=
  Server (baseRetryTimeout s) (clients s) (conns s) (bus s) (timers s)
    v (next_handler s) (next_conn s) (trace s).
Definition set_next_handler v (s : server) : server :=
  Server (baseRetryTimeout s) (clients s) (conns s) (bus s) (timers s)
    (next_timer s) v (next_conn s) (trace s).
Definition set_next_conn v (s : server) : server :=
  Server (baseRetryTimeout s) (clients s) (conns s) (bus s) (timers s)
    (next_timer s) (next_handler s) v (trace s).
Definition emit (e : effect) (s : server) : server :=
  Server (baseRetryTimeout s) (clients s) (conns s) (bus s) (timers s)
    (next_timer s) (next_handler s) (next_conn s) (trace s ++ [e]).

(** [new Server(opts)] with [opts.baseRetryTimeout]. *)
Definition create (base : option Z) : server :=
  {| baseRetryTimeout := or_default base 1000;
     clients := ∅; conns := ∅; bus := []; timers := ∅;
     next_timer := 0; next_handler := 0; next_conn := 0; trace := [] |}.

(** An update of the client object of connection [c]. *)
Definition upd (c : nat) (f : client -> client) (s : server) : server :=
  set_conns (alter f c) s.

Definition setTimeout (cb : callback) (delay : Z) (s : server) : nat * server :=
  let h := next_timer s in
  (h, emit (SetTimeout h delay)
        (set_next_timer (S h) (set_timers (insert h (cb, delay)) s))).

Definition clearTimeout (h : nat) (s : server) : server :=
  emit (ClearTimeout h) (set_timers (delete h) s).

(** [client.stream.end()] *)
Definition stream_end (c : nat) (s : server) : server :=
  emit (StreamEnd c) (upd c (set_stream_ended true) s).

(** [Math.random()], a number in [0, 1), as the fraction
    [rnd_num / rnd_den]. *)
Record random := Random {
  rnd_num : Z;
  rnd_den : Z
}.

Definition in_unit_interval (r : random) : Prop :=
  0 <= rnd_num r < rnd_den r.

(** [Math.floor(65535 * Math.random())] *)
Definition initial_nextId (r : random) : Z :=
  65535 * rnd_num r / rnd_den r.

(** The start of [serve]: the fields it gives to a new client object. *)
Definition serve (r : random) (s : server) : nat * server :=
  let c := next_conn s in
  (c, set_next_conn (S c)
        (set_conns (insert c
           {| id := None; keepalive := 0; will := None; timer := None;
              subscriptions := ∅; nextId := initial_nextId r; inflight := ∅;
              _closed := false; listening := true; onclose := true;
              stream_ended := false; end_listeners := [] |}) s)).

Definition setUpTimer (c : nat) (s : server) : server :=
  match conns s !! c with
  | None => s
  | Some cl =>
      let s1 := match timer cl with
                | Some h => clearTimeout h s
                | None => s
                end in
      let timeout := keepalive cl * 1000 * 5 / 4 in
      let '(h, s2) := setTimeout (KeepaliveTimeout c) timeout s1 in
      upd c (set_timer (Some h)) s2
  end.

(** [client.emit("error", err)]: the listener that [serve] has put on
    ["error"] warns and ends the stream.  (Without a listener Node would
    throw; here the error is only recorded.) *)
Definition emit_error (c : nat) (message : string) (s : server) : server :=
  match conns s !! c with
  | None => s
  | Some cl =>
      let s1 := emit (ClientError c message) s in
      if listening cl then stream_end c (emit (Warn c message) s1) else s1
  end.

Definition actualSend (c : nat) (pkt : packet) (retry : Z) (s : server) : server :=
  if retry =? 10 then
    emit_error c "client not responding to acks" s
  else
    let s1 := emit (Publish c pkt) s in
    if qos pkt =? 1 then
      let '(h, s2) := setTimeout (Resend c pkt retry)
                        (baseRetryTimeout s * 2 ^ retry) s1 in
      upd c (set_inflight (insert (messageId pkt) h)) s2
    else s1.

Definition forward (c : nat) (topic payload : string) (pub_qos : option Z)
    (sub_topic : string) (initial_qos : Z) (s : server) : server :=
  match conns s !! c with
  | None => s
  | Some cl =>
      let sub_qos := sub_qos <$> (subscriptions cl !! sub_topic) in
      let qos := Z.min (or_default pub_qos 0)
                       (or_default (Some (default initial_qos sub_qos)) 0) in
      let pkt := {| topic := topic; payload := payload; qos := qos;
                    messageId := nextId cl |} in
      actualSend c pkt 0 (upd c (set_nextId (nextId cl + 1)) s)
  end.

(** [topic.replace("#", "*")]: the first [#] only. *)
Fixpoint replace_hash (s : string) : string :=
  match s with
  | EmptyString => EmptyString
  | String a s' =>
      if Ascii.eqb a "#"%char then String "*"%char s'
      else String a (replace_hash s')
  end.

(** Modelled from the spec: [unsubscribe(filter, handler)] of the bus
    (Ascoltatori, which is not part of the repository), in process: it
    takes the registration of this function on this topic off;
    [subscribe] adds one at the end. *)
Definition bus_unsubscribe (t : string) (h : handler)
    (b : list (string * handler)) : list (string * handler) :=
  List.filter (fun r => negb (bool_decide (r = (t, h)))) b.

Definition unsubscribeMapTo (c : nat) (t : string) (s : server) : server :=
  match conns s !! c with
  | None => s
  | Some cl =>
      let s1 := match subscriptions cl !! t with
                | Some sub => set_bus (bus_unsubscribe (replace_hash t) (sub_handler sub)) s
                | None => s
                end in
      upd c (set_subscriptions (delete t)) s1
  end.

(** [cleanup] of [closeConn]; [callback] is run in the next tick.  The
    callback of [_onclose] hands the will to the bus, which is built by
    [ascoltatori.build(opts.backend)] and is not part of the repository:
    the call is the effect [WillPublished], and the calls that the bus
    then makes of the handlers registered with it, at once or later, are
    [Deliver] events, as for every publication. *)
Definition cleanup (c : nat) (callback : bool) (s : server) : server :=
  match conns s !! c with
  | None => s
  | Some cl =>
      let s1 := foldl (fun st kv =>
                         upd c (set_inflight (delete (fst kv)))
                           (clearTimeout (snd kv) st))
                      s (map_to_list (inflight cl)) in
      let s2 := upd c (fun x => set_onclose false (set_listening false x)) s1 in
      let s3 := emit (ClientDisconnected c) s2 in
      if callback then
        match will cl with
        | Some w => emit (WillPublished c w) s3
        | None => s3
        end
      else s3
  end.

Definition closeConn (c : nat) (callback : bool) (s : server) : server :=
  match conns s !! c with
  | None => s
  | Some cl =>
      let s1 := match id cl with
                | Some i =>
                    if String.eqb i "" then s
                    else set_clients (delete i)
                           (match timer cl with
                            | Some h => clearTimeout h s
                            | None => s
                            end)
                | None => s
                end in
      let s2 := upd c (set_onclose false) s1 in
      if _closed cl then cleanup c callback s2
      else stream_end c (upd c (set_end_listeners (fun l => l ++ [callback])) s2)
  end.

Definition unsubAndClose (c : nat) (callback : bool) (s : server) : server :=
  match conns s !! c with
  | None => s
  | Some cl =>
      let s1 := upd c (set_onclose false) s in
      let s2 := foldl (fun st kv => unsubscribeMapTo c (fst kv) st)
                      s1 (map_to_list (subscriptions cl)) in
      closeConn c callback s2
  end.

Section handlers.
Variable H : hooks.

(** [client.on("connect", ...)] *)
Definition on_connect (c : nat) (pkt : connect_packet) (s : server) : server :=
  let s1 := upd c (set_id (Some (clientId pkt))) s in
  match conns s1 !! c with
  | None => s
  | Some cl =>
      match authenticate H cl (username pkt) (password pkt) with
      | Err => emit ServerError (stream_end c s1)
      | Verdict false => stream_end c (emit (Connack c 5) s1)
      | Verdict true =>
          let s2 := upd c (fun x => set_will (connect_will pkt)
                                      (set_keepalive (connect_keepalive pkt) x)) s1 in
          let s3 := set_clients (insert (clientId pkt) c) s2 in
          let s4 := setUpTimer c s3 in
          emit (ClientConnected c) (emit (Connack c 0) s4)
      end
  end.

(** [client.on("puback", ...)] *)
Definition on_puback (c : nat) (mid : Z) (s : server) : server :=
  match conns s !! c with
  | None => s
  | Some cl =>
      match inflight cl !! mid with
      | Some h => upd c (set_inflight (delete mid)) (clearTimeout h s)
      | None => emit (Warn c "no such packet") s
      end
  end.

(** The first function of the SUBSCRIBE handler on one element: a qos
    of 2 becomes 1, in the element itself. *)
Definition downgrade (e : request) : request :=
  if req_qos e =? 2 then Request (req_topic e) 1 else e.

Definition set_sub_qos (q : Z) (sub : subscription) : subscription :=
  Subscription q (sub_handler sub).

(** The names that every object has from [Object.prototype].
    [client.subscriptions] starts as [{}], so for these names
    [client.subscriptions[name]] is not [undefined] also when the client
    holds no subscription under the name. *)
Definition Object_prototype : list string :=
  ["constructor"; "hasOwnProperty"; "isPrototypeOf"; "propertyIsEnumerable";
   "toLocaleString"; "toString"; "valueOf"; "__defineGetter__";
   "__defineSetter__"; "__lookupGetter__"; "__lookupSetter__"; "__proto__"].

Definition inherited (name : string) : bool :=
  existsb (String.eqb name) Object_prototype.

(** ... and a subscription that is there takes the qos.  (For a name
    that the client only inherits the assignment lands on the member of
    [Object.prototype], not on an entry of the client.) *)
Definition regrant (c : nat) (s : server) (e : request) : server :=
  upd c (set_subscriptions (alter (set_sub_qos (req_qos e)) (req_topic e))) s.

(** One of the functions given to [async.parallel]; [failed] says that
    the final callback has been called with an error, which happens at
    the first error only. *)
Definition subscribe_task (c : nat) (acc : server * bool) (e : request)
  : server * bool :=
  let '(s, failed) := acc in
  let fail := if failed then (s, true) else (unsubAndClose c false s, true) in
  match conns s !! c with
  | None => acc
  | Some cl =>
      match authorizeSubscribe H cl (req_topic e) with
      | Err => fail
      | Verdict false => fail
      | Verdict true =>
          let h := Handler (next_handler s) c (req_topic e) (req_qos e) in
          let s1 := set_next_handler (S (next_handler s))
                      (set_bus (fun b => b ++ [(replace_hash (req_topic e), h)]) s) in
          (upd c (set_subscriptions
                    (insert (req_topic e) (Subscription (req_qos e) h))) s1,
           failed)
      end
  end.

(** [client.on("subscribe", ...)] *)
Definition on_subscribe (c : nat) (mid : Z) (reqs : list request) (s : server)
  : server :=
  let reqs' := List.map downgrade reqs in
  let s1 := foldl (regrant c) s reqs' in
  let granted := List.map req_qos reqs' in
  match conns s1 !! c with
  | None => s
  | Some cl =>
      let subs := List.filter
                    (fun e => bool_decide (subscriptions cl !! req_topic e = None)
                              && negb (inherited (req_topic e)))
                    reqs' in
      let '(s2, failed) := foldl (subscribe_task c) (s1, false) subs in
      if failed then s2 else emit (Suback c mid granted) s2
  end.

(** The ["close"] of the client: the listener that sets [_closed], then
    [client._onclose] when it is still there. *)
Definition on_close (c : nat) (s : server) : server :=
  match conns s !! c with
  | None => s
  | Some cl =>
      let s1 := upd c (set_closed true) s in
      if onclose cl then unsubAndClose c true s1 else s1
  end.

(** The ["end"] of the stream of the client: the [cleanup] closures
    that wait for it. *)
Definition on_stream_end (c : nat) (s : server) : server :=
  match conns s !! c with
  | None => s
  | Some cl =>
      foldl (fun st callback => cleanup c callback st)
            (upd c (set_end_listeners (fun _ => [])) s) (end_listeners cl)
  end.

(** A timer fires. *)
Definition on_timer (h : nat) (s : server) : server :=
  match timers s !! h with
  | None => s
  | Some (cb, _) =>
      let s1 := set_timers (delete h) s in
      match cb with
      | Resend c pkt retry => actualSend c pkt (retry + 1) s1
      | KeepaliveTimeout c => closeConn c false s1
      end
  end.

(** What happens to the server: a connection is accepted, a packet
    arrives from a client, the client or its stream closes, the bus calls
    a handler with a message (which handlers a publication reaches, in
    which order and when, is the bus's matter), a timer fires. *)
Inductive event :=
  | Accept (r : random)
  | GotConnect (c : nat) (pkt : connect_packet)
  | GotPuback (c : nat) (mid : Z)
  | GotSubscribe (c : nat) (mid : Z) (reqs : list request)
  | GotDisconnect (c : nat)
  | Closed (c : nat)
  | StreamEnded (c : nat)
  | Deliver (h : handler) (topic payload : string) (pub_qos : option Z)
  | Fire (h : nat).

Definition is_listening (c : nat) (s : server) : bool :=
  match conns s !! c with
  | Some cl => listening cl
  | None => false
  end.

Definition registered (h : handler) (s : server) : bool :=
  existsb (fun r => bool_decide (snd r = h)) (bus s).

Definition step (s : server) (e : event) : server :=
  match e with
  | Accept r => snd (serve r s)
  | GotConnect c pkt => if is_listening c s then on_connect c pkt s else s
  | GotPuback c mid => if is_listening c s then on_puback c mid s else s
  | GotSubscribe c mid reqs =>
      if is_listening c s then on_subscribe c mid reqs s else s
  | GotDisconnect c => if is_listening c s then unsubAndClose c false s else s
  | Closed c => if is_listening c s then on_close c s else s
  | StreamEnded c => on_stream_end c s
  | Deliver h topic payload pub_qos =>
      if registered h s
      then forward (h_conn h) topic payload pub_qos (h_topic h) (h_qos h) s
      else s
  | Fire h => on_timer h s
  end.

Definition run (s : server) (es : list event) : server := foldl step s es.

End handlers.

End Server.

(** * The terms of the statements *)

Section persistence_terms.
Import Persistance.

(** A retained message, and the one with an empty payload that should
    clear it. *)
Definition temp21 : packet := Packet "home/temp" "21" 0 None true.

Definition temp_empty : packet := Packet "home/temp" "" 0 None true.

(** [new LevelUpPersistance({})] *)
Definition no_options : ttl_options := TtlOptions None None None.

(** The loop of [lookupSubscriptions] over the filters of the record. *)
Definition forget (cid : string) (st : LevelUpPersistance) (kv : string * Z)
  : LevelUpPersistance :=
  set_subscriptions (delete (format (fst kv) cid))
    (set_subLobber (Qlobber.remove (format (fst kv) cid)) st).

(** The client [a] comes back with a clean session; the store holds
    its durable subscription to [home/#] and one offline packet. *)
Definition clean_a : client := Client "a" true ∅.

Definition one_durable : LevelUpPersistance :=
  _storePacket "a" temp21 "2013-06-01T10:00:00.000Z"
    (storeSubscriptions (Client "a" false {[ "home/#" := 1 ]}) (create no_options ∅)).

(** A client with one durable subscription, of qos 1. *)
Definition durable (cid filter : string) : client :=
  Client cid false {[ filter := 1 ]}.

Definition hello : packet := Packet "a/b" "hello" 1 (Some 7) false.

(** Two clients with a durable subscription to [a/b], both rows there. *)
Definition two_subscribers : LevelUpPersistance :=
  storeSubscriptions (durable "c2" "a/b")
    (storeSubscriptions (durable "c1" "a/b") (create no_options ∅)).

(** The database refuses the put of the first iteration and takes the
    others. *)
Definition first_refused (i : nat) : bool := Nat.eqb i 0.

(** A clock that has moved on by a millisecond after the first put. *)
Definition tick (n : nat) : string :=
  match n with
  | O => "2013-06-01T10:00:00.000Z"
  | _ => "2013-06-01T10:00:00.001Z"
  end.

(** One client, two durable subscriptions that both match [a/b]. *)
Definition two_filters : LevelUpPersistance :=
  storeSubscriptions (Client "c" false {[ "a/b" := 1; "a/#" := 1 ]})
    (create no_options ∅).

Definition reconnecting : client := Client "c" false ∅.

(** A clock that gives every put of one call the same millisecond. *)
Definition same_millisecond (n : nat) : string := "2013-06-01T10:00:00.000Z".

(** [{ttl: {subscriptions: 1000, packets: 5000}}] *)
Definition short_subscriptions : ttl_options :=
  TtlOptions (Some 1000) (Some 5000) None.

End persistence_terms.

Section server_terms.
Import Server.

(** A CONNECT of the client [a], with a keepalive of 10 seconds. *)
Definition connect_a : connect_packet := Connect "a" None None 10 None.

(** [Math.random()] gives 0.5: the first message id is 32767. *)
Definition half : random := Random 1 2.

(** Two connections, and the CONNECT of the first with the id [a]. *)
Definition first_connected : server :=
  run default_hooks (create None) [Accept half; Accept half; GotConnect 0%nat connect_a].

(** The message ids of the PUBLISH packets written so far. *)
Definition message_ids (tr : list effect) : list Z :=
  omap (fun e => match e with
                 | Publish _ pkt => Some (messageId pkt)
                 | _ => None
                 end) tr.

(** [Math.random()] gives 131069/131070: the first message id is 65534. *)
Definition almost_one : random := Random 131069 131070.

(** The handler of the first subscription of connection 0, to [t]. *)
Definition subscribed_t : handler := Handler 0 0 "t" 0.

(** A client whose first id is 65534 is sent three messages. *)
Definition three_deliveries : server :=
  run default_hooks (create None)
    [Accept almost_one; GotConnect 0%nat (Connect "a" None None 10 None);
     GotSubscribe 0%nat 1 [Request "t" 0];
     Deliver subscribed_t "t" "x" None; Deliver subscribed_t "t" "y" None;
     Deliver subscribed_t "t" "z" None].

(** No timer has a handle that [setTimeout] has still to give out. *)
Definition fresh (s : server) : Prop :=
  forall h, (next_timer s <= h)%nat -> timers s !! h = None.

(** The server after [actualSend c pkt r], for a QoS 1 packet and
    [r] below 10: the packet is written, the timer waits. *)
Definition sent (c : nat) (pkt : packet) (r : Z) (s : server) : server :=
  Server (baseRetryTimeout s) (clients s)
    (alter (set_inflight (insert (messageId pkt) (next_timer s))) c (conns s))
    (bus s)
    (<[next_timer s := (Resend c pkt r, baseRetryTimeout s * 2 ^ r)]> (timers s))
    (S (next_timer s)) (next_handler s) (next_conn s)
    (trace s ++ [Publish c pkt; SetTimeout (next_timer s) (baseRetryTimeout s * 2 ^ r)]).

(** ... and after that timer has fired, before its callback calls
    [actualSend] again. *)
Definition attempt (c : nat) (pkt : packet) (r : Z) (s : server) : server :=
  set_timers (fun _ => timers s) (sent c pkt r s).

Fixpoint attempts (n : nat) (c : nat) (pkt : packet) (r : Z) (s : server) : server :=
  match n with
  | O => s
  | S n' => attempts n' c pkt (r + 1) (attempt c pkt r s)
  end.

(** What [n] attempts from the [r]-th on write and set. *)
Fixpoint schedule (c : nat) (pkt : packet) (base : Z) (h : nat) (r : Z) (n : nat)
  : list effect :=
  match n with
  | O => []
  | S n' => Publish c pkt :: SetTimeout h (base * 2 ^ r)
            :: schedule c pkt base (S h) (r + 1) n'
  end.

(** The [k]-th attempt writes the packet and sets a timer of
    [base * 2 ^ k] milliseconds. *)
Definition sends (c : nat) (pkt : packet) (base : Z) (h : nat) (n : nat)
  : list effect :=
  flat_map (fun k : nat =>
              [Publish c pkt; SetTimeout (h + k) (base * 2 ^ Z.of_nat k)])
           (seq 0 n).

(** A QoS 1 packet is sent (attempt 0) and no PUBACK comes: the server
    after the first [n] timers of the packet have fired. *)
Definition unacked (H : hooks) (c : nat) (pkt : packet) (s : server) (n : nat) : server :=
  run H (actualSend c pkt 0 s) (List.map Fire (seq (next_timer s) n)).

(** A server with one client, [a], that has connected. *)
Definition connected : server :=
  run default_hooks (create None) [Accept half; GotConnect 0%nat connect_a].

(** The object of that client. *)
Definition connected_client : client :=
  Client (Some "a") 10 None (Some 0%nat) ∅ 32767 ∅ false true true false [].

(** A QoS 1 packet for that client. *)
Definition qos1_packet : packet := Packet "x/y" "hi" 1 32767.

(** The client [a] subscribes to [x/#] and is sent one QoS 1 message. *)
Definition delivered : server :=
  run default_hooks (create None)
    [Accept half; GotConnect 0%nat connect_a;
     GotSubscribe 0%nat 7 [Request "x/#" 2];
     Deliver (Handler 0 0 "x/#" 1) "x/y" "hi" (Some 1)].

(** The timer that [inflight[mid]] of connection [c] holds. *)
Definition inflight_of (c : nat) (mid : Z) (s : server) : option nat :=
  conns s !! c ≫= fun cl => inflight cl !! mid.

(** The registrations on the bus of the handlers that forward to the
    connection [c] for its filter [f]. *)
Definition registrations (c : nat) (f : string) (b : list (string * handler))
  : list (string * handler) :=
  List.filter (fun r => bool_decide (h_conn (snd r) = c)
                        && String.eqb (h_topic (snd r)) f) b.

(** The qos that the requests leave with the filter [f]: the downgraded
    qos of the last request for [f], [q0] when there is none. *)
Definition final_qos (f : string) (reqs : list request) (q0 : Z) : Z :=
  foldl (fun q e => if String.eqb (req_topic e) f then req_qos e else q)
        q0 (List.map downgrade reqs).

(** One request on the subscriptions of the client: a subscription that
    is there takes the qos of the request. *)
Definition requalify (m : gmap string subscription) (e : request)
  : gmap string subscription :=
  alter (set_sub_qos (req_qos e)) (req_topic e) m.

(** The qos that the specification grants for a requested qos: 2 is
    downgraded to 1. *)
Definition lowered (q : Z) : Z := if q =? 2 then 1 else q.

(** The qos that a SUBSCRIBE is to leave with the filter [f]: the one
    granted for the last request that names [f], [q0] when none does. *)
Definition last_granted (f : string) (reqs : list request) (q0 : Z) : Z :=
  foldl (fun q e => if String.eqb (req_topic e) f then lowered (req_qos e) else q)
        q0 reqs.

(** The subscriptions of a SUBSCRIBE to [x/#] with qos 2. *)
Definition subscribe_x : list request := [Request "x/#" 2].

(** A SUBSCRIBE that names [x/#] twice. *)
Definition twice_x : list request := [Request "x/#" 2; Request "x/#" 0].

(** Hooks that authorize no subscription. *)
Definition deny_subscribe : hooks :=
  {| authenticate := fun _ _ _ => Verdict true;
     authorizeSubscribe := fun _ _ => Verdict false |}.

(** The client [a] has subscribed to [x/#] once. *)
Definition subscribed_once : server :=
  run default_hooks (create None)
    [Accept half; GotConnect 0%nat connect_a; GotSubscribe 0%nat 7 subscribe_x].

End server_terms.

(** * More of the persistence and of the server *)

Section persistence_more.
Import Persistance.

(** The subscriptions of a client that [storeSubscriptions] keeps: the
    ones with a qos above 0. *)
Definition kept (c : client) : gmap string Z :=
  filter (fun kv => 0 < snd kv) (subscriptions c).

(** The loop of [storeSubscriptions] over the subscriptions it keeps. *)
Definition persist (cid : string) (ttl : option Z) (st : LevelUpPersistance)
    (kv : string * Z) : LevelUpPersistance :=
  set_subscriptions
    (insert (format (fst kv) cid) (Entry (Sub cid (fst kv) (snd kv)) ttl))
    (set_subLobber (Qlobber.add (fst kv) (format (fst kv) cid)) st).

(** A client with a durable subscription and one of qos 0. *)
Definition two_qos : client := Client "c" false {[ "a/b" := 1; "news" := 0 ]}.

(** The client [c] comes back with a clean session. *)
Definition clean_c : client := Client "c" true ∅.

End persistence_more.

(** ** The other listeners of [serve] *)

Module Broker.
Import Server.

(** What a listener hands to the bus, writes to its client or emits on
    the server when the rest of its work is done. *)
Inductive reply :=
  | BusPublish (topic payload : string) (qos : Z)
  | Puback (conn : nat) (mid : Z)
  | Unsuback (conn : nat) (mid : Z)
  | Pingresp (conn : nat)
  | Published (pkt : packet) (conn : nat).

(** [client.on("publish", ...)], with the hook [authorizePublish] of the
    server.  A packet that is allowed is handed to the bus
    ([BusPublish]: the call of [ascoltatore.publish]); the calls that the
    bus makes of the handlers registered with it are [Deliver] events.
    When the bus is done the PUBACK is written, for a qos of 1 only, and
    [published] is emitted. *)
Definition on_publish (authorizePublish : client -> string -> string -> verdict)
    (c : nat) (pkt : packet) (s : server) : server * list reply :=
  match conns s !! c with
  | None => (s, [])
  | Some cl =>
      match authorizePublish cl (topic pkt) (payload pkt) with
      | Verdict true =>
          (s,
           BusPublish (topic pkt) (payload pkt) (qos pkt)
           :: (if qos pkt =? 1 then [Puback c (messageId pkt)] else [])
           ++ [Published pkt c])
      | _ => (unsubAndClose c false s, [])
      end
  end.

(** [client.on("unsubscribe", ...)]; the bus in process does not fail,
    so the UNSUBACK is always written. *)
Definition on_unsubscribe (c : nat) (mid : Z) (unsubscriptions : list string)
    (s : server) : server * list reply :=
  (foldl (fun st t => unsubscribeMapTo c t st) s unsubscriptions,
   [Unsuback c mid]).

(** [client.on("pingreq", ...)] *)
Definition on_pingreq (c : nat) (s : server) : server * list reply :=
  (setUpTimer c s, [Pingresp c]).

(** All that happens to the server: what [event] has, and the three
    packets above. *)
Inductive arrival :=
  | Of (e : event)
  | GotPublish (c : nat) (pkt : packet)
  | GotUnsubscribe (c : nat) (mid : Z) (unsubscriptions : list string)
  | GotPingreq (c : nat).

Section arrivals.
Variable H : hooks.
Variable authorizePublish : client -> string -> string -> verdict.

(** The server and the replies after an arrival; a client that has no
    listeners left is not heard. *)
Definition handle (acc : server * list reply) (a : arrival) : server * list reply :=
  let '(s, out) := acc in
  match a with
  | Of e => (step H s e, out)
  | GotPublish c pkt =>
      if is_listening c s
      then (fst (on_publish authorizePublish c pkt s),
            out ++ snd (on_publish authorizePublish c pkt s))
      else acc
  | GotUnsubscribe c mid unsubscriptions =>
      if is_listening c s
      then (fst (on_unsubscribe c mid unsubscriptions s),
            out ++ snd (on_unsubscribe c mid unsubscriptions s))
      else acc
  | GotPingreq c =>
      if is_listening c s
      then (fst (on_pingreq c s), out ++ snd (on_pingreq c s))
      else acc
  end.

(** The server that [new Server(opts)] makes, after the arrivals [l]. *)
Definition serving (base : option Z) (l : list arrival) : server * list reply :=
  foldl handle (create base, []) l.

End arrivals.

End Broker.

Section server_more.
Import Server.

(** The PUBLISH packets written to the connection [c]. *)
Definition published_to (c : nat) (tr : list effect) : list packet :=
  omap (fun e => match e with
                 | Publish c' pkt => if bool_decide (c' = c) then Some pkt else None
                 | _ => None
                 end) tr.

(** The qos that [forward] gives a packet. *)
Definition forwarded_qos (cl : client) (pub_qos : option Z) (sub_topic : string)
    (initial_qos : Z) : Z :=
  Z.min (or_default pub_qos 0)
        (match subscriptions cl !! sub_topic with
         | Some sub => sub_qos sub
         | None => initial_qos
         end).

(** The id of a client when it is one that [closeConn] acts on: the test
    [if (client.id)] is false for a client without an id and for the
    empty id. *)
Definition truthy_id (cl : client) : option string :=
  match id cl with
  | Some i => if String.eqb i "" then None else Some i
  | None => None
  end.

(** The registrations of the bus without the handlers that the
    subscriptions [subs] of a client hold for the filters [l]. *)
Definition unregistered (subs : gmap string subscription) (l : list string)
    (r : string * handler) : Prop :=
  forall t sub, In t l -> subs !! t = Some sub ->
                r <> (replace_hash t, sub_handler sub).

(** What [closeConn] does with the keepalive timer and with the registry:
    the effect it adds to the trace, the timers and the registry
    afterwards. *)
Definition keepalive_clear (cl : client) : list effect :=
  match truthy_id cl, timer cl with
  | Some _, Some h => [ClearTimeout h]
  | _, _ => []
  end.

Definition without_keepalive (cl : client) (t : gmap nat (callback * Z))
  : gmap nat (callback * Z) :=
  match truthy_id cl, timer cl with
  | Some _, Some h => delete h t
  | _, _ => t
  end.

Definition unregister (cl : client) (registry : gmap string nat) : gmap string nat :=
  match truthy_id cl with
  | Some i => delete i registry
  | None => registry
  end.

(** The effects that [cleanup] adds to the trace: the timers of
    [inflight] are cleared, [clientDisconnected] is emitted, and then the
    callback, when it is the one of [_onclose], publishes the will. *)
Definition cleanup_trace (c : nat) (callback : bool) (cl : client) : list effect :=
  List.map (fun kv => ClearTimeout (snd kv)) (map_to_list (inflight cl))
  ++ ClientDisconnected c
     :: (if callback
         then match will cl with Some w => [WillPublished c w] | None => [] end
         else []).

(** The packets that [forward] writes to the connection [c] when the bus
    calls the handlers [hs], in this order, with a message on [t]: one
    for every handler of [c], with message ids that count up from [n]. *)
Fixpoint deliveries (c : nat) (cl : client) (t payload : string) (q : option Z)
    (n : Z) (hs : list handler) : list packet :=
  match hs with
  | [] => []
  | h :: rest =>
      if bool_decide (h_conn h = c)
      then Packet t payload (forwarded_qos cl q (h_topic h) (h_qos h)) n
           :: deliveries c cl t payload q (n + 1) rest
      else deliveries c cl t payload q n rest
  end.

(** Every keepalive timer that waits is the one that its client holds in
    [client.timer], and no client object is there for a connection that
    has not been accepted. *)
Definition one_keepalive (s : server) : Prop :=
  (forall h c d, timers s !! h = Some (KeepaliveTimeout c, d) ->
     exists cl, conns s !! c = Some cl /\ timer cl = Some h)
  /\ (forall c, (next_conn s <= c)%nat -> conns s !! c = None).

(** The wills of the connection [c] that have been published. *)
Definition wills_of (c : nat) (tr : list effect) : list will_packet :=
  omap (fun e => match e with
                 | WillPublished c' w => if bool_decide (c' = c) then Some w else None
                 | _ => None
                 end) tr.

(** No [cleanup] that would run the callback of [_onclose] waits for
    the end of a stream. *)
Definition tidy (s : server) : Prop :=
  forall c cl, conns s !! c = Some cl ->
               Forall (fun b => b = false) (end_listeners cl).

(** [client._onclose] does not listen on the connection [c], and no
    [cleanup] that would deliver its will waits for the end of its
    stream. *)
Definition quiet (c : nat) (s : server) : Prop :=
  exists cl, conns s !! c = Some cl /\ onclose cl = false
             /\ Forall (fun b => b = false) (end_listeners cl).

(** ... and the wills of [c] that have been published are [ws]. *)
Definition still (c : nat) (ws : list will_packet) (s : server) : Prop :=
  quiet c s /\ wills_of c (trace s) = ws.

(** The SUBACKs among the effects. *)
Definition subacks (tr : list effect) : list effect :=
  List.filter (fun e => match e with Suback _ _ _ => true | _ => false end) tr.

(** The requests of a SUBSCRIBE for the filter [f]. *)
Definition asked (f : string) (reqs : list request) : list request :=
  List.filter (fun e => String.eqb (req_topic e) f) reqs.

(** Hooks that authenticate nobody. *)
Definition deny_connect : hooks :=
  {| authenticate := fun _ _ _ => Verdict false;
     authorizeSubscribe := fun _ _ => Verdict true |}.

(** The object of the client [a] once it has subscribed to [x/#]. *)
Definition subscribed_client : client :=
  Client (Some "a") 10 None (Some 0%nat)
    {[ "x/#" := Subscription 1 (Handler 0 0 "x/#" 1) ]} 32767 ∅ false true true false [].

(** The object of a connection that has been accepted. *)
Definition accepted_client : client :=
  Client None 0 None None ∅ 32767 ∅ false true true false [].

(** [authorizePublish] allows everything, or nothing. *)
Definition allow_all : client -> string -> string -> verdict :=
  fun _ _ _ => Verdict true.

Definition deny_all : client -> string -> string -> verdict :=
  fun _ _ _ => Verdict false.

(** A client that connects with a will. *)
Definition bye : will_packet := Will "gone" "a" 0.

Definition connect_willed : connect_packet := Connect "a" None None 10 (Some bye).

Definition willed : server :=
  run default_hooks (create None) [Accept half; GotConnect 0%nat connect_willed].

Definition willed_client : client :=
  Client (Some "a") 10 (Some bye) (Some 0%nat) ∅ 32767 ∅ false true true false [].

Definition willed_arrivals : list Broker.arrival :=
  [Broker.Of (Accept half); Broker.Of (GotConnect 0%nat connect_willed)].

(** The second connection has connected with the id of the first. *)
Definition displaced : server :=
  run default_hooks first_connected [GotConnect 1%nat connect_a].

(** The client [a] connects and sends a PINGREQ. *)
Definition pinged : list Broker.arrival :=
  [Broker.Of (Accept half); Broker.Of (GotConnect 0%nat connect_a); Broker.GotPingreq 0].

End server_more.

(** * Properties *)

(** ** Strings and the matcher *)

Lemma append_nil (r : string) : ("" ++ r)%string = r.
Proof. reflexivity. Qed.

Lemma append_cons (a : ascii) (p r : string) :
  (String a p ++ r)%string = String a (p ++ r)%string.
Proof. reflexivity. Qed.

Lemma strip_prefix_app (p r : string) : strip_prefix p (p ++ r)%string = Some r.
Proof.
  induction p as [|a p IH]; [reflexivity|].
  rewrite append_cons. simpl. rewrite Ascii.eqb_refl. exact IH.
Qed.

Lemma strip_prefix_Some (p s r : string) :
  strip_prefix p s = Some r -> s = (p ++ r)%string.
Proof.
  revert s. induction p as [|a p IH]; intros s Hs; simpl in Hs.
  - rewrite append_nil. congruence.
  - destruct s as [|b s]; [discriminate|].
    destruct (Ascii.eqb a b) eqn:E; [|discriminate].
    apply Ascii.eqb_eq in E. subst b. rewrite append_cons. f_equal. auto.
Qed.

Lemma append_assoc (a b c : string) :
  ((a ++ b) ++ c = a ++ (b ++ c))%string.
Proof.
  induction a as [|x a IH]; [reflexivity|].
  rewrite !append_cons. now rewrite IH.
Qed.

Lemma format_prefix (cid rest : string) :
  format cid rest = ((cid ++ ":") ++ rest)%string.
Proof. unfold format. now rewrite append_assoc. Qed.

(** The matcher of one pattern that [lookupRetained] builds says whether
    the pattern matches. *)
Lemma single_pattern_match (pattern key : string) :
  (0 <? length (Qlobber.match_ key (Qlobber.add pattern true Qlobber.empty)))%nat
  = Topic.matches pattern key.
Proof.
  unfold Qlobber.match_, Qlobber.add, Qlobber.empty. simpl.
  destruct (Topic.matches pattern key); reflexivity.
Qed.

(** ** Retained messages *)

Section retained.
Import Persistance.

Lemma lookupRetained_elem (pattern : string) (p : LevelUpPersistance) (pkt : packet) :
  In pkt (lookupRetained pattern p) <->
  exists k e, _retained p !! k = Some e /\ Topic.matches pattern k = true
              /\ value e = pkt.
Proof.
  unfold lookupRetained. rewrite in_map_iff. split.
  - intros [[k e] [Hv Hin]]. apply filter_In in Hin as [Hin Hm].
    rewrite single_pattern_match in Hm. simpl in *.
    exists k, e. repeat split; try assumption.
    apply elem_of_map_to_list. now apply list_elem_of_In.
  - intros (k & e & Hk & Hm & Hv). exists (k, e). split; [exact Hv|].
    apply filter_In. split.
    + apply list_elem_of_In. now apply elem_of_map_to_list.
    + now rewrite single_pattern_match.
Qed.

(** C1, as amended: for every packet [P], whatever its payload,
    [storeRetained P] sets [retained[P.topic]] to [P] and leaves the other
    topics as they are; a later [lookupRetained] with a filter that
    matches [P.topic] returns [P]. *)
Theorem storeRetained_puts_packet (P : packet) (p : LevelUpPersistance)
    (filter : string) :
  Topic.matches filter (topic P) = true ->
  _retained (storeRetained P p) !! topic P = Some (Entry P None)
  /\ (forall t, t <> topic P ->
        _retained (storeRetained P p) !! t = _retained p !! t)
  /\ In P (lookupRetained filter (storeRetained P p)).
Proof.
  intros Hm. assert (Hput : _retained (storeRetained P p) !! topic P
                            = Some (Entry P None)).
  { unfold storeRetained. simpl. apply lookup_insert_eq. }
  split; [exact Hput|]. split.
  - intros t Ht. unfold storeRetained. simpl. now apply lookup_insert_ne.
  - apply lookupRetained_elem. exists (topic P), (Entry P None). auto.
Qed.

Lemma storeRetained_puts_packet_witness :
  Topic.matches "home/#" (topic temp_empty) = true
  /\ In temp_empty
       (lookupRetained "home/#" (storeRetained temp_empty (create no_options ∅))).
Proof.
  split; [reflexivity|].
  destruct (storeRetained_puts_packet temp_empty (create no_options ∅) "home/#")
    as (_ & _ & Hin); [reflexivity | exact Hin].
Defined.

(** C1 fails for a packet with an empty payload: the entry of its topic
    is not deleted, it holds that packet, and [lookupRetained] returns
    it. *)
Lemma storeRetained_empty_payload_not_deleted :
  let p := storeRetained temp_empty (storeRetained temp21 (create no_options ∅)) in
  payload temp_empty = ""
  /\ _retained p !! topic temp_empty <> None
  /\ lookupRetained "home/#" p = [temp_empty].
Proof.
  vm_compute. repeat split. discriminate.
Qed.

End retained.

(** ** Folds over the store *)

Lemma foldl_delete_None `{Countable K} {A B : Type} (g : B -> K) (l : list B)
    (m : gmap K A) (k : K) :
  m !! k = None -> foldl (fun m d => delete (g d) m) m l !! k = None.
Proof.
  revert m. induction l as [|a l IH]; intros m Hk; simpl; [exact Hk|].
  apply IH. destruct (decide (g a = k)) as [->|Hne].
  - apply lookup_delete_eq.
  - now rewrite lookup_delete_ne.
Qed.

Lemma foldl_delete_In `{Countable K} {A B : Type} (g : B -> K) (l : list B)
    (m : gmap K A) (k : K) :
  In k (List.map g l) -> foldl (fun m d => delete (g d) m) m l !! k = None.
Proof.
  revert m. induction l as [|a l IH]; intros m Hin; simpl in *; [tauto|].
  destruct Hin as [<-|Hin].
  - apply foldl_delete_None, lookup_delete_eq.
  - now apply IH.
Qed.

Section matcher_facts.
Context {V : Type} `{EqDecision V}.

Lemma dedup_In (x : V) (l : list V) : In x (Qlobber.dedup l) -> In x l.
Proof.
  induction l as [|a l IH]; simpl; [tauto|].
  destruct (bool_decide (a ∈ l)); simpl; intuition.
Qed.

Lemma In_dedup (x : V) (l : list V) : In x l -> In x (Qlobber.dedup l).
Proof.
  induction l as [|a l IH]; simpl; [tauto|].
  intros [->|Hin].
  - destruct (bool_decide (x ∈ l)) eqn:E; simpl; [|now left].
    apply bool_decide_eq_true in E. apply IH. now apply list_elem_of_In.
  - destruct (bool_decide (a ∈ l)); simpl; auto.
Qed.

(** A token that [match] gives was added with a filter that matches. *)
Lemma match_In (token : V) (t : string) (m : Qlobber.t V) :
  In token (Qlobber.match_ t m) <->
  exists f, In (f, token) m /\ Topic.matches f t = true.
Proof.
  unfold Qlobber.match_. split.
  - intros Hin. apply dedup_In, in_map_iff in Hin as [[f tok] [Htok Hin]].
    apply filter_In in Hin as [Hin Hm]. simpl in *. subst tok. eauto.
  - intros (f & Hin & Hm). apply In_dedup, in_map_iff. exists (f, token).
    split; [reflexivity|]. apply filter_In. auto.
Qed.

Lemma remove_In (f : string) (token token' : V) (m : Qlobber.t V) :
  In (f, token) (Qlobber.remove token' m) <-> In (f, token) m /\ token <> token'.
Proof.
  unfold Qlobber.remove. rewrite filter_In. simpl.
  rewrite negb_true_iff, bool_decide_eq_false. reflexivity.
Qed.

End matcher_facts.

Section subscriptions.
Import Persistance.

(** The loop of [streamOfflinePackets] touches the offline packets only. *)
Lemma stream_loop_fields (cid : string) (l : list (string * entry packet))
    (p : LevelUpPersistance) :
  foldl (fun st data => set_offlinePackets (delete (format cid (fst data))) st) p l
  = set_offlinePackets
      (fun m => foldl (fun m data => delete (format cid (fst data)) m) m l) p.
Proof.
  revert p. induction l as [|a l IH]; intros p; simpl.
  - now destruct p.
  - rewrite IH. reflexivity.
Qed.

Lemma range_In (cid rest : string) (e : entry packet)
    (m : gmap string (entry packet)) :
  m !! format cid rest = Some e -> In (rest, e) (range cid m).
Proof.
  intros Hk. unfold range. apply list_elem_of_In, list_elem_of_omap.
  exists (format cid rest, e). split.
  - now apply elem_of_map_to_list.
  - simpl. now rewrite format_prefix, strip_prefix_app.
Qed.

(** After [streamOfflinePackets] the client has no offline packet. *)
Lemma streamOfflinePackets_drains (c : client) (p : LevelUpPersistance)
    (rest : string) :
  _offlinePackets (fst (streamOfflinePackets c p)) !! format (id c) rest = None.
Proof.
  unfold streamOfflinePackets. simpl. rewrite stream_loop_fields. simpl.
  destruct (_offlinePackets p !! format (id c) rest) as [e|] eqn:E.
  - apply (foldl_delete_In (fun data => format (id c) (fst data))).
    apply in_map_iff. exists (rest, e). split; [reflexivity|].
    now apply range_In.
  - now apply (foldl_delete_None (fun data => format (id c) (fst data))).
Qed.

Lemma streamOfflinePackets_fields (c : client) (p : LevelUpPersistance) :
  let p' := fst (streamOfflinePackets c p) in
  _clientSubscriptions p' = _clientSubscriptions p
  /\ _subscriptions p' = _subscriptions p
  /\ _subLobber p' = _subLobber p
  /\ _retained p' = _retained p.
Proof.
  unfold streamOfflinePackets. simpl. rewrite stream_loop_fields. simpl. auto.
Qed.

Lemma forget_loop_fields (cid : string) (l : list (string * Z))
    (p : LevelUpPersistance) :
  let p' := foldl (forget cid) p l in
  _clientSubscriptions p' = _clientSubscriptions p
  /\ _offlinePackets p' = _offlinePackets p
  /\ _subscriptions p'
     = foldl (fun m kv => delete (format (fst kv) cid) m) (_subscriptions p) l
  /\ forall f token, In (f, token) (_subLobber p') <->
       In (f, token) (_subLobber p)
       /\ ~ In token (List.map (fun kv => format (fst kv) cid) l).
Proof.
  revert p. induction l as [|a l IH]; intros p; simpl.
  - repeat split; tauto.
  - destruct (IH (forget cid p a)) as (H1 & H2 & H3 & H4).
    rewrite H1, H2, H3.
    split; [reflexivity|]. split; [reflexivity|]. split; [reflexivity|].
    intros f token. rewrite H4. simpl. rewrite remove_In. split.
    + intros [[Hin Hne] Hl]. split; [exact Hin|]. intros [Heq|Hin']; auto.
    + intros [Hin Hl]. split; [split; [exact Hin|]|]; [intros ->; auto|auto].
Qed.

Lemma lookupSubscriptions_clean_eq (c : client) (p : LevelUpPersistance)
    (e : entry (gmap string Z)) :
  _clientSubscriptions p !! id c = Some e -> clean c = true ->
  lookupSubscriptions c p
  = (foldl (forget (id c))
       (fst (streamOfflinePackets c (set_clientSubscriptions (delete (id c)) p)))
       (map_to_list (value e)), ∅).
Proof. intros He Hc. unfold lookupSubscriptions. rewrite He, Hc. reflexivity. Qed.

(** C4: for a clean session with a record, [lookupSubscriptions] deletes
    the record, deletes every offline packet of the client and hands none
    of them on, takes the filters of the record out of the matcher and
    out of the subscription index, and returns the empty map; for any
    other session the store is left as it is and the stored record is
    returned, or the empty map when there is none. *)
Theorem lookupSubscriptions_clean_or_stored (c : client) (p : LevelUpPersistance) :
  let p' := fst (lookupSubscriptions c p) in
  let r := snd (lookupSubscriptions c p) in
  match _clientSubscriptions p !! id c with
  | Some e =>
      if clean c then
        r = ∅
        /\ _clientSubscriptions p' !! id c = None
        /\ (forall rest, _offlinePackets p' !! format (id c) rest = None)
        /\ snd (streamOfflinePackets c
                  (set_clientSubscriptions (delete (id c)) p)) = []
        /\ (forall f q, value e !! f = Some q ->
              _subscriptions p' !! format f (id c) = None
              /\ forall t, ~ In (format f (id c)) (Qlobber.match_ t (_subLobber p')))
      else p' = p /\ r = value e
  | None => p' = p /\ r = ∅
  end.
Proof.
  intros p' r. subst p' r.
  destruct (_clientSubscriptions p !! id c) as [e|] eqn:He.
  2:{ unfold lookupSubscriptions. rewrite He. auto. }
  destruct (clean c) eqn:Hc.
  2:{ unfold lookupSubscriptions. rewrite He, Hc. auto. }
  rewrite (lookupSubscriptions_clean_eq c p e He Hc). cbn [fst snd].
  set (p1 := set_clientSubscriptions (delete (id c)) p).
  destruct (forget_loop_fields (id c) (map_to_list (value e))
              (fst (streamOfflinePackets c p1))) as (H1 & H2 & H3 & H4).
  destruct (streamOfflinePackets_fields c p1) as (G1 & G2 & G3 & G4).
  split; [reflexivity|]. split.
  { rewrite H1, G1. subst p1. simpl. apply lookup_delete_eq. }
  split.
  { intros rest. rewrite H2. apply streamOfflinePackets_drains. }
  split.
  { unfold streamOfflinePackets. simpl. now rewrite Hc. }
  intros f q Hf.
  assert (Hin : In (format f (id c))
                  (List.map (fun kv : string * Z => format (fst kv) (id c))
                     (map_to_list (value e)))).
  { apply in_map_iff. exists (f, q). split; [reflexivity|].
    apply list_elem_of_In. now apply elem_of_map_to_list. }
  split.
  - rewrite H3. now apply (foldl_delete_In (fun kv : string * Z => format (fst kv) (id c))).
  - intros t Hm. apply match_In in Hm as (f' & Hf' & _).
    apply H4 in Hf' as [_ Hn]. auto.
Qed.

Lemma lookupSubscriptions_clean_or_stored_witness :
  snd (lookupSubscriptions clean_a one_durable) = ∅
  /\ _subscriptions (fst (lookupSubscriptions clean_a one_durable)) !! "home/#:a" = None.
Proof.
  pose proof (lookupSubscriptions_clean_or_stored clean_a one_durable) as W.
  cbv zeta in W.
  change (_clientSubscriptions one_durable !! id clean_a)
    with (Some (Entry ({[ "home/#" := 1 ]} : gmap string Z) (Some 3600000))) in W.
  change (clean clean_a) with true in W. cbv iota in W.
  destruct W as (Hr & _ & _ & _ & Hf). split; [exact Hr|].
  exact (proj1 (Hf "home/#" 1 eq_refl)).
Defined.

End subscriptions.

(** ** Offline packets *)

Section offline.
Import Persistance.

Lemma storePacket_entry (cid now : string) (pkt : packet) (p : LevelUpPersistance) :
  _offlinePackets (_storePacket cid pkt now p) !! format cid now
  = Some (Entry pkt (Some (subscriptionsTTL (options p)))).
Proof. unfold _storePacket. simpl. apply lookup_insert_eq. Qed.

(** Every put of one call stores the same value, so what one iteration
    has stored is what the store holds at the end. *)
Lemma each_sub_kept (clock : nat -> string) (pkt : packet) (subs : list string)
    (K : string) :
  forall (i : nat) (p : LevelUpPersistance),
  _offlinePackets p !! K = Some (Entry pkt (Some (subscriptionsTTL (options p)))) ->
  _offlinePackets (fst (each_sub clock i subs pkt p)) !! K
  = Some (Entry pkt (Some (subscriptionsTTL (options p)))).
Proof.
  induction subs as [|key rest IH]; intros i p HK; simpl; [exact HK|].
  destruct (_subscriptions p !! key) as [e|]; simpl.
  - refine (IH (S i) (_storePacket (sub_client (value e)) pkt (clock i) p) _).
    unfold _storePacket. simpl.
    destruct (decide (format (sub_client (value e)) (clock i) = K)) as [->|Hne].
    + apply lookup_insert_eq.
    + now rewrite lookup_insert_ne.
  - now apply IH.
Qed.

Lemma each_sub_stored (clock : nat -> string) (pkt : packet) (subs : list string) :
  forall (i : nat) (p : LevelUpPersistance) (j : nat) (key : string) (e : entry sub),
  subs !! j = Some key -> _subscriptions p !! key = Some e ->
  _offlinePackets (fst (each_sub clock i subs pkt p))
    !! format (sub_client (value e)) (clock (i + j)%nat)
  = Some (Entry pkt (Some (subscriptionsTTL (options p)))).
Proof.
  induction subs as [|k rest IH]; intros i p j key e Hj He; [discriminate|].
  destruct j as [|j]; simpl in Hj.
  - injection Hj as ->. simpl. rewrite He. rewrite Nat.add_0_r.
    exact (each_sub_kept clock pkt rest _ (S i)
             (_storePacket (sub_client (value e)) pkt (clock i) p)
             (storePacket_entry _ _ pkt p)).
  - simpl. replace (i + S j)%nat with (S i + j)%nat by lia.
    destruct (_subscriptions p !! k) as [e'|]; simpl.
    + exact (IH (S i) (_storePacket (sub_client (value e')) pkt (clock i) p)
               j key e Hj He).
    + exact (IH (S i) p j key e Hj He).
Qed.

(** On a database that takes every put, the iterations are the ones of
    [each_sub]. *)
Lemma each_sub_cb_taken (clock : nat -> string) (pkt : packet) (subs : list string) :
  forall (i : nat) (p : LevelUpPersistance),
  each_sub_cb (fun _ => false) clock i subs pkt p = each_sub clock i subs pkt p.
Proof.
  induction subs as [|key rest IH]; intros i p; simpl; [reflexivity|].
  destruct (_subscriptions p !! key) as [e|]; simpl; rewrite IH; [|reflexivity].
  now destruct (each_sub clock (S i) rest pkt _).
Qed.

(** [done] gets no error exactly when every row is read and every put
    is taken. *)
Lemma each_sub_cb_error (refused : nat -> bool) (clock : nat -> string)
    (pkt : packet) (subs : list string) :
  forall (i : nat) (p : LevelUpPersistance),
  snd (each_sub_cb refused clock i subs pkt p) = None
  <-> forall j key, subs !! j = Some key ->
        is_Some (_subscriptions p !! key) /\ refused (i + j)%nat = false.
Proof.
  induction subs as [|key rest IH]; intros i p; simpl.
  - split; [intros _ j key Hj; discriminate|reflexivity].
  - destruct (_subscriptions p !! key) as [e|] eqn:E; simpl.
    + unfold _storePacket_cb. destruct (refused i) eqn:R; simpl.
      * split; [discriminate|]. intros Hall.
        destruct (Hall 0%nat key eq_refl) as [_ Hr].
        rewrite Nat.add_0_r in Hr. congruence.
      * rewrite IH. split.
        -- intros Hall [|j] k Hj; simpl in Hj.
           ++ injection Hj as <-. rewrite E, Nat.add_0_r. split; [eauto|exact R].
           ++ replace (i + S j)%nat with (S i + j)%nat by lia. now apply Hall.
        -- intros Hall j k Hj.
           replace (S i + j)%nat with (i + S j)%nat by lia. now apply (Hall (S j)).
    + split; [discriminate|]. intros Hall.
      destruct (Hall 0%nat key eq_refl) as [[x Hx] _]. congruence.
Qed.

Lemma each_sub_cb_kept (refused : nat -> bool) (clock : nat -> string)
    (pkt : packet) (subs : list string) (K : string) :
  forall (i : nat) (p : LevelUpPersistance),
  _offlinePackets p !! K = Some (Entry pkt (Some (subscriptionsTTL (options p)))) ->
  _offlinePackets (fst (each_sub_cb refused clock i subs pkt p)) !! K
  = Some (Entry pkt (Some (subscriptionsTTL (options p)))).
Proof.
  induction subs as [|key rest IH]; intros i p HK; simpl; [exact HK|].
  destruct (_subscriptions p !! key) as [e|]; simpl; [|now apply IH].
  unfold _storePacket_cb. destruct (refused i); simpl; [now apply IH|].
  refine (IH (S i) (_storePacket (sub_client (value e)) pkt (clock i) p) _).
  unfold _storePacket. simpl.
  destruct (decide (format (sub_client (value e)) (clock i) = K)) as [->|Hne].
  - apply lookup_insert_eq.
  - now rewrite lookup_insert_ne.
Qed.

Lemma each_sub_cb_stored (refused : nat -> bool) (clock : nat -> string)
    (pkt : packet) (subs : list string) :
  forall (i : nat) (p : LevelUpPersistance) (j : nat) (key : string) (e : entry sub),
  subs !! j = Some key -> _subscriptions p !! key = Some e ->
  refused (i + j)%nat = false ->
  _offlinePackets (fst (each_sub_cb refused clock i subs pkt p))
    !! format (sub_client (value e)) (clock (i + j)%nat)
  = Some (Entry pkt (Some (subscriptionsTTL (options p)))).
Proof.
  induction subs as [|k rest IH]; intros i p j key e Hj He Hr; [discriminate|].
  destruct j as [|j]; simpl in Hj.
  - injection Hj as ->. simpl. rewrite He. rewrite Nat.add_0_r in *. simpl.
    unfold _storePacket_cb. rewrite Hr. simpl.
    exact (each_sub_cb_kept refused clock pkt rest _ (S i)
             (_storePacket (sub_client (value e)) pkt (clock i) p)
             (storePacket_entry _ _ pkt p)).
  - simpl. replace (i + S j)%nat with (S i + j)%nat in * by lia.
    destruct (_subscriptions p !! k) as [e'|]; simpl.
    + unfold _storePacket_cb. destruct (refused i); simpl.
      * exact (IH (S i) p j key e Hj He Hr).
      * exact (IH (S i) (_storePacket (sub_client (value e')) pkt (clock i) p)
                 j key e Hj He Hr).
    + exact (IH (S i) p j key e Hj He Hr).
Qed.

(** What the store holds under a key afterwards is what it held, or the
    copy that a put which was taken has written. *)
Lemma each_sub_cb_written (refused : nat -> bool) (clock : nat -> string)
    (pkt : packet) (subs : list string) (K : string) :
  forall (i : nat) (p : LevelUpPersistance),
  _offlinePackets (fst (each_sub_cb refused clock i subs pkt p)) !! K
  <> _offlinePackets p !! K ->
  exists j key e, subs !! j = Some key /\ _subscriptions p !! key = Some e
                  /\ refused (i + j)%nat = false
                  /\ K = format (sub_client (value e)) (clock (i + j)%nat).
Proof.
  induction subs as [|k rest IH]; intros i p Hne; simpl in Hne; [congruence|].
  destruct (_subscriptions p !! k) as [e|] eqn:E; simpl in Hne.
  - unfold _storePacket_cb in Hne. destruct (refused i) eqn:R; simpl in Hne.
    + destruct (IH (S i) p Hne) as (j & key & e' & H1 & H2 & H3 & H4).
      exists (S j), key, e'. replace (i + S j)%nat with (S i + j)%nat by lia. auto.
    + destruct (decide (K = format (sub_client (value e)) (clock i))) as [->|Hk].
      * exists 0%nat, k, e. rewrite Nat.add_0_r. auto.
      * set (p1 := _storePacket (sub_client (value e)) pkt (clock i) p) in *.
        assert (H1 : _offlinePackets p1 !! K = _offlinePackets p !! K)
          by (subst p1; unfold _storePacket; simpl; now rewrite lookup_insert_ne).
        rewrite <- H1 in Hne.
        destruct (IH (S i) p1 Hne) as (j & key & e' & J1 & J2 & J3 & J4).
        exists (S j), key, e'. replace (i + S j)%nat with (S i + j)%nat by lia.
        subst p1. auto.
  - destruct (IH (S i) p Hne) as (j & key & e' & H1 & H2 & H3 & H4).
    exists (S j), key, e'. replace (i + S j)%nat with (S i + j)%nat by lia. auto.
Qed.

(** C8, as amended: when the database refuses the put of the offline
    copy of a matched subscriber, [_storePacket] passes the error to the
    callback of the iteration and [async.each] to [done]: the completion
    callback is called without an error only when every row has been
    read and every put has been taken.  Nothing is logged and nothing is
    written for the put that was refused; the other iterations run all
    the same, and the copy of every subscriber whose row is read and
    whose put is taken is stored. *)
Theorem storeOfflinePacket_put_error_reaches_done (refused : nat -> bool)
    (clock : nat -> string) (pkt : packet) (p : LevelUpPersistance) :
  let subs := Qlobber.match_ (topic pkt) (_subLobber p) in
  let r := storeOfflinePacket_cb refused clock pkt p in
  let copy := Entry pkt (Some (subscriptionsTTL (options p))) in
  (snd r = None
   <-> forall j key, subs !! j = Some key ->
         is_Some (_subscriptions p !! key) /\ refused j = false)
  /\ (forall j key e,
        subs !! j = Some key -> _subscriptions p !! key = Some e ->
        refused j = false ->
        _offlinePackets (fst r) !! format (sub_client (value e)) (clock j) = Some copy)
  /\ (forall K,
        _offlinePackets (fst r) !! K <> _offlinePackets p !! K ->
        exists j key e, subs !! j = Some key /\ _subscriptions p !! key = Some e
                        /\ refused j = false
                        /\ K = format (sub_client (value e)) (clock j)).
Proof.
  intros subs r copy. subst r. unfold storeOfflinePacket_cb. fold subs.
  split; [exact (each_sub_cb_error refused clock pkt subs 0 p)|]. split.
  - intros j key e Hj He Hr.
    exact (each_sub_cb_stored refused clock pkt subs 0 p j key e Hj He Hr).
  - intros K HK. exact (each_sub_cb_written refused clock pkt subs K 0 p HK).
Qed.

(** C8 fails on [two_subscribers] when the database refuses the first
    put: both rows are read, the error of the put is what the completion
    callback is called with, the copy of the first subscriber is not
    stored and the copy of the second one is. *)
Lemma storeOfflinePacket_put_error_propagated :
  Qlobber.match_ (topic hello) (_subLobber two_subscribers) = ["a/b:c1"; "a/b:c2"]
  /\ snd (storeOfflinePacket_cb first_refused tick hello two_subscribers)
     = Some (WriteError "c1:2013-06-01T10:00:00.000Z")
  /\ _offlinePackets (fst (storeOfflinePacket_cb first_refused tick hello two_subscribers))
       !! "c1:2013-06-01T10:00:00.000Z" = None
  /\ _offlinePackets (fst (storeOfflinePacket_cb first_refused tick hello two_subscribers))
       !! "c2:2013-06-01T10:00:00.001Z" = Some (Entry hello (Some 3600000)).
Proof. vm_compute. repeat split. Qed.

End offline.

Section copies.
Import Persistance.

Lemma put_keys_rows (clock : nat -> string) (subs : list string) :
  forall (i : nat) (p q : LevelUpPersistance),
  _subscriptions q = _subscriptions p ->
  put_keys clock i subs q = put_keys clock i subs p.
Proof.
  induction subs as [|key rest IH]; intros i p q Hq; simpl; [reflexivity|].
  rewrite Hq. destruct (_subscriptions p !! key); now rewrite (IH _ p q Hq).
Qed.

Lemma put_keys_length (clock : nat -> string) (subs : list string)
    (p : LevelUpPersistance) :
  forall (i : nat),
  (forall key, In key subs -> is_Some (_subscriptions p !! key)) ->
  length (put_keys clock i subs p) = length subs.
Proof.
  induction subs as [|key rest IH]; intros i Hall; simpl; [reflexivity|].
  destruct (Hall key (or_introl eq_refl)) as [e He]. rewrite He. simpl.
  rewrite IH; [reflexivity|]. intros k Hk. apply Hall. now right.
Qed.

Lemma put_keys_lookup (clock : nat -> string) (subs : list string)
    (p : LevelUpPersistance) :
  forall (i j : nat) (key : string) (e : entry sub),
  (forall key, In key subs -> is_Some (_subscriptions p !! key)) ->
  subs !! j = Some key -> _subscriptions p !! key = Some e ->
  put_keys clock i subs p !! j = Some (format (sub_client (value e)) (clock (i + j)%nat)).
Proof.
  induction subs as [|k rest IH]; intros i j key e Hall Hj He; [discriminate|].
  simpl. destruct (Hall k (or_introl eq_refl)) as [e' He']. rewrite He'.
  destruct j as [|j]; simpl in Hj |- *.
  - injection Hj as ->. rewrite Nat.add_0_r. congruence.
  - replace (i + S j)%nat with (S i + j)%nat by lia.
    apply (IH (S i) j key e); auto. intros k' Hk'. apply Hall. now right.
Qed.

(** Every put under a key that is free adds one entry to the store. *)
Lemma each_sub_puts (clock : nat -> string) (pkt : packet) (subs : list string) :
  forall (i : nat) (p : LevelUpPersistance),
  NoDup (put_keys clock i subs p) ->
  (forall K, In K (put_keys clock i subs p) -> _offlinePackets p !! K = None) ->
  Permutation
    (map_to_list (_offlinePackets (fst (each_sub clock i subs pkt p))))
    (List.map (fun K => (K, Entry pkt (Some (subscriptionsTTL (options p)))))
       (put_keys clock i subs p)
     ++ map_to_list (_offlinePackets p)).
Proof.
  induction subs as [|key rest IH]; intros i p Hnd Hfree; simpl in *; [reflexivity|].
  destruct (_subscriptions p !! key) as [e|]; simpl in *; [|now apply IH].
  set (K0 := format (sub_client (value e)) (clock i)) in *.
  set (p1 := _storePacket (sub_client (value e)) pkt (clock i) p).
  apply NoDup_cons in Hnd as [Hnotin Hnd].
  assert (Hkeys : put_keys clock (S i) rest p1 = put_keys clock (S i) rest p)
    by (now apply put_keys_rows).
  rewrite (IH (S i) p1).
  - rewrite Hkeys. change (options p1) with (options p).
    change (_offlinePackets p1)
      with (<[K0 := Entry pkt (Some (subscriptionsTTL (options p)))]> (_offlinePackets p)).
    rewrite map_to_list_insert by (apply Hfree; now left).
    now rewrite <- Permutation_middle.
  - now rewrite Hkeys.
  - rewrite Hkeys. intros K HK. subst p1. unfold _storePacket. simpl.
    rewrite lookup_insert_ne; [apply Hfree; now right|].
    intros <-. apply Hnotin. now apply list_elem_of_In.
Qed.

Lemma range_app (cid : string) (l1 l2 : list (string * entry packet)) :
  omap (fun kv => match strip_prefix (cid ++ ":")%string (fst kv) with
                  | Some rest => Some (rest, snd kv)
                  | None => None
                  end) (l1 ++ l2)
  = omap (fun kv => match strip_prefix (cid ++ ":")%string (fst kv) with
                    | Some rest => Some (rest, snd kv)
                    | None => None
                    end) l1
    ++ omap (fun kv => match strip_prefix (cid ++ ":")%string (fst kv) with
                       | Some rest => Some (rest, snd kv)
                       | None => None
                       end) l2.
Proof. apply omap_app. Qed.

Lemma copies_ranged (cid : string) (E : entry packet) (keys : list string) :
  List.map (fun data : string * entry packet => value (snd data))
    (omap (fun kv => match strip_prefix (cid ++ ":")%string (fst kv) with
                     | Some rest => Some (rest, snd kv)
                     | None => None
                     end) (List.map (fun K => (K, E)) keys))
  = replicate
      (length (List.filter
                 (fun K => bool_decide (is_Some (strip_prefix (cid ++ ":")%string K)))
                 keys))
      (value E).
Proof.
  induction keys as [|K keys IH]; simpl; [reflexivity|].
  destruct (strip_prefix (cid ++ ":")%string K) as [rest|] eqn:EK;
    case_bool_decide as Hb; simpl.
  - f_equal. exact IH.
  - exfalso. apply Hb. eauto.
  - destruct Hb as [x Hx]. discriminate.
  - exact IH.
Qed.




(** ** The TTL of an offline packet *)

(** C6 at [ttl = {subscriptions: 1000, packets: 5000}]: the key of the
    offline packet is the client id, a colon and the timestamp, and the
    TTL it is put with is [ttl.subscriptions], 1000, where
    [ttl.packets] is 5000. *)
Theorem storePacket_ttl_is_subscriptionsTTL :
  let p := create short_subscriptions ∅ in
  let p' := _storePacket "a" hello "2013-06-01T10:00:00.000Z" p in
  packetsTTL (options p) = 5000
  /\ _offlinePackets p' !! "a:2013-06-01T10:00:00.000Z"
     = Some (Entry hello (Some 1000))
  /\ ttl <$> _offlinePackets p' !! "a:2013-06-01T10:00:00.000Z"
     <> Some (Some (packetsTTL (options p))).
Proof. vm_compute. repeat split. discriminate. Qed.

End copies.

(** ** The server: registry and message ids *)

Section registry.
Import Server.
Variable H : hooks.

Lemma upd_lookup (c : nat) (f : client -> client) (s : server) :
  conns (upd c f s) !! c = f <$> conns s !! c.
Proof. unfold upd. simpl. apply lookup_alter_eq. Qed.

Lemma upd_lookup_ne (c c0 : nat) (f : client -> client) (s : server) :
  c0 <> c -> conns (upd c f s) !! c0 = conns s !! c0.
Proof. intros Hne. unfold upd. simpl. now apply lookup_alter_ne. Qed.

(** C3, as amended: a CONNECT that is authenticated sets the entry of
    its client id in the registry to the new connection, whatever was
    there; a session that was registered under that id is not closed, its
    client object and its timers are left as they were; only the
    keepalive timer of the connecting client is set (again) and CONNACK 0
    is sent. *)
Theorem connect_displaces_prior_session (c : nat) (pkt : connect_packet)
    (s : server) (cl : client) :
  conns s !! c = Some cl ->
  authenticate H (set_id (Some (clientId pkt)) cl) (username pkt) (password pkt)
  = Verdict true ->
  let s' := on_connect H c pkt s in
  clients s' = <[clientId pkt := c]> (clients s)
  /\ (forall c0, c0 <> c -> conns s' !! c0 = conns s !! c0)
  /\ trace s'
     = trace s
       ++ match timer cl with Some h => [ClearTimeout h] | None => [] end
       ++ [SetTimeout (next_timer s) (connect_keepalive pkt * 1000 * 5 / 4);
           Connack c 0; ClientConnected c]
  /\ timers s'
     = <[next_timer s := (KeepaliveTimeout c, connect_keepalive pkt * 1000 * 5 / 4)]>
         (match timer cl with Some h => delete h (timers s) | None => timers s end).
Proof.
  intros Hc Hauth s'. subst s'. unfold on_connect.
  rewrite upd_lookup, Hc. simpl. rewrite Hauth.
  unfold setUpTimer. simpl.
  rewrite !lookup_alter_eq, Hc. simpl.
  destruct (timer cl) as [h|]; simpl.
  - repeat split.
    + intros c0 Hne. now rewrite !lookup_alter_ne by auto.
    + now rewrite <- !app_assoc.
  - repeat split.
    + intros c0 Hne. now rewrite !lookup_alter_ne by auto.
    + now rewrite <- !app_assoc.
Qed.

End registry.

Section two_connections.
Import Server.

Lemma connect_displaces_prior_session_witness :
  clients (on_connect default_hooks 1%nat connect_a first_connected) !! "a" = Some 1%nat
  /\ conns (on_connect default_hooks 1%nat connect_a first_connected) !! 0%nat
     = conns first_connected !! 0%nat.
Proof.
  assert (Hc : exists cl, conns first_connected !! 1%nat = Some cl)
    by (eexists; vm_compute; reflexivity).
  destruct Hc as [cl Hc].
  destruct (connect_displaces_prior_session default_hooks 1%nat connect_a
              first_connected cl Hc eq_refl) as (Hreg & Hother & _).
  split.
  - rewrite Hreg. apply lookup_insert_eq.
  - apply Hother. discriminate.
Defined.

(** C3 fails on a second CONNECT with the id [a]: the first session is
    displaced from the registry, and nothing closes it: its stream is not
    ended, it still listens, and its keepalive timer still runs. *)
Lemma second_connect_leaves_first_open :
  let s := run default_hooks first_connected [GotConnect 1%nat connect_a] in
  clients first_connected !! "a" = Some 0%nat
  /\ clients s !! "a" = Some 1%nat
  /\ (stream_ended <$> conns s !! 0%nat) = Some false
  /\ (_closed <$> conns s !! 0%nat) = Some false
  /\ is_listening 0%nat s = true
  /\ ~ In (StreamEnd 0%nat) (trace s)
  /\ ~ In (ClientDisconnected 0%nat) (trace s).
Proof.
  vm_compute. repeat split; try reflexivity; intros Hin;
    repeat (destruct Hin as [Hin|Hin]; [discriminate|]); exact Hin.
Qed.

End two_connections.

Section message_ids.
Import Server.

Lemma message_ids_app (tr1 tr2 : list effect) :
  message_ids (tr1 ++ tr2) = message_ids tr1 ++ message_ids tr2.
Proof. apply omap_app. Qed.

(** The first id is a 16-bit number. *)
Lemma initial_nextId_range (r : random) :
  in_unit_interval r -> 0 <= initial_nextId r <= 65534.
Proof.
  unfold in_unit_interval, initial_nextId. intros [Hlo Hhi].
  split.
  - apply Z.div_pos; lia.
  - assert (65535 * rnd_num r / rnd_den r < 65535); [|lia].
    apply Z.div_lt_upper_bound; lia.
Qed.

(** [forward] gives the packet the id [nextId] and adds one to [nextId]:
    there is no wrap. *)
Lemma forward_allocates (c : nat) (t payload : string) (pub_qos : option Z)
    (sub_topic : string) (initial_qos : Z) (s : server) (cl : client) :
  conns s !! c = Some cl ->
  let s' := forward c t payload pub_qos sub_topic initial_qos s in
  message_ids (trace s') = message_ids (trace s) ++ [nextId cl]
  /\ (nextId <$> conns s' !! c) = Some (nextId cl + 1).
Proof.
  intros Hc s'. subst s'. unfold forward. rewrite Hc.
  unfold actualSend. simpl.
  destruct (Z.min _ _ =? 1); simpl.
  - rewrite !message_ids_app. simpl. rewrite app_nil_r.
    rewrite !lookup_alter_eq, Hc. auto.
  - rewrite !message_ids_app. simpl.
    rewrite !lookup_alter_eq, Hc. auto.
Qed.

(** C7 at a first id of 65534: the third message id is 65536, which is
    not a 16-bit number. *)
Theorem nextId_is_not_wrapped :
  in_unit_interval almost_one
  /\ initial_nextId almost_one = 65534
  /\ message_ids (trace three_deliveries) = [65534; 65535; 65536]
  /\ ~ Forall (fun i => 0 <= i <= 65535) (message_ids (trace three_deliveries)).
Proof.
  split; [unfold in_unit_interval; simpl; lia|].
  split; [reflexivity|].
  assert (Hids : message_ids (trace three_deliveries) = [65534; 65535; 65536])
    by (vm_compute; reflexivity).
  split; [exact Hids|].
  rewrite Hids. intros Hall.
  inversion Hall as [|? ? _ Hall1]. inversion Hall1 as [|? ? _ Hall2].
  inversion Hall2 as [|? ? Hbad _]. lia.
Qed.

End message_ids.

(** ** The server: retransmission *)

Section retries.
Import Server.
Variable H : hooks.

Lemma actualSend_sent (c : nat) (pkt : packet) (r : Z) (s : server) :
  r <> 10 -> qos pkt = 1 -> actualSend c pkt r s = sent c pkt r s.
Proof.
  intros Hr Hq. unfold actualSend, sent.
  apply Z.eqb_neq in Hr. rewrite Hr, Hq. simpl.
  unfold upd, set_conns, emit. simpl. now rewrite <- app_assoc.
Qed.

Lemma fire_sent (c : nat) (pkt : packet) (r : Z) (s : server) :
  fresh s ->
  on_timer (next_timer s) (sent c pkt r s) = actualSend c pkt (r + 1) (attempt c pkt r s).
Proof.
  intros Hf. unfold on_timer. simpl. rewrite lookup_insert_eq.
  f_equal. unfold attempt, set_timers. simpl. f_equal.
  apply delete_insert_id, Hf. lia.
Qed.

Lemma attempt_fresh (c : nat) (pkt : packet) (r : Z) (s : server) :
  fresh s -> fresh (attempt c pkt r s).
Proof. intros Hf h Hh. simpl in *. apply Hf. lia. Qed.

Lemma run_fires (c : nat) (pkt : packet) (n : nat) :
  forall (r : Z) (s : server),
  0 <= r -> r + Z.of_nat n <= 10 -> qos pkt = 1 -> fresh s ->
  run H (actualSend c pkt r s) (List.map Fire (seq (next_timer s) n))
  = actualSend c pkt (r + Z.of_nat n) (attempts n c pkt r s).
Proof.
  induction n as [|n IH]; intros r s Hr Hn Hq Hf.
  - simpl. now rewrite Z.add_0_r.
  - change (run H (actualSend c pkt r s) (List.map Fire (seq (next_timer s) (S n))))
      with (run H (on_timer (next_timer s) (actualSend c pkt r s))
              (List.map Fire (seq (S (next_timer s)) n))).
    rewrite actualSend_sent by (auto; lia). rewrite fire_sent by exact Hf.
    change (S (next_timer s)) with (next_timer (attempt c pkt r s)).
    rewrite IH; auto using attempt_fresh; try lia.
    simpl. f_equal. lia.
Qed.

Lemma attempts_fields (c : nat) (pkt : packet) (n : nat) :
  forall (r : Z) (s : server),
  let s' := attempts n c pkt r s in
  clients s' = clients s /\ bus s' = bus s /\ timers s' = timers s
  /\ next_timer s' = (next_timer s + n)%nat
  /\ trace s' = trace s ++ schedule c pkt (baseRetryTimeout s) (next_timer s) r n
  /\ baseRetryTimeout s' = baseRetryTimeout s
  /\ forall c0, c0 <> c -> conns s' !! c0 = conns s !! c0.
Proof.
  induction n as [|n IH]; intros r s; simpl.
  - rewrite app_nil_r. repeat split; auto.
  - destruct (IH (r + 1) (attempt c pkt r s)) as (H1 & H2 & H3 & H4 & H5 & H7 & H6).
    simpl in H1, H2, H3, H4, H5, H6, H7.
    rewrite H1, H2, H3, H4, H5, H7.
    split; [reflexivity|]. split; [reflexivity|]. split; [reflexivity|].
    split; [lia|]. split; [now rewrite <- app_assoc|]. split; [reflexivity|].
    intros c0 Hne. rewrite H6 by exact Hne. now apply lookup_alter_ne.
Qed.

Lemma attempts_conn (c : nat) (pkt : packet) (n : nat) :
  forall (r : Z) (s : server) (cl : client),
  conns s !! c = Some cl ->
  conns (attempts (S n) c pkt r s) !! c
  = Some (set_inflight (insert (messageId pkt) (next_timer s + n)%nat) cl).
Proof.
  induction n as [|n IH]; intros r s cl Hc.
  - simpl. rewrite lookup_alter_eq, Hc, Nat.add_0_r. reflexivity.
  - change (attempts (S (S n)) c pkt r s)
      with (attempts (S n) c pkt (r + 1) (attempt c pkt r s)).
    rewrite (IH (r + 1) (attempt c pkt r s)
               (set_inflight (insert (messageId pkt) (next_timer s)) cl))
      by (simpl; now rewrite lookup_alter_eq, Hc).
    unfold set_inflight. simpl. rewrite insert_insert_eq.
    replace (S (next_timer s + n)) with (next_timer s + S n)%nat by lia.
    reflexivity.
Qed.

Lemma flat_map_map {A B C : Type} (f : B -> list C) (g : A -> B) (l : list A) :
  flat_map f (List.map g l) = flat_map (fun x => f (g x)) l.
Proof. induction l as [|a l IH]; simpl; [reflexivity|]. now rewrite IH. Qed.

Lemma schedule_flat_map (c : nat) (pkt : packet) (base : Z) (n : nat) :
  forall (h : nat) (r : Z),
  schedule c pkt base h r n
  = flat_map (fun k : nat =>
                [Publish c pkt; SetTimeout (h + k) (base * 2 ^ (r + Z.of_nat k))])
             (seq 0 n).
Proof.
  induction n as [|n IH]; intros h r; [reflexivity|].
  simpl. rewrite Nat.add_0_r, Z.add_0_r. do 2 f_equal.
  rewrite IH, <- seq_shift, flat_map_map.
  apply flat_map_ext. intros k.
  replace (r + Z.of_nat (S k)) with (r + 1 + Z.of_nat k) by lia.
  replace (h + S k)%nat with (S h + k)%nat by lia. reflexivity.
Qed.

Lemma schedule_sends (c : nat) (pkt : packet) (base : Z) (h n : nat) :
  schedule c pkt base h 0 n = sends c pkt base h n.
Proof. apply schedule_flat_map. Qed.

Lemma emit_error_listening (c : nat) (message : string) (s : server) (cl : client) :
  conns s !! c = Some cl -> listening cl = true ->
  emit_error c message s
  = stream_end c (emit (Warn c message) (emit (ClientError c message) s)).
Proof. intros Hc Hl. unfold emit_error. now rewrite Hc, Hl. Qed.

(** PUBACK: the entry goes and its timer is cancelled. *)
Lemma on_puback_clears (c : nat) (mid : Z) (s : server) (cl : client) (h : nat) :
  conns s !! c = Some cl -> inflight cl !! mid = Some h ->
  let s' := on_puback c mid s in
  conns s' !! c = Some (set_inflight (delete mid) cl)
  /\ timers s' = delete h (timers s)
  /\ trace s' = trace s ++ [ClearTimeout h].
Proof.
  intros Hc Hi s'. subst s'. unfold on_puback. rewrite Hc, Hi. simpl.
  now rewrite lookup_alter_eq, Hc.
Qed.

Lemma foldl_delete_all `{Countable K} {A : Type} (m : gmap K A) :
  foldl (fun m kv => delete (fst kv) m) m (map_to_list m) = ∅.
Proof.
  apply map_eq. intros k. rewrite lookup_empty.
  destruct (m !! k) as [v|] eqn:E.
  - apply (foldl_delete_In (fun kv : K * A => fst kv)).
    apply in_map_iff. exists (k, v). split; [reflexivity|].
    apply list_elem_of_In. now apply elem_of_map_to_list.
  - now apply (foldl_delete_None (fun kv : K * A => fst kv)).
Qed.

(** The loop of [cleanup] over the entries [l] of [inflight]. *)
Lemma cleanup_loop (c : nat) (l : list (Z * nat)) :
  forall (s : server),
  let s' := foldl (fun st kv => upd c (set_inflight (delete (fst kv)))
                                  (clearTimeout (snd kv) st)) s l in
  conns s' !! c
  = set_inflight (fun m => foldl (fun m kv => delete (fst kv) m) m l) <$> conns s !! c
  /\ timers s' = foldl (fun t kv => delete (snd kv) t) (timers s) l
  /\ clients s' = clients s.
Proof.
  induction l as [|a l IH]; intros s; simpl.
  - split; [|auto]. destruct (conns s !! c) as [cl|]; [|reflexivity].
    now destruct cl.
  - destruct (IH (upd c (set_inflight (delete (fst a))) (clearTimeout (snd a) s)))
      as (H1 & H2 & H3).
    rewrite H1, H2, H3. simpl. rewrite lookup_alter_eq.
    split; [|auto]. now destruct (conns s !! c).
Qed.

(** [cleanup]: no entry is left in [inflight], and the timers of the
    entries are cancelled. *)
Lemma cleanup_clears (c : nat) (callback : bool) (s : server) (cl : client) :
  conns s !! c = Some cl ->
  let s' := cleanup c callback s in
  inflight <$> conns s' !! c = Some ∅
  /\ forall mid h, inflight cl !! mid = Some h -> timers s' !! h = None.
Proof.
  intros Hc s'. subst s'. unfold cleanup. rewrite Hc.
  destruct (cleanup_loop c (map_to_list (inflight cl)) s) as (H1 & H2 & _).
  rewrite Hc in H1. simpl in H1.
  set (s1 := foldl _ s (map_to_list (inflight cl))) in *.
  assert (Hconn : inflight <$> conns (upd c (fun x => set_onclose false (set_listening false x)) s1) !! c
                  = Some ∅).
  { rewrite upd_lookup, H1. simpl. now rewrite foldl_delete_all. }
  assert (Htimers : forall mid h, inflight cl !! mid = Some h -> timers s1 !! h = None).
  { intros mid h Hi. rewrite H2.
    apply (foldl_delete_In (fun kv : Z * nat => snd kv)).
    apply in_map_iff. exists (mid, h). split; [reflexivity|].
    apply list_elem_of_In. now apply elem_of_map_to_list. }
  destruct callback; [destruct (will cl)|]; simpl; auto.
Qed.

Lemma sends_S (c : nat) (pkt : packet) (base : Z) (h n : nat) :
  sends c pkt base h (S n)
  = sends c pkt base h n
    ++ [Publish c pkt; SetTimeout (h + n) (base * 2 ^ Z.of_nat n)].
Proof.
  unfold sends. rewrite seq_S, flat_map_app. simpl. reflexivity.
Qed.

Lemma attempts_client (c : nat) (pkt : packet) (n : nat) (s : server) (cl : client) :
  conns s !! c = Some cl ->
  exists cl', conns (attempts n c pkt 0 s) !! c = Some cl'
              /\ listening cl' = listening cl
              /\ <[messageId pkt := (next_timer s + n)%nat]> (inflight cl')
                 = <[messageId pkt := (next_timer s + n)%nat]> (inflight cl).
Proof.
  intros Hc. destruct n as [|n].
  - exists cl. auto.
  - exists (set_inflight (insert (messageId pkt) (next_timer s + n)%nat) cl).
    split; [exact (attempts_conn c pkt n 0 s cl Hc)|]. split; [reflexivity|].
    simpl. apply insert_insert_eq.
Qed.

(** Fewer than 10 timers have fired: the packet has been written once
    more each time, and the next timer waits. *)
Lemma unacked_pending (c : nat) (pkt : packet) (s : server) (cl : client) (n : nat) :
  conns s !! c = Some cl -> qos pkt = 1 -> fresh s -> (n < 10)%nat ->
  let s1 := unacked H c pkt s n in
  trace s1 = trace s ++ sends c pkt (baseRetryTimeout s) (next_timer s) (S n)
  /\ timers s1
     = <[(next_timer s + n)%nat :=
           (Resend c pkt (Z.of_nat n), baseRetryTimeout s * 2 ^ Z.of_nat n)]> (timers s)
  /\ exists cl1, conns s1 !! c = Some cl1
       /\ inflight cl1 = <[messageId pkt := (next_timer s + n)%nat]> (inflight cl).
Proof.
  intros Hc Hq Hf Hn s1. subst s1. unfold unacked.
  rewrite run_fires by (auto; lia). rewrite actualSend_sent by (auto; lia).
  destruct (attempts_fields c pkt n 0 s) as (_ & _ & H3 & H4 & H5 & H6 & _).
  destruct (attempts_client c pkt n s cl Hc) as (cl' & Hc' & _ & Hi).
  unfold sent. simpl. rewrite H3, H4, H5, H6, schedule_sends, sends_S.
  split; [now rewrite <- app_assoc|]. split; [reflexivity|].
  rewrite lookup_alter_eq, Hc'. eexists. split; [reflexivity|]. exact Hi.
Qed.

(** The tenth timer has fired: nothing is written, no timer is set, the
    client emits an error, and the listener of that error ends the
    stream.  The entry of the packet in [inflight] is still there. *)
Lemma unacked_exhausted (c : nat) (pkt : packet) (s : server) (cl : client) :
  conns s !! c = Some cl -> listening cl = true -> qos pkt = 1 -> fresh s ->
  let s10 := unacked H c pkt s 10 in
  trace s10
  = trace s ++ sends c pkt (baseRetryTimeout s) (next_timer s) 10
    ++ [ClientError c "client not responding to acks";
        Warn c "client not responding to acks"; StreamEnd c]
  /\ timers s10 = timers s
  /\ clients s10 = clients s
  /\ exists cl10, conns s10 !! c = Some cl10
       /\ stream_ended cl10 = true
       /\ inflight cl10 = <[messageId pkt := (next_timer s + 9)%nat]> (inflight cl).
Proof.
  intros Hc Hl Hq Hf s10. subst s10. unfold unacked.
  rewrite run_fires by (auto; lia).
  change (actualSend c pkt (0 + Z.of_nat 10) (attempts 10 c pkt 0 s))
    with (emit_error c "client not responding to acks" (attempts 10 c pkt 0 s)).
  destruct (attempts_fields c pkt 10 0 s) as (H1 & _ & H3 & _ & H5 & _ & _).
  pose proof (attempts_conn c pkt 9 0 s cl Hc) as Hc'.
  remember (attempts 10 c pkt 0 s) as s9 eqn:E. clear E.
  rewrite (emit_error_listening c _ _ _ Hc' Hl).
  unfold stream_end. simpl. rewrite H1, H3, H5, schedule_sends.
  split; [now rewrite <- !app_assoc|]. split; [reflexivity|]. split; [reflexivity|].
  rewrite lookup_alter_eq, Hc'. eexists. split; [reflexivity|]. auto.
Qed.

(** C2, as amended: while fewer than 10 timers of an unacknowledged
    QoS 1 packet have fired, the packet has been written once per attempt,
    the [k]-th attempt with a timer of [baseRetryTimeout * 2 ^ k]
    milliseconds, and [inflight[messageId]] holds the timer that waits;
    the PUBACK deletes the entry and cancels that timer, and so does the
    [cleanup] of [closeConn], for every entry of the client.  When the
    tenth timer has fired, nothing more is written and no timer is set
    (the client emits an error), and the entry is left in [inflight]. *)
Theorem inflight_cleared_by_puback_or_cleanup (c : nat) (pkt : packet)
    (s : server) (cl : client) :
  conns s !! c = Some cl -> listening cl = true -> qos pkt = 1 -> fresh s ->
  (forall n, (n < 10)%nat ->
     let s1 := unacked H c pkt s n in
     trace s1 = trace s ++ sends c pkt (baseRetryTimeout s) (next_timer s) (S n)
     /\ timers s1 !! (next_timer s + n)%nat
        = Some (Resend c pkt (Z.of_nat n), baseRetryTimeout s * 2 ^ Z.of_nat n)
     /\ inflight <$> conns s1 !! c
        = Some (<[messageId pkt := (next_timer s + n)%nat]> (inflight cl))
     /\ inflight <$> conns (on_puback c (messageId pkt) s1) !! c
        = Some (delete (messageId pkt) (inflight cl))
     /\ timers (on_puback c (messageId pkt) s1) = timers s
     /\ forall callback,
          inflight <$> conns (cleanup c callback s1) !! c = Some ∅
          /\ timers (cleanup c callback s1) !! (next_timer s + n)%nat = None)
  /\ let s10 := unacked H c pkt s 10 in
     trace s10
     = trace s ++ sends c pkt (baseRetryTimeout s) (next_timer s) 10
       ++ [ClientError c "client not responding to acks";
           Warn c "client not responding to acks"; StreamEnd c]
     /\ timers s10 = timers s
     /\ inflight <$> conns s10 !! c
        = Some (<[messageId pkt := (next_timer s + 9)%nat]> (inflight cl)).
Proof.
  intros Hc Hl Hq Hf. split.
  - intros n Hn s1.
    destruct (unacked_pending c pkt s cl n Hc Hq Hf Hn) as (Ht & Htm & cl1 & Hc1 & Hi).
    fold s1 in Ht, Htm, Hc1.
    assert (Hmid : inflight cl1 !! messageId pkt = Some (next_timer s + n)%nat)
      by (rewrite Hi; apply lookup_insert_eq).
    destruct (on_puback_clears c (messageId pkt) s1 cl1 _ Hc1 Hmid) as (Hp1 & Hp2 & _).
    split; [exact Ht|]. split; [rewrite Htm; apply lookup_insert_eq|].
    split; [rewrite Hc1; simpl; now rewrite Hi|].
    split; [rewrite Hp1; simpl; now rewrite Hi, delete_insert_eq|].
    split; [rewrite Hp2, Htm; apply delete_insert_id, Hf; lia|].
    intros callback.
    destruct (cleanup_clears c callback s1 cl1 Hc1) as (Hk1 & Hk2).
    split; [exact Hk1|]. exact (Hk2 _ _ Hmid).
  - intros s10.
    destruct (unacked_exhausted c pkt s cl Hc Hl Hq Hf)
      as (Ht & Htm & _ & cl10 & Hc10 & _ & Hi).
    fold s10 in Ht, Htm, Hc10.
    split; [exact Ht|]. split; [exact Htm|].
    rewrite Hc10. simpl. now rewrite Hi.
Qed.

(** C5, as amended: when the tenth timer of an unacknowledged QoS 1
    packet has fired, the packet has been written 10 times, nothing more
    is written and no timer of it is left; the client emits the error
    "client not responding to acks", and the listener of that error ends
    the stream of the client: the connection is closed as a consequence.
    The registry is not touched at that point. *)
Theorem exhaustion_ends_stream (c : nat) (pkt : packet) (s : server) (cl : client) :
  conns s !! c = Some cl -> listening cl = true -> qos pkt = 1 -> fresh s ->
  let s10 := unacked H c pkt s 10 in
  trace s10
  = trace s ++ sends c pkt (baseRetryTimeout s) (next_timer s) 10
    ++ [ClientError c "client not responding to acks";
        Warn c "client not responding to acks"; StreamEnd c]
  /\ timers s10 = timers s
  /\ stream_ended <$> conns s10 !! c = Some true
  /\ clients s10 = clients s.
Proof.
  intros Hc Hl Hq Hf s10.
  destruct (unacked_exhausted c pkt s cl Hc Hl Hq Hf)
    as (Ht & Htm & Hr & cl10 & Hc10 & He & _).
  fold s10 in Ht, Htm, Hr, Hc10.
  split; [exact Ht|]. split; [exact Htm|]. split; [|exact Hr].
  rewrite Hc10. simpl. now rewrite He.
Qed.

End retries.

(** ** Timer handles are not used twice *)

Section timer_handles.
Import Server.
Variable H : hooks.

(** A change of the server that leaves the timers alone. *)
Lemma fresh_same (s s' : server) :
  timers s' = timers s -> next_timer s' = next_timer s -> fresh s -> fresh s'.
Proof. intros Ht Hn Hf h Hh. rewrite Ht. apply Hf. now rewrite <- Hn. Qed.

Lemma fresh_emit (e : effect) (s : server) : fresh s -> fresh (emit e s).
Proof. now apply fresh_same. Qed.

Lemma fresh_upd (c : nat) (f : client -> client) (s : server) :
  fresh s -> fresh (upd c f s).
Proof. now apply fresh_same. Qed.

Lemma fresh_set_bus f (s : server) : fresh s -> fresh (set_bus f s).
Proof. now apply fresh_same. Qed.

Lemma fresh_set_clients f (s : server) : fresh s -> fresh (set_clients f s).
Proof. now apply fresh_same. Qed.

Lemma fresh_set_next_handler n (s : server) : fresh s -> fresh (set_next_handler n s).
Proof. now apply fresh_same. Qed.

Lemma fresh_clearTimeout (h : nat) (s : server) : fresh s -> fresh (clearTimeout h s).
Proof.
  intros Hf h' Hh. simpl. apply lookup_delete_None. right. now apply Hf.
Qed.

Lemma fresh_delete_timer (h : nat) (s : server) :
  fresh s -> fresh (set_timers (delete h) s).
Proof.
  intros Hf h' Hh. simpl. apply lookup_delete_None. right. now apply Hf.
Qed.

Lemma fresh_setTimeout (cb : callback) (delay : Z) (s : server) :
  fresh s -> fresh (snd (setTimeout cb delay s)).
Proof.
  intros Hf h Hh. simpl in *. rewrite lookup_insert_ne by lia. apply Hf. lia.
Qed.

Lemma fresh_foldl {A : Type} (f : server -> A -> server) (l : list A) :
  (forall s a, fresh s -> fresh (f s a)) ->
  forall s, fresh s -> fresh (foldl f s l).
Proof.
  intros Hstep. induction l as [|a l IH]; intros s Hf; simpl; auto.
Qed.

Create HintDb fresh.

#[local] Hint Resolve fresh_emit fresh_upd fresh_set_bus fresh_set_clients
  fresh_set_next_handler fresh_clearTimeout fresh_delete_timer : fresh.

Ltac fresh_cases :=
  repeat match goal with
         | |- fresh _ => solve [auto 8 with fresh]
         | |- fresh (foldl _ _ _) => apply fresh_foldl; [intros ? ? ?|]
         | |- fresh (_ (foldl _ _ _)) => apply fresh_emit || apply fresh_upd
         | |- fresh (_ _ (foldl _ _ _)) => apply fresh_emit || apply fresh_upd
         | |- context [match ?x with _ => _ end] => destruct x
         end.

Lemma fresh_stream_end (c : nat) (s : server) : fresh s -> fresh (stream_end c s).
Proof. intros Hf. unfold stream_end. fresh_cases. Qed.

#[local] Hint Resolve fresh_stream_end : fresh.

Lemma fresh_setUpTimer (c : nat) (s : server) : fresh s -> fresh (setUpTimer c s).
Proof.
  intros Hf. unfold setUpTimer.
  destruct (conns s !! c) as [cl|]; [|exact Hf].
  change (fresh (upd c (set_timer (Some (next_timer (match timer cl with
                                                      | Some h => clearTimeout h s
                                                      | None => s
                                                      end))))
                   (snd (setTimeout (KeepaliveTimeout c) (keepalive cl * 1000 * 5 / 4)
                           (match timer cl with
                            | Some h => clearTimeout h s
                            | None => s
                            end))))).
  apply fresh_upd, fresh_setTimeout. destruct (timer cl); auto with fresh.
Qed.

Lemma fresh_emit_error (c : nat) (m : string) (s : server) :
  fresh s -> fresh (emit_error c m s).
Proof. intros Hf. unfold emit_error. fresh_cases. Qed.

Lemma fresh_actualSend (c : nat) (pkt : packet) (r : Z) (s : server) :
  fresh s -> fresh (actualSend c pkt r s).
Proof.
  intros Hf. unfold actualSend.
  destruct (r =? 10); [now apply fresh_emit_error|].
  destruct (qos pkt =? 1); [|auto with fresh].
  change (fresh (upd c (set_inflight (insert (messageId pkt) (next_timer s)))
                   (snd (setTimeout (Resend c pkt r) (baseRetryTimeout s * 2 ^ r)
                           (emit (Publish c pkt) s))))).
  apply fresh_upd, fresh_setTimeout. auto with fresh.
Qed.

#[local] Hint Resolve fresh_setUpTimer fresh_emit_error fresh_actualSend : fresh.

Lemma fresh_forward (c : nat) (t p : string) (q : option Z) (st : string) (iq : Z)
    (s : server) :
  fresh s -> fresh (forward c t p q st iq s).
Proof. intros Hf. unfold forward. fresh_cases. Qed.

Lemma fresh_unsubscribeMapTo (c : nat) (t : string) (s : server) :
  fresh s -> fresh (unsubscribeMapTo c t s).
Proof. intros Hf. unfold unsubscribeMapTo. fresh_cases. Qed.

Lemma fresh_cleanup (c : nat) (callback : bool) (s : server) :
  fresh s -> fresh (cleanup c callback s).
Proof.
  intros Hf. unfold cleanup.
  destruct (conns s !! c) as [cl|]; [|exact Hf]. cbv zeta.
  assert (Hloop : fresh (foldl (fun st kv => upd c (set_inflight (delete (fst kv)))
                                               (clearTimeout (snd kv) st))
                           s (map_to_list (inflight cl))))
    by (apply fresh_foldl; auto with fresh).
  destruct callback; [destruct (will cl)|]; auto 8 with fresh.
Qed.

#[local] Hint Resolve fresh_forward fresh_unsubscribeMapTo fresh_cleanup : fresh.

Lemma fresh_closeConn (c : nat) (callback : bool) (s : server) :
  fresh s -> fresh (closeConn c callback s).
Proof. intros Hf. unfold closeConn. fresh_cases. Qed.

#[local] Hint Resolve fresh_closeConn : fresh.

Lemma fresh_unsubAndClose (c : nat) (callback : bool) (s : server) :
  fresh s -> fresh (unsubAndClose c callback s).
Proof.
  intros Hf. unfold unsubAndClose.
  destruct (conns s !! c) as [cl|]; [|exact Hf].
  apply fresh_closeConn, fresh_foldl; auto with fresh.
Qed.

#[local] Hint Resolve fresh_unsubAndClose : fresh.

Lemma fresh_subscribe_task (c : nat) (acc : server * bool) (e : request) :
  fresh (fst acc) -> fresh (fst (subscribe_task H c acc e)).
Proof.
  destruct acc as [s failed]. simpl. intros Hf.
  destruct (conns s !! c) as [cl|]; [|exact Hf].
  destruct (authorizeSubscribe H cl (req_topic e)) as [|[|]];
    try (destruct failed; simpl; auto with fresh).
Qed.

Lemma fresh_on_subscribe (c : nat) (mid : Z) (reqs : list request) (s : server) :
  fresh s -> fresh (on_subscribe H c mid reqs s).
Proof.
  intros Hf. unfold on_subscribe. cbv zeta.
  destruct (conns _ !! c) as [cl|]; [|exact Hf].
  set (subs := List.filter _ _).
  assert (Hfold : forall l acc, fresh (fst acc) ->
                    fresh (fst (foldl (subscribe_task H c) acc l))).
  { induction l as [|a l IH]; intros acc Ha; simpl; [exact Ha|].
    now apply IH, fresh_subscribe_task. }
  specialize (Hfold subs (foldl (regrant c) s (List.map downgrade reqs), false)).
  destruct (foldl (subscribe_task H c) _ subs) as [s2 failed]. simpl in Hfold.
  assert (Hs2 : fresh s2).
  { apply Hfold, fresh_foldl; [|exact Hf]. intros. unfold regrant. auto with fresh. }
  destruct failed; auto with fresh.
Qed.

(** Every step keeps the handles that are still to come free. *)
Lemma fresh_step (s : server) (e : event) : fresh s -> fresh (step H s e).
Proof.
  intros Hf. destruct e; simpl.
  - apply (fresh_same s); [reflexivity | reflexivity | exact Hf].
  - destruct (is_listening c s); [|exact Hf]. unfold on_connect.
    destruct (conns _ !! c) as [cl|]; [|exact Hf].
    destruct (authenticate H cl _ _) as [|[|]]; auto 8 with fresh.
  - destruct (is_listening c s); [|exact Hf]. unfold on_puback. fresh_cases.
  - destruct (is_listening c s); [|exact Hf]. now apply fresh_on_subscribe.
  - destruct (is_listening c s); auto with fresh.
  - destruct (is_listening c s); [|exact Hf]. unfold on_close. fresh_cases.
  - unfold on_stream_end. fresh_cases.
  - destruct (registered h s); auto with fresh.
  - unfold on_timer. destruct (timers s !! h) as [[[c pkt r|c] d]|]; auto with fresh.
Qed.

(** The handles are free in every state that the server reaches. *)
Lemma fresh_run (base : option Z) (es : list event) :
  fresh (run H (create base) es).
Proof.
  unfold run. apply fresh_foldl.
  - intros s e. apply fresh_step.
  - intros h _. apply lookup_empty.
Qed.

End timer_handles.

Section one_packet.
Import Server.

Lemma inflight_cleared_by_puback_or_cleanup_witness :
  timers (unacked default_hooks 0 qos1_packet connected 10) = timers connected
  /\ inflight <$> conns (on_puback 0 32767
                           (unacked default_hooks 0 qos1_packet connected 3)) !! 0%nat
     = Some ∅.
Proof.
  destruct (inflight_cleared_by_puback_or_cleanup default_hooks 0 qos1_packet
              connected connected_client eq_refl eq_refl eq_refl
              (fresh_run default_hooks None _))
    as [Hn H10].
  split.
  - exact (proj1 (proj2 H10)).
  - destruct (Hn 3%nat ltac:(lia)) as (_ & _ & _ & Hp & _). exact Hp.
Defined.

Lemma exhaustion_ends_stream_witness :
  stream_ended <$> conns (unacked default_hooks 0 qos1_packet connected 10) !! 0%nat
  = Some true.
Proof.
  exact (proj1 (proj2 (proj2
           (exhaustion_ends_stream default_hooks 0 qos1_packet connected
              connected_client eq_refl eq_refl eq_refl
              (fresh_run default_hooks None _))))).
Defined.

(** C2 fails both ways on [delivered], where the message 32767 is in
    flight: after its 10 timers have fired, without a PUBACK, the entry is
    still in [inflight]; and when the connection closes, the entry is
    cleared though no PUBACK has come and the packet was sent once. *)
Lemma inflight_left_by_exhaustion_cleared_by_close :
  let exhausted := run default_hooks delivered (List.map Fire (seq 1 10)) in
  let closed := run default_hooks delivered [Closed 0%nat] in
  inflight_of 0 32767 delivered = Some 1%nat
  /\ message_ids (trace exhausted) = repeat 32767 10
  /\ inflight_of 0 32767 exhausted = Some 10%nat
  /\ message_ids (trace closed) = [32767]
  /\ inflight_of 0 32767 closed = None.
Proof. vm_compute. repeat split. Qed.

(** C5 fails on [delivered]: when the 10 timers have fired the stream of
    the client is ended, and the close that follows takes the session out
    of the registry. *)
Lemma exhaustion_closes_connection :
  let exhausted := run default_hooks delivered (List.map Fire (seq 1 10)) in
  stream_ended <$> conns delivered !! 0%nat = Some false
  /\ stream_ended <$> conns exhausted !! 0%nat = Some true
  /\ last (trace exhausted) = Some (StreamEnd 0)
  /\ clients exhausted !! "a" = Some 0%nat
  /\ clients (run default_hooks exhausted [Closed 0%nat]) !! "a" = None.
Proof. vm_compute. repeat split. Qed.

End one_packet.

(** ** The server: SUBSCRIBE for a filter that is subscribed *)

Section resubscribe.
Import Server.
Variable H : hooks.

Lemma regrant_loop (c : nat) (l : list request) :
  forall (s : server),
  let s1 := foldl (regrant c) s l in
  bus s1 = bus s /\ trace s1 = trace s
  /\ conns s1 !! c
     = set_subscriptions (fun m => foldl requalify m l) <$> conns s !! c.
Proof.
  induction l as [|e l IH]; intros s; simpl.
  - split; [reflexivity|]. split; [reflexivity|].
    destruct (conns s !! c) as [cl|]; [|reflexivity]. now destruct cl.
  - destruct (IH (regrant c s e)) as (H1 & H2 & H3).
    rewrite H1, H2, H3. simpl. rewrite lookup_alter_eq.
    split; [reflexivity|]. split; [reflexivity|].
    now destruct (conns s !! c).
Qed.

Lemma requalify_lookup (l : list request) (t : string) :
  forall (m : gmap string subscription),
  foldl requalify m l !! t
  = (fun sub =>
       Subscription
         (foldl (fun q e => if String.eqb (req_topic e) t then req_qos e else q)
                (sub_qos sub) l)
         (sub_handler sub)) <$> m !! t.
Proof.
  induction l as [|e l IH]; intros m; simpl.
  - destruct (m !! t) as [sub|]; [|reflexivity]. now destruct sub.
  - rewrite IH. unfold requalify at 1. rewrite lookup_alter.
    destruct (decide (req_topic e = t)) as [->|Hne].
    + rewrite String.eqb_refl. now destruct (m !! t).
    + apply String.eqb_neq in Hne. rewrite Hne. reflexivity.
Qed.

Lemma registrations_app (c : nat) (f : string) (b : list (string * handler))
    (t : string) (h : handler) :
  h_topic h <> f ->
  registrations c f (b ++ [(t, h)]) = registrations c f b.
Proof.
  intros Hne. unfold registrations. rewrite List.filter_app. simpl.
  apply String.eqb_neq in Hne. rewrite Hne, andb_false_r. apply app_nil_r.
Qed.

(** The tasks of [async.parallel] for filters other than [f], all
    authorized: none fails, nothing is written, what the client and the
    bus hold for [f] stays, and no subscription of the client goes. *)
Lemma tasks_keep_filter (c : nat) (f : string) (X : subscription)
    (subs : list request) :
  forall (s : server) (cl : client),
  (forall e, In e subs ->
     req_topic e <> f
     /\ forall cl', authorizeSubscribe H cl' (req_topic e) = Verdict true) ->
  conns s !! c = Some cl -> subscriptions cl !! f = Some X ->
  let r := foldl (subscribe_task H c) (s, false) subs in
  snd r = false
  /\ trace (fst r) = trace s
  /\ registrations c f (bus (fst r)) = registrations c f (bus s)
  /\ exists cl2, conns (fst r) !! c = Some cl2 /\ subscriptions cl2 !! f = Some X
       /\ forall t, subscriptions cl2 !! t = None -> subscriptions cl !! t = None.
Proof.
  induction subs as [|e subs IH]; intros s cl Hall Hc Hf; simpl.
  - do 3 (split; [reflexivity|]). eauto.
  - destruct (Hall e (or_introl eq_refl)) as [Hne Hauth].
    rewrite Hc, Hauth.
    set (h := Handler (next_handler s) c (req_topic e) (req_qos e)).
    set (s1 := upd c _ _).
    destruct (IH s1 (set_subscriptions
                       (insert (req_topic e) (Subscription (req_qos e) h)) cl))
      as (H1 & H2 & H3 & cl2 & H4 & H5 & H6).
    + intros e' He'. apply Hall. now right.
    + subst s1. rewrite upd_lookup. simpl. now rewrite Hc.
    + simpl. now rewrite lookup_insert_ne.
    + split; [exact H1|]. split; [exact H2|]. split.
      * rewrite H3. subst s1. simpl. now apply registrations_app.
      * exists cl2. split; [exact H4|]. split; [exact H5|].
        intros t Ht. apply H6 in Ht. simpl in Ht.
        now apply lookup_insert_None in Ht as [Ht _].
Qed.

Lemma downgrade_topic (e : request) : req_topic (downgrade e) = req_topic e.
Proof. unfold downgrade. destruct (req_qos e =? 2); reflexivity. Qed.

Lemma on_subscribe_resubscribed (c : nat) (mid : Z) (reqs : list request)
    (s : server) (cl : client) (sub : subscription) (f : string) :
  conns s !! c = Some cl -> subscriptions cl !! f = Some sub ->
  (forall e cl', In e reqs -> subscriptions cl !! req_topic e = None ->
                 inherited (req_topic e) = false ->
                 authorizeSubscribe H cl' (req_topic e) = Verdict true) ->
  let s' := on_subscribe H c mid reqs s in
  (exists cl', conns s' !! c = Some cl'
     /\ subscriptions cl' !! f
        = Some (Subscription (final_qos f reqs (sub_qos sub)) (sub_handler sub))
     /\ forall t, subscriptions cl' !! t = None -> subscriptions cl !! t = None)
  /\ trace s' = trace s ++ [Suback c mid (List.map (fun e => req_qos (downgrade e)) reqs)]
  /\ registrations c f (bus s') = registrations c f (bus s).
Proof.
  intros Hc Hf Hauth s'. subst s'. unfold on_subscribe. cbv zeta.
  destruct (regrant_loop c (List.map downgrade reqs) s) as (B1 & T1 & C1).
  rewrite Hc in C1. simpl in C1. rewrite C1.
  set (cl1 := set_subscriptions _ cl) in *.
  assert (Hdom : forall t, subscriptions cl1 !! t = None -> subscriptions cl !! t = None).
  { intros t. subst cl1. simpl. rewrite requalify_lookup.
    now destruct (subscriptions cl !! t). }
  assert (Hf1 : subscriptions cl1 !! f
                = Some (Subscription (final_qos f reqs (sub_qos sub)) (sub_handler sub))).
  { subst cl1. simpl. rewrite requalify_lookup, Hf. reflexivity. }
  set (subs := List.filter _ _).
  destruct (tasks_keep_filter c f
              (Subscription (final_qos f reqs (sub_qos sub)) (sub_handler sub)) subs
              (foldl (regrant c) s (List.map downgrade reqs)) cl1)
    as (F1 & F2 & F3 & cl2 & F4 & F5 & F6).
  - intros e He. subst subs. apply filter_In in He as [He Hnone].
    apply andb_true_iff in Hnone as [Hnone Hown].
    apply bool_decide_eq_true in Hnone. apply negb_true_iff in Hown. split.
    + intros Heq. rewrite Heq, Hf1 in Hnone. discriminate.
    + apply in_map_iff in He as (e0 & <- & He0). intros cl'.
      rewrite downgrade_topic in *. apply Hauth; auto.
  - exact C1.
  - exact Hf1.
  - destruct (foldl (subscribe_task H c) _ subs) as [s2 failed].
    simpl in F1, F2, F3, F4. subst failed. simpl.
    split; [exists cl2; auto|]. split.
    + now rewrite F2, T1, map_map.
    + now rewrite F3, B1.
Qed.

Lemma downgrade_qos (e : request) : req_qos (downgrade e) = lowered (req_qos e).
Proof. unfold downgrade, lowered. destruct (req_qos e =? 2); reflexivity. Qed.

Lemma final_qos_granted (f : string) (reqs : list request) :
  forall q0, final_qos f reqs q0 = last_granted f reqs q0.
Proof.
  unfold final_qos, last_granted.
  induction reqs as [|e reqs IH]; intros q0; simpl; [reflexivity|].
  now rewrite IH, downgrade_topic, downgrade_qos.
Qed.


End resubscribe.

Section subscribe_twice.
Import Server.



End subscribe_twice.

(** * More properties of the persistence *)

Lemma string_length_append (a b : string) :
  String.length (a ++ b)%string = (String.length a + String.length b)%nat.
Proof.
  induction a as [|x a IH]; [reflexivity|].
  rewrite append_cons. simpl. now rewrite IH.
Qed.

Lemma append_inj_l (a b s : string) : (a ++ s = b ++ s)%string -> a = b.
Proof.
  revert b. induction a as [|x a IH]; intros [|y b] E.
  - reflexivity.
  - apply (f_equal String.length) in E.
    rewrite append_nil, append_cons in E. simpl in E.
    rewrite string_length_append in E. lia.
  - apply (f_equal String.length) in E.
    rewrite append_nil, append_cons in E. simpl in E.
    rewrite string_length_append in E. lia.
  - rewrite !append_cons in E. injection E as -> E. f_equal. now apply IH.
Qed.

Lemma format_inj_l (f1 f2 cid : string) : format f1 cid = format f2 cid -> f1 = f2.
Proof. unfold format. apply append_inj_l. Qed.

Lemma foldl_delete_notin `{Countable K} {A B : Type} (g : B -> K) (l : list B)
    (m : gmap K A) (k : K) :
  ~ In k (List.map g l) -> foldl (fun m d => delete (g d) m) m l !! k = m !! k.
Proof.
  revert m. induction l as [|a l IH]; intros m Hn; simpl in *; [reflexivity|].
  rewrite IH by tauto. apply lookup_delete_ne. tauto.
Qed.

Lemma foldl_insert_notin `{Countable K} {A B : Type} (g : B -> K) (v : B -> A)
    (l : list B) (m : gmap K A) (k : K) :
  ~ In k (List.map g l) ->
  foldl (fun m d => <[g d := v d]> m) m l !! k = m !! k.
Proof.
  revert m. induction l as [|a l IH]; intros m Hn; simpl in *; [reflexivity|].
  rewrite IH by tauto. apply lookup_insert_ne. tauto.
Qed.

Lemma foldl_insert_in `{Countable K} {A B : Type} (g : B -> K) (v : B -> A)
    (l : list B) (m : gmap K A) (a : B) :
  List.NoDup (List.map g l) -> In a l ->
  foldl (fun m d => <[g d := v d]> m) m l !! g a = Some (v a).
Proof.
  revert m. induction l as [|b l IH]; intros m Hnd Hin; simpl in *; [tauto|].
  inversion Hnd as [|? ? Hb Hnd']; subst. destruct Hin as [->|Hin].
  - rewrite foldl_insert_notin by exact Hb. apply lookup_insert_eq.
  - now apply IH.
Qed.

Lemma omap_none {A B : Type} (f : A -> option B) (l : list A) :
  (forall x, In x l -> f x = None) -> omap f l = [].
Proof.
  induction l as [|a l IH]; intros Hall; simpl; [reflexivity|].
  rewrite (Hall a) by now left. apply IH. intros x Hx. apply Hall. now right.
Qed.

Section matcher_add.
Context {V : Type} `{EqDecision V}.

Lemma has_In (f : string) (token : V) (m : Qlobber.t V) :
  Qlobber.has f token m = true -> In (f, token) m.
Proof.
  unfold Qlobber.has. intros Hex. apply existsb_exists in Hex as ([f' t'] & Hin & Hp).
  simpl in Hp. apply andb_true_iff in Hp as [Hf Ht].
  apply String.eqb_eq in Hf. apply bool_decide_eq_true in Ht. now subst.
Qed.

Lemma add_In (x : string * V) (f : string) (token : V) (m : Qlobber.t V) :
  In x (Qlobber.add f token m) <-> In x m \/ x = (f, token).
Proof.
  unfold Qlobber.add. destruct (Qlobber.has f token m) eqn:Hh.
  - apply has_In in Hh. split; [auto|]. intros [Hin|Heq]; [exact Hin | now subst].
  - rewrite in_app_iff. simpl. intuition.
Qed.

Lemma foldl_add_In {B : Type} (gf : B -> string) (gt : B -> V) (l : list B)
    (x : string * V) :
  forall (m : Qlobber.t V),
  In x (foldl (fun q d => Qlobber.add (gf d) (gt d) q) m l)
  <-> In x m \/ exists d, In d l /\ x = (gf d, gt d).
Proof.
  induction l as [|a l IH]; intros m; simpl.
  - split; [auto|]. intros [Hin|(d & [] & _)]. exact Hin.
  - rewrite IH, add_In. split.
    + intros [[Hin|Heq]|(d & Hd & Heq)]; subst; eauto.
    + intros [Hin|(d & [Heq|Hd] & Hx)]; subst; eauto.
Qed.

End matcher_add.

Section durable.
Import Persistance.

Lemma persist_loop (cid : string) (ttl : option Z) (l : list (string * Z)) :
  forall (p : LevelUpPersistance),
  let p' := foldl (persist cid ttl) p l in
  options p' = options p /\ _retained p' = _retained p
  /\ _clientSubscriptions p' = _clientSubscriptions p
  /\ _offlinePackets p' = _offlinePackets p
  /\ _subscriptions p'
     = foldl (fun m kv => <[format (fst kv) cid := Entry (Sub cid (fst kv) (snd kv)) ttl]> m)
             (_subscriptions p) l
  /\ _subLobber p'
     = foldl (fun q kv => Qlobber.add (fst kv) (format (fst kv) cid) q) (_subLobber p) l.
Proof.
  induction l as [|a l IH]; intros p; simpl.
  - repeat split.
  - destruct (IH (persist cid ttl p a)) as (H1 & H2 & H3 & H4 & H5 & H6).
    rewrite H1, H2, H3, H4, H5, H6. repeat split.
Qed.

Lemma storeSubscriptions_eq (c : client) (p : LevelUpPersistance) :
  clean c = false ->
  storeSubscriptions c p
  = foldl (persist (id c) (Some (subscriptionsTTL (options p))))
      (set_clientSubscriptions
         (insert (id c) (Entry (kept c) (Some (subscriptionsTTL (options p))))) p)
      (map_to_list (kept c)).
Proof. intros Hc. unfold storeSubscriptions. rewrite Hc. reflexivity. Qed.

Lemma kept_lookup (c : client) (f : string) (q : Z) :
  kept c !! f = Some q <-> subscriptions c !! f = Some q /\ 0 < q.
Proof. unfold kept. now rewrite map_lookup_filter_Some. Qed.

Lemma level_keys_NoDup (cid : string) (m : gmap string Z) :
  List.NoDup (List.map (fun kv : string * Z => format (fst kv) cid) (map_to_list m)).
Proof.
  assert (Hnd : NoDup ((fun f => format f cid) <$> (map_to_list m).*1)).
  { apply NoDup_fmap_2; [|apply NoDup_fst_map_to_list].
    intros f1 f2. apply format_inj_l. }
  rewrite <- list_fmap_compose in Hnd. apply NoDup_ListNoDup in Hnd. exact Hnd.
Qed.

(** What [storeSubscriptions] leaves in the store for a client that is
    not clean. *)
Lemma storeSubscriptions_fields (c : client) (p : LevelUpPersistance) :
  clean c = false ->
  let p' := storeSubscriptions c p in
  let ttl := Some (subscriptionsTTL (options p)) in
  options p' = options p /\ _retained p' = _retained p
  /\ _offlinePackets p' = _offlinePackets p
  /\ _clientSubscriptions p' = <[id c := Entry (kept c) ttl]> (_clientSubscriptions p)
  /\ (forall f q, kept c !! f = Some q ->
        _subscriptions p' !! format f (id c) = Some (Entry (Sub (id c) f q) ttl))
  /\ (forall k, (forall f q, kept c !! f = Some q -> k <> format f (id c)) ->
        _subscriptions p' !! k = _subscriptions p !! k)
  /\ (forall f token, In (f, token) (_subLobber p') <->
        In (f, token) (_subLobber p)
        \/ exists q, kept c !! f = Some q /\ token = format f (id c)).
Proof.
  intros Hc p' ttl. subst p'. rewrite (storeSubscriptions_eq c p Hc). fold ttl.
  destruct (persist_loop (id c) ttl (map_to_list (kept c))
              (set_clientSubscriptions (insert (id c) (Entry (kept c) ttl)) p))
    as (H1 & H2 & H3 & H4 & H5 & H6).
  rewrite H1, H2, H3, H4, H5, H6. simpl.
  split; [reflexivity|]. split; [reflexivity|]. split; [reflexivity|].
  split; [reflexivity|]. split; [|split].
  - intros f q Hk.
    apply (foldl_insert_in (fun kv : string * Z => format (fst kv) (id c))
             (fun kv => Entry (Sub (id c) (fst kv) (snd kv)) ttl)
             (map_to_list (kept c)) (_subscriptions p) (f, q)).
    + apply level_keys_NoDup.
    + apply list_elem_of_In. now apply elem_of_map_to_list.
  - intros k Hk.
    apply (foldl_insert_notin (fun kv : string * Z => format (fst kv) (id c))).
    intros Hin. apply in_map_iff in Hin as ([f q] & <- & Hin).
    apply list_elem_of_In, elem_of_map_to_list in Hin. exact (Hk f q Hin eq_refl).
  - intros f token.
    rewrite (foldl_add_In (fun kv : string * Z => fst kv)
               (fun kv => format (fst kv) (id c))).
    split; intros [Hin|Hex]; auto; right.
    + destruct Hex as ([f' q] & Hin & Heq). injection Heq as -> ->. exists q.
      split; [|reflexivity]. now apply elem_of_map_to_list, list_elem_of_In.
    + destruct Hex as (q & Hk & ->). exists (f, q). split; [|reflexivity].
      now apply list_elem_of_In, elem_of_map_to_list.
Qed.

(** X1: what [storeSubscriptions] has stored for a client that is not
    clean is what [lookupSubscriptions] gives back to it: its
    subscriptions with a qos above 0, and only them; the lookup leaves
    the store as it is. *)
Theorem stored_subscriptions_are_looked_up (c : client) (p : LevelUpPersistance) :
  clean c = false ->
  lookupSubscriptions c (storeSubscriptions c p)
  = (storeSubscriptions c p, kept c)
  /\ forall f, kept c !! f
               = match subscriptions c !! f with
                 | Some q => if bool_decide (0 < q) then Some q else None
                 | None => None
                 end.
Proof.
  intros Hc. split.
  - destruct (storeSubscriptions_fields c p Hc) as (_ & _ & _ & Hrec & _).
    unfold lookupSubscriptions. rewrite Hrec, lookup_insert_eq, Hc. reflexivity.
  - intros f. unfold kept. destruct (subscriptions c !! f) as [q|] eqn:E.
    + case_bool_decide.
      * apply map_lookup_filter_Some. auto.
      * apply map_lookup_filter_None. right. intros q' Hq'. simpl. congruence.
    + apply map_lookup_filter_None. now left.
Qed.

Lemma durable_subscriptions_are_indexed_aux (c : client) (p : LevelUpPersistance) :
  clean c = false ->
  forall f q, subscriptions c !! f = Some q -> 0 < q ->
    _subscriptions (storeSubscriptions c p) !! format f (id c)
    = Some (Entry (Sub (id c) f q) (Some (subscriptionsTTL (options p))))
    /\ forall t, Topic.matches f t = true ->
                 In (format f (id c))
                    (Qlobber.match_ t (_subLobber (storeSubscriptions c p))).
Proof.
  intros Hc f q Hf Hq.
  destruct (storeSubscriptions_fields c p Hc) as (_ & _ & _ & _ & Hrow & _ & Htok).
  assert (Hk : kept c !! f = Some q) by now apply kept_lookup.
  split; [now apply Hrow|].
  intros t Ht. apply match_In. exists f. split; [|exact Ht].
  apply Htok. right. eauto.
Qed.

(** X2: for a client that is not clean, [storeSubscriptions] puts one
    row in the subscription index for every subscription with a qos at
    least 1, under the key filter:clientId, with the client, the filter,
    the qos and the TTL of subscriptions, and the matcher gives that key
    for every topic the filter matches; a subscription of qos 0 leaves
    the row under its key as it was. *)
Theorem durable_subscriptions_are_indexed (c : client) (p : LevelUpPersistance) :
  clean c = false ->
  let p' := storeSubscriptions c p in
  (forall f q, subscriptions c !! f = Some q -> 0 < q ->
     _subscriptions p' !! format f (id c)
     = Some (Entry (Sub (id c) f q) (Some (subscriptionsTTL (options p))))
     /\ forall t, Topic.matches f t = true ->
                  In (format f (id c)) (Qlobber.match_ t (_subLobber p')))
  /\ (forall f q, subscriptions c !! f = Some q -> q <= 0 ->
        _subscriptions p' !! format f (id c) = _subscriptions p !! format f (id c)).
Proof.
  intros Hc p'.
  destruct (storeSubscriptions_fields c p Hc) as (_ & _ & _ & _ & _ & Hother & _).
  split.
  - now apply durable_subscriptions_are_indexed_aux.
  - intros f q Hf Hq. apply Hother. intros f' q' Hk Heq.
    apply format_inj_l in Heq. subst f'. apply kept_lookup in Hk as [Hf' Hq'].
    rewrite Hf in Hf'. injection Hf' as <-. lia.
Qed.

(** X3: a client that is not clean stores its subscriptions and goes;
    a packet whose topic one of its subscriptions of qos at least 1
    matches is then stored by [storeOfflinePacket], whatever happens to
    the other subscribers, and [streamOfflinePackets] hands it to the
    client when it comes back, after which no offline packet of the
    client is left. *)
Theorem offline_packet_reaches_durable_subscriber (c : client)
    (clock : nat -> string) (pkt : packet) (p : LevelUpPersistance)
    (f : string) (q : Z) :
  clean c = false -> subscriptions c !! f = Some q -> 0 < q ->
  Topic.matches f (topic pkt) = true ->
  let p2 := fst (storeOfflinePacket clock pkt (storeSubscriptions c p)) in
  In pkt (snd (streamOfflinePackets c p2))
  /\ forall rest,
       _offlinePackets (fst (streamOfflinePackets c p2)) !! format (id c) rest = None.
Proof.
  intros Hc Hf Hq Hm p2. split; [|intros rest; apply streamOfflinePackets_drains].
  destruct (durable_subscriptions_are_indexed_aux c p Hc f q Hf Hq) as [Hrow Htok].
  specialize (Htok (topic pkt) Hm).
  apply list_elem_of_In, list_elem_of_lookup in Htok as [j Hj].
  pose proof (each_sub_stored clock pkt _ 0 (storeSubscriptions c p) j _ _ Hj Hrow) as Hput.
  simpl in Hput. unfold streamOfflinePackets. simpl. rewrite Hc.
  apply in_map_iff.
  exists (clock j, Entry pkt (Some (subscriptionsTTL (options (storeSubscriptions c p))))).
  split; [reflexivity|]. apply range_In. exact Hput.
Qed.

End durable.

Section stale_rows.
Import Persistance.

Lemma forget_loop_options (cid : string) (l : list (string * Z))
    (p : LevelUpPersistance) :
  options (foldl (forget cid) p l) = options p.
Proof. revert p. induction l as [|a l IH]; intros p; simpl; [reflexivity|]. now rewrite IH. Qed.

Lemma streamOfflinePackets_options (c : client) (p : LevelUpPersistance) :
  options (fst (streamOfflinePackets c p)) = options p.
Proof. unfold streamOfflinePackets. simpl. now rewrite stream_loop_fields. Qed.

(** X4: [storeSubscriptions] adds rows and never takes one away, and the
    clean [lookupSubscriptions] deletes the rows of the last record only.
    So when a client had [f] subscribed with a qos of at least 1 at one
    store, has unsubscribed it by the next, and then comes back clean,
    the row of [f] is still in the index and in the matcher, and a
    packet on a topic that [f] matches is still stored for the client. *)
Theorem unsubscribed_filter_keeps_its_row (c1 c2 c3 : client)
    (p : LevelUpPersistance) (f : string) (q : Z)
    (clock : nat -> string) (pkt : packet) :
  clean c1 = false -> clean c2 = false -> clean c3 = true ->
  id c2 = id c1 -> id c3 = id c1 ->
  subscriptions c1 !! f = Some q -> 0 < q -> subscriptions c2 !! f = None ->
  Topic.matches f (topic pkt) = true ->
  let r := lookupSubscriptions c3 (storeSubscriptions c2 (storeSubscriptions c1 p)) in
  snd r = ∅
  /\ _subscriptions (fst r) !! format f (id c1)
     = Some (Entry (Sub (id c1) f q) (Some (subscriptionsTTL (options p))))
  /\ In (format f (id c1)) (Qlobber.match_ (topic pkt) (_subLobber (fst r)))
  /\ exists j, _offlinePackets (fst (storeOfflinePacket clock pkt (fst r)))
                 !! format (id c1) (clock j)
               = Some (Entry pkt (Some (subscriptionsTTL (options p)))).
Proof.
  intros H1 H2 H3 Hid2 Hid3 Hf Hq Hf2 Hm.
  set (p1 := storeSubscriptions c1 p). set (p2 := storeSubscriptions c2 p1).
  intros r.
  destruct (storeSubscriptions_fields c1 p H1) as (O1 & _ & _ & _ & Hrow1 & _ & Htok1).
  destruct (storeSubscriptions_fields c2 p1 H2) as (O2 & _ & _ & Hrec2 & _ & Hother2 & Htok2).
  fold p1 in O1, Hrow1, Htok1. fold p2 in O2, Hrec2, Hother2, Htok2.
  assert (Hk1 : kept c1 !! f = Some q) by now apply kept_lookup.
  assert (Hfresh : forall f' q', kept c2 !! f' = Some q' ->
                                 format f (id c1) <> format f' (id c2)).
  { intros f' q' Hk' Heq. rewrite Hid2 in Heq. apply format_inj_l in Heq. subst f'.
    apply kept_lookup in Hk' as [Hk' _]. congruence. }
  assert (Hrow2 : _subscriptions p2 !! format f (id c1)
                  = Some (Entry (Sub (id c1) f q) (Some (subscriptionsTTL (options p))))).
  { rewrite (Hother2 _ Hfresh). now apply Hrow1. }
  assert (Htoken2 : In (f, format f (id c1)) (_subLobber p2)).
  { apply Htok2. left. apply Htok1. right. eauto. }
  assert (Hrec : _clientSubscriptions p2 !! id c3
                 = Some (Entry (kept c2) (Some (subscriptionsTTL (options p1))))).
  { rewrite Hrec2, Hid3, <- Hid2. apply lookup_insert_eq. }
  subst r. rewrite (lookupSubscriptions_clean_eq c3 p2 _ Hrec H3). cbn [fst snd value].
  set (p2' := set_clientSubscriptions (delete (id c3)) p2).
  destruct (forget_loop_fields (id c3) (map_to_list (kept c2))
              (fst (streamOfflinePackets c3 p2'))) as (_ & _ & F3 & F4).
  destruct (streamOfflinePackets_fields c3 p2') as (_ & G2 & G3 & _).
  assert (Hnot : ~ In (format f (id c1))
                     (List.map (fun kv : string * Z => format (fst kv) (id c3))
                        (map_to_list (kept c2)))).
  { intros Hin. apply in_map_iff in Hin as ([f' q'] & Heq & Hin).
    apply list_elem_of_In, elem_of_map_to_list in Hin. simpl in Heq.
    rewrite Hid3 in Heq. apply format_inj_l in Heq. subst f'.
    apply kept_lookup in Hin as [Hin _]. congruence. }
  assert (Hrow3 : _subscriptions
                    (foldl (forget (id c3)) (fst (streamOfflinePackets c3 p2'))
                       (map_to_list (kept c2))) !! format f (id c1)
                  = Some (Entry (Sub (id c1) f q) (Some (subscriptionsTTL (options p))))).
  { rewrite F3.
    rewrite (foldl_delete_notin (fun kv : string * Z => format (fst kv) (id c3)))
      by exact Hnot.
    rewrite G2. exact Hrow2. }
  assert (Hmatch : In (format f (id c1))
                      (Qlobber.match_ (topic pkt)
                         (_subLobber (foldl (forget (id c3))
                                        (fst (streamOfflinePackets c3 p2'))
                                        (map_to_list (kept c2)))))).
  { apply match_In. exists f. split; [|exact Hm]. apply F4. split; [|exact Hnot].
    rewrite G3. exact Htoken2. }
  split; [reflexivity|]. split; [exact Hrow3|]. split; [exact Hmatch|].
  apply list_elem_of_In, list_elem_of_lookup in Hmatch as [j Hj]. exists j.
  pose proof (each_sub_stored clock pkt _ 0 _ j _ _ Hj Hrow3) as Hput.
  assert (Hopt : options (foldl (forget (id c3)) (fst (streamOfflinePackets c3 p2'))
                            (map_to_list (kept c2))) = options p).
  { rewrite forget_loop_options, streamOfflinePackets_options. simpl.
    now rewrite O2, O1. }
  rewrite <- Hopt. exact Hput.
Qed.

End stale_rows.

Section draining.
Import Persistance.

(** X6: [streamOfflinePackets] deletes the offline packets whose key
    starts with the id of the client and a colon, and no other; to a
    client that is not clean it hands the packets it deletes, to a clean
    one nothing; a second stream finds nothing to hand on. *)
Theorem streamOfflinePackets_takes_own_packets (c : client) (p : LevelUpPersistance) :
  let r := streamOfflinePackets c p in
  (forall k, _offlinePackets (fst r) !! k
             = match strip_prefix (id c ++ ":")%string k with
               | Some _ => None
               | None => _offlinePackets p !! k
               end)
  /\ (forall pkt, In pkt (snd r) <->
        clean c = false
        /\ exists rest e, _offlinePackets p !! format (id c) rest = Some e
                          /\ value e = pkt)
  /\ snd (streamOfflinePackets c (fst r)) = [].
Proof.
  intros r. subst r.
  assert (Hdel : forall k, _offlinePackets (fst (streamOfflinePackets c p)) !! k
             = match strip_prefix (id c ++ ":")%string k with
               | Some _ => None
               | None => _offlinePackets p !! k
               end).
  { intros k. destruct (strip_prefix (id c ++ ":")%string k) as [rest|] eqn:E.
    - apply strip_prefix_Some in E. subst k. rewrite <- format_prefix.
      apply streamOfflinePackets_drains.
    - unfold streamOfflinePackets. simpl. rewrite stream_loop_fields. simpl.
      apply (foldl_delete_notin (fun data : string * entry packet =>
                                   format (id c) (fst data))).
      intros Hin. apply in_map_iff in Hin as ([rest e] & <- & _). simpl in E.
      now rewrite format_prefix, strip_prefix_app in E. }
  split; [exact Hdel|]. split.
  - intros pkt. unfold streamOfflinePackets. simpl. destruct (clean c).
    + simpl. split; [tauto|]. intros [Hc _]. discriminate.
    + rewrite in_map_iff. split.
      * intros ([rest e] & Hv & Hin). split; [reflexivity|]. exists rest, e.
        split; [|exact Hv]. unfold range in Hin.
        apply list_elem_of_In, list_elem_of_omap in Hin as ([k e'] & Hin & Hk).
        apply elem_of_map_to_list in Hin. simpl in Hk.
        destruct (strip_prefix (id c ++ ":")%string k) as [rest'|] eqn:E; [|discriminate].
        injection Hk as -> ->. apply strip_prefix_Some in E. subst k.
        now rewrite format_prefix.
      * intros (_ & rest & e & He & Hv). exists (rest, e). split; [exact Hv|].
        now apply range_In.
  - unfold streamOfflinePackets at 1. simpl. destruct (clean c); [reflexivity|].
    unfold range. rewrite omap_none; [reflexivity|].
    intros [k e] Hin. apply list_elem_of_In, elem_of_map_to_list in Hin. simpl.
    destruct (strip_prefix (id c ++ ":")%string k) as [rest|] eqn:E; [|reflexivity].
    rewrite Hdel, E in Hin. discriminate.
Qed.

End draining.

Section retained_more.
Import Persistance.

(** X7: after [storeRetained P], [lookupRetained] returns [P] when the
    filter matches its topic, and besides it the packets retained before
    under the other topics that the filter matches: the packet that was
    retained under the topic of [P] has been overwritten. *)
Theorem lookupRetained_after_storeRetained (P Q : packet) (p : LevelUpPersistance)
    (filter : string) :
  In Q (lookupRetained filter (storeRetained P p)) <->
  (Q = P /\ Topic.matches filter (topic P) = true)
  \/ exists k e, k <> topic P /\ _retained p !! k = Some e
                 /\ Topic.matches filter k = true /\ value e = Q.
Proof.
  rewrite lookupRetained_elem. unfold storeRetained. simpl. split.
  - intros (k & e & Hk & Hm & Hv). destruct (decide (k = topic P)) as [->|Hne].
    + rewrite lookup_insert_eq in Hk. injection Hk as <-. left. auto.
    + rewrite lookup_insert_ne in Hk by auto. right. exists k, e. auto.
  - intros [[-> Hm]|(k & e & Hne & Hk & Hm & Hv)].
    + exists (topic P), (Entry P None). rewrite lookup_insert_eq. auto.
    + exists k, e. rewrite lookup_insert_ne by auto. auto.
Qed.

(** X8: the constructor rebuilds the matcher from the rows of the
    subscription index: the keys it gives for a topic are the keys of the
    rows whose filter matches the topic. *)
Theorem matcher_is_rebuilt_from_rows (o : ttl_options)
    (rows : gmap string (entry sub)) (t key : string) :
  In key (Qlobber.match_ t (_subLobber (create o rows))) <->
  exists e, rows !! key = Some e /\ Topic.matches (sub_topic (value e)) t = true.
Proof.
  rewrite match_In. simpl. split.
  - intros (f & Hin & Hm).
    apply (foldl_add_In (fun d : string * entry sub => sub_topic (value (snd d)))
             (fun d => fst d)) in Hin as [[]|([k e] & Hd & Heq)].
    injection Heq as -> ->. simpl in Hm.
    apply list_elem_of_In, elem_of_map_to_list in Hd. eauto.
  - intros (e & He & Hm). exists (sub_topic (value e)). split; [|exact Hm].
    apply (foldl_add_In (fun d : string * entry sub => sub_topic (value (snd d)))
             (fun d => fst d)). right. exists (key, e). split; [|reflexivity].
    now apply list_elem_of_In, elem_of_map_to_list.
Qed.

End retained_more.

(** * More properties of the server *)

Section forwarding.
Import Server.
Variable H : hooks.

Lemma or_default_zero (x : Z) : or_default (Some x) 0 = x.
Proof. unfold or_default. destruct (x =? 0) eqn:E; [|reflexivity]. apply Z.eqb_eq in E. lia. Qed.

Lemma published_to_app (c : nat) (tr1 tr2 : list effect) :
  published_to c (tr1 ++ tr2) = published_to c tr1 ++ published_to c tr2.
Proof. apply omap_app. Qed.

(** What [forward] does for a client that is there. *)
Lemma forward_effects (c : nat) (t payload : string) (pub_qos : option Z)
    (sub_topic : string) (initial_qos : Z) (s : server) (cl : client) :
  conns s !! c = Some cl ->
  let pkt := Packet t payload (forwarded_qos cl pub_qos sub_topic initial_qos)
               (nextId cl) in
  forward c t payload pub_qos sub_topic initial_qos s
  = actualSend c pkt 0 (upd c (set_nextId (nextId cl + 1)) s).
Proof.
  intros Hc pkt. unfold forward. rewrite Hc. cbv zeta. rewrite or_default_zero.
  subst pkt. unfold forwarded_qos.
  now destruct (subscriptions cl !! sub_topic).
Qed.

(** X9: [forward] writes one PUBLISH to the client, with its next message
    id and with the smaller of the qos of the publication (0 when it has
    none) and the qos that the subscription of the client has now (the
    qos the handler was made with only when the subscription is gone).
    With a qos of 1 it sets the first resend timer, of
    [baseRetryTimeout] milliseconds, and puts it in [inflight]; with any
    other qos it sets no timer and leaves [inflight] alone. *)
Theorem forward_sends_smaller_qos (c : nat) (t payload : string) (pub_qos : option Z)
    (sub_topic : string) (initial_qos : Z) (s : server) (cl : client) :
  conns s !! c = Some cl ->
  let q := forwarded_qos cl pub_qos sub_topic initial_qos in
  let pkt := Packet t payload q (nextId cl) in
  let s' := forward c t payload pub_qos sub_topic initial_qos s in
  trace s'
  = trace s ++ Publish c pkt
      :: (if q =? 1 then [SetTimeout (next_timer s) (baseRetryTimeout s * 1)] else [])
  /\ timers s'
     = (if q =? 1
        then <[next_timer s := (Resend c pkt 0, baseRetryTimeout s * 1)]> (timers s)
        else timers s)
  /\ inflight <$> conns s' !! c
     = Some (if q =? 1 then <[nextId cl := next_timer s]> (inflight cl)
             else inflight cl).
Proof.
  intros Hc q pkt s'. subst s'. rewrite (forward_effects c t payload _ _ _ s cl Hc).
  fold q. fold pkt. unfold actualSend. simpl.
  change (qos pkt) with q. destruct (q =? 1); simpl.
  - rewrite <- app_assoc. split; [reflexivity|]. split; [reflexivity|].
    rewrite !lookup_alter_eq, Hc. reflexivity.
  - split; [reflexivity|]. split; [reflexivity|].
    rewrite lookup_alter_eq, Hc. reflexivity.
Qed.

(** X10: when a client subscribes again to a filter it has, the handler
    on the bus stays the one of the first SUBSCRIBE, made with the first
    qos; a message that reaches the client through it is all the same
    sent with the qos of the last SUBSCRIBE (or the qos of the
    publication, when that is smaller). *)
Theorem resubscribed_qos_is_used (c : nat) (mid : Z) (reqs : list request)
    (s : server) (cl : client) (sub : subscription) (f : string)
    (t payload : string) (pub_qos : option Z) :
  conns s !! c = Some cl -> subscriptions cl !! f = Some sub ->
  (forall e cl', In e reqs -> subscriptions cl !! req_topic e = None ->
                 authorizeSubscribe H cl' (req_topic e) = Verdict true) ->
  let s' := on_subscribe H c mid reqs s in
  let h := sub_handler sub in
  exists cl', conns s' !! c = Some cl'
    /\ (sub_handler <$> subscriptions cl' !! f) = Some h
    /\ published_to c (trace (forward c t payload pub_qos f (h_qos h) s'))
       = published_to c (trace s')
         ++ [Packet t payload
               (Z.min (or_default pub_qos 0) (final_qos f reqs (sub_qos sub)))
               (nextId cl')].
Proof.
  intros Hc Hf Hauth s' h.
  destruct (on_subscribe_resubscribed H c mid reqs s cl sub f Hc Hf
              (fun e cl0 He Hn _ => Hauth e cl0 He Hn))
    as ((cl' & Hc' & Hf' & _) & _ & _).
  fold s' in Hc'. exists cl'. split; [exact Hc'|]. split; [now rewrite Hf'|].
  rewrite (forward_effects c t payload pub_qos f (h_qos h) s' cl' Hc').
  unfold forwarded_qos. rewrite Hf'. cbn [sub_qos].
  unfold actualSend. simpl.
  destruct (Z.min _ _ =? 1); simpl;
    rewrite ?published_to_app; simpl; rewrite bool_decide_eq_true_2 by reflexivity;
    simpl; rewrite ?app_nil_r; reflexivity.
Qed.

End forwarding.

Section unsubscribing.
Import Server.
Import Broker.

Lemma bus_unsubscribe_In (r : string * handler) (t : string) (h : handler)
    (b : list (string * handler)) :
  In r (bus_unsubscribe t h b) <-> In r b /\ r <> (t, h).
Proof.
  unfold bus_unsubscribe. rewrite filter_In, negb_true_iff, bool_decide_eq_false.
  reflexivity.
Qed.

(** A loop of [unsubscribeMapTo] over the filters [l]. *)
Lemma unsub_loop (c : nat) (l : list string) :
  forall (s : server) (cl : client),
  conns s !! c = Some cl ->
  let s' := foldl (fun st t => unsubscribeMapTo c t st) s l in
  trace s' = trace s /\ timers s' = timers s /\ clients s' = clients s
  /\ next_timer s' = next_timer s
  /\ conns s' !! c
     = Some (set_subscriptions (fun m => foldl (fun m t => delete t m) m l) cl)
  /\ (forall c0, c0 <> c -> conns s' !! c0 = conns s !! c0)
  /\ (forall r, In r (bus s') <-> In r (bus s) /\ unregistered (subscriptions cl) l r).
Proof.
  induction l as [|a l IH]; intros s cl Hc; simpl.
  - do 4 (split; [reflexivity|]). split; [rewrite Hc; now destruct cl|].
    split; [reflexivity|]. intros r. split; [|tauto].
    intros Hin. split; [exact Hin|]. intros t sub [].
  - set (s1 := unsubscribeMapTo c a s).
    assert (Hc1 : conns s1 !! c = Some (set_subscriptions (delete a) cl)).
    { subst s1. unfold unsubscribeMapTo. rewrite Hc, upd_lookup.
      destruct (subscriptions cl !! a); simpl; now rewrite Hc. }
    assert (Hf1 : trace s1 = trace s /\ timers s1 = timers s /\ clients s1 = clients s
                  /\ next_timer s1 = next_timer s
                  /\ forall c0, c0 <> c -> conns s1 !! c0 = conns s !! c0).
    { subst s1. unfold unsubscribeMapTo. rewrite Hc.
      destruct (subscriptions cl !! a); simpl; repeat split; auto;
        intros c0 Hne; now apply lookup_alter_ne. }
    assert (Hb1 : forall r, In r (bus s1) <->
                    In r (bus s)
                    /\ forall sub, subscriptions cl !! a = Some sub ->
                                   r <> (replace_hash a, sub_handler sub)).
    { intros r. subst s1. unfold unsubscribeMapTo. rewrite Hc.
      destruct (subscriptions cl !! a) as [sub|]; simpl.
      - rewrite bus_unsubscribe_In. split.
        + intros [Hin Hne]. split; [exact Hin|]. intros sub' E. now injection E as <-.
        + intros [Hin Hne]. split; [exact Hin|]. now apply Hne.
      - split; [|tauto]. intros Hin. split; [exact Hin|]. discriminate. }
    destruct Hf1 as (T1 & T2 & T3 & T4 & T5).
    destruct (IH s1 _ Hc1) as (I1 & I2 & I3 & I4 & I5 & I6 & I7).
    rewrite I1, I2, I3, I4, I5.
    split; [exact T1|]. split; [exact T2|]. split; [exact T3|]. split; [exact T4|].
    split; [reflexivity|]. split.
    { intros c0 Hne. rewrite I6 by exact Hne. now apply T5. }
    intros r. rewrite I7, Hb1. unfold unregistered. simpl. split.
    + intros [[Hin Ha] Hl]. split; [exact Hin|].
      intros t sub [<-|Ht] Hsub; [now apply Ha|].
      destruct (decide (a = t)) as [->|Hne]; [now apply Ha|].
      apply Hl; [exact Ht|]. now rewrite lookup_delete_ne.
    + intros [Hin Hall]. split; [split; [exact Hin|]|].
      * intros sub Hsub. apply Hall; auto.
      * intros t sub Ht Hsub. apply lookup_delete_Some in Hsub as [Hne Hsub].
        apply Hall; auto.
Qed.

Lemma foldl_delete_keys `{Countable K} {A : Type} (l : list K) (m : gmap K A) (k : K) :
  foldl (fun m t => delete t m) m l !! k = if bool_decide (k ∈ l) then None else m !! k.
Proof.
  case_bool_decide as Hin; rewrite list_elem_of_In in Hin.
  - apply (foldl_delete_In (fun t : K => t)). now rewrite map_id.
  - apply (foldl_delete_notin (fun t : K => t)). now rewrite map_id.
Qed.

(** X11: an UNSUBSCRIBE is always answered with an UNSUBACK of its
    message id and writes nothing else; afterwards the client has none of
    the filters of the packet subscribed and keeps its other
    subscriptions, the bus has lost the handlers that the client held for
    these filters and no other registration, and a filter that the
    client had not subscribed makes no difference. *)
Theorem unsubscribe_removes_subscriptions (c : nat) (mid : Z)
    (unsubscriptions : list string) (s : server) (cl : client) :
  conns s !! c = Some cl ->
  let r := on_unsubscribe c mid unsubscriptions s in
  snd r = [Unsuback c mid]
  /\ trace (fst r) = trace s
  /\ clients (fst r) = clients s
  /\ (exists cl', conns (fst r) !! c = Some cl'
        /\ stream_ended cl' = stream_ended cl
        /\ forall t, subscriptions cl' !! t
                     = if bool_decide (t ∈ unsubscriptions) then None
                       else subscriptions cl !! t)
  /\ (forall x, In x (bus (fst r)) <->
        In x (bus s) /\ unregistered (subscriptions cl) unsubscriptions x).
Proof.
  intros Hc r. subst r. unfold on_unsubscribe. cbn [fst snd].
  destruct (unsub_loop c unsubscriptions s cl Hc) as (I1 & _ & I3 & _ & I5 & _ & I7).
  split; [reflexivity|]. split; [exact I1|]. split; [exact I3|]. split; [|exact I7].
  eexists. split; [exact I5|]. split; [reflexivity|].
  intros t. simpl. apply foldl_delete_keys.
Qed.

End unsubscribing.

Section closing.
Import Server.
Import Broker.

Lemma cleanup_loop_rest (c : nat) (l : list (Z * nat)) :
  forall (s : server),
  let s' := foldl (fun st kv => upd c (set_inflight (delete (fst kv)))
                                  (clearTimeout (snd kv) st)) s l in
  trace s' = trace s ++ List.map (fun kv => ClearTimeout (snd kv)) l
  /\ bus s' = bus s /\ next_timer s' = next_timer s
  /\ forall c0, c0 <> c -> conns s' !! c0 = conns s !! c0.
Proof.
  induction l as [|a l IH]; intros s; simpl.
  - rewrite app_nil_r. auto.
  - destruct (IH (upd c (set_inflight (delete (fst a))) (clearTimeout (snd a) s)))
      as (H1 & H2 & H3 & H4).
    rewrite H1, H2, H3. simpl. rewrite <- app_assoc.
    split; [reflexivity|]. split; [reflexivity|]. split; [reflexivity|].
    intros c0 Hne. rewrite H4 by exact Hne. simpl. now apply lookup_alter_ne.
Qed.

Lemma cleanup_effects (c : nat) (callback : bool) (s : server) (cl : client) :
  conns s !! c = Some cl ->
  let s' := cleanup c callback s in
  trace s' = trace s ++ cleanup_trace c callback cl
  /\ timers s' = foldl (fun t kv => delete (snd kv) t) (timers s) (map_to_list (inflight cl))
  /\ clients s' = clients s /\ bus s' = bus s /\ next_timer s' = next_timer s
  /\ conns s' !! c
     = Some (set_onclose false (set_listening false (set_inflight (fun _ => ∅) cl)))
  /\ forall c0, c0 <> c -> conns s' !! c0 = conns s !! c0.
Proof.
  intros Hc s'. subst s'. unfold cleanup, cleanup_trace. rewrite Hc.
  destruct (cleanup_loop c (map_to_list (inflight cl)) s) as (A1 & A2 & A3).
  destruct (cleanup_loop_rest c (map_to_list (inflight cl)) s) as (B1 & B2 & B3 & B4).
  rewrite Hc in A1. simpl in A1.
  set (s1 := foldl _ s (map_to_list (inflight cl))) in *.
  assert (Hconn : conns (upd c (fun x => set_onclose false (set_listening false x)) s1) !! c
                  = Some (set_onclose false (set_listening false
                                               (set_inflight (fun _ => ∅) cl)))).
  { rewrite upd_lookup, A1. simpl. unfold set_inflight. simpl.
    now rewrite foldl_delete_all. }
  assert (Hother : forall c0, c0 <> c ->
            conns (upd c (fun x => set_onclose false (set_listening false x)) s1) !! c0
            = conns s !! c0).
  { intros c0 Hne. rewrite upd_lookup_ne by exact Hne. now apply B4. }
  destruct callback; [destruct (will cl)|]; simpl;
    rewrite B1, ?A2, ?A3, ?B2, ?B3, <- ?app_assoc; simpl; auto 10.
Qed.

Lemma closeConn_effects (c : nat) (callback : bool) (s : server) (cl : client) :
  conns s !! c = Some cl ->
  let s' := closeConn c callback s in
  clients s' = unregister cl (clients s) /\ bus s' = bus s
  /\ (forall c0, c0 <> c -> conns s' !! c0 = conns s !! c0)
  /\ if _closed cl
     then trace s' = trace s ++ keepalive_clear cl ++ cleanup_trace c callback cl
          /\ timers s' = foldl (fun t kv => delete (snd kv) t)
                           (without_keepalive cl (timers s)) (map_to_list (inflight cl))
          /\ conns s' !! c
             = Some (set_onclose false (set_listening false
                                          (set_inflight (fun _ => ∅) cl)))
     else trace s' = trace s ++ keepalive_clear cl ++ [StreamEnd c]
          /\ timers s' = without_keepalive cl (timers s)
          /\ conns s' !! c
             = Some (set_stream_ended true
                       (set_end_listeners (fun l => l ++ [callback])
                          (set_onclose false cl))).
Proof.
  intros Hc s'. subst s'. unfold closeConn. rewrite Hc.
  set (s3 := match id cl with
             | Some i => if String.eqb i "" then s
                         else set_clients (delete i)
                                (match timer cl with
                                 | Some h => clearTimeout h s
                                 | None => s
                                 end)
             | None => s
             end).
  assert (H3 : trace s3 = trace s ++ keepalive_clear cl
               /\ clients s3 = unregister cl (clients s)
               /\ timers s3 = without_keepalive cl (timers s)
               /\ conns s3 = conns s /\ bus s3 = bus s).
  { subst s3. unfold keepalive_clear, unregister, without_keepalive, truthy_id.
    destruct (id cl) as [i|]; [destruct (String.eqb i "")|];
      destruct (timer cl); simpl; rewrite ?app_nil_r; auto. }
  destruct H3 as (T3 & R3 & M3 & C3 & B3).
  assert (Hc4 : conns (upd c (set_onclose false) s3) !! c = Some (set_onclose false cl)).
  { rewrite upd_lookup, C3, Hc. reflexivity. }
  destruct (_closed cl) eqn:Hcl.
  - destruct (cleanup_effects c callback _ _ Hc4) as (E1 & E2 & E3 & E4 & _ & E6 & E7).
    rewrite E1, E2, E3, E4, E6. simpl. rewrite T3, R3, M3, B3, <- app_assoc.
    split; [reflexivity|]. split; [reflexivity|]. split.
    + intros c0 Hne. rewrite E7 by exact Hne. rewrite upd_lookup_ne by exact Hne.
      now rewrite C3.
    + auto.
  - unfold stream_end. simpl. rewrite T3, R3, M3, B3, C3, <- app_assoc.
    split; [reflexivity|]. split; [reflexivity|]. split.
    + intros c0 Hne. now rewrite !lookup_alter_ne by auto.
    + rewrite !lookup_alter_eq, Hc. auto.
Qed.

Lemma foldl_fst {A B C : Type} (f : A -> B -> A) (l : list (B * C)) (a : A) :
  foldl (fun st kv => f st (fst kv)) a l = foldl f a (List.map fst l).
Proof. revert a. induction l as [|x l IH]; intros a; simpl; [reflexivity|]. apply IH. Qed.

Lemma foldl_delete_all_keys `{Countable K} {A : Type} (m : gmap K A) :
  foldl (fun m t => delete t m) m (List.map fst (map_to_list m)) = ∅.
Proof. rewrite <- (foldl_fst (fun m t => delete t m)). apply foldl_delete_all. Qed.

(** [unsubAndClose]: every subscription of the client goes, with its
    handler on the bus, and then [closeConn] does its work. *)
Lemma unsubAndClose_effects (c : nat) (callback : bool) (s : server) (cl : client) :
  conns s !! c = Some cl ->
  let s' := unsubAndClose c callback s in
  let gone := set_subscriptions (fun _ => ∅) cl in
  clients s' = unregister cl (clients s)
  /\ (forall c0, c0 <> c -> conns s' !! c0 = conns s !! c0)
  /\ (forall r, In r (bus s') <->
        In r (bus s)
        /\ forall t sub, subscriptions cl !! t = Some sub ->
                         r <> (replace_hash t, sub_handler sub))
  /\ if _closed cl
     then trace s' = trace s ++ keepalive_clear cl ++ cleanup_trace c callback cl
          /\ timers s' = foldl (fun t kv => delete (snd kv) t)
                           (without_keepalive cl (timers s)) (map_to_list (inflight cl))
          /\ conns s' !! c
             = Some (set_onclose false (set_listening false
                                          (set_inflight (fun _ => ∅) gone)))
     else trace s' = trace s ++ keepalive_clear cl ++ [StreamEnd c]
          /\ timers s' = without_keepalive cl (timers s)
          /\ conns s' !! c
             = Some (set_stream_ended true
                       (set_end_listeners (fun l => l ++ [callback])
                          (set_onclose false gone))).
Proof.
  intros Hc s' gone. subst s'. unfold unsubAndClose. rewrite Hc.
  rewrite (foldl_fst (fun st t => unsubscribeMapTo c t st)).
  assert (Hc1 : conns (upd c (set_onclose false) s) !! c = Some (set_onclose false cl))
    by (rewrite upd_lookup, Hc; reflexivity).
  destruct (unsub_loop c (List.map fst (map_to_list (subscriptions cl))) _ _ Hc1)
    as (I1 & I2 & I3 & _ & I5 & I6 & I7).
  set (s2 := foldl _ (upd c (set_onclose false) s) _) in *.
  assert (Hc2 : conns s2 !! c = Some (set_onclose false gone)).
  { rewrite I5. unfold set_subscriptions at 1. simpl.
    now rewrite foldl_delete_all_keys. }
  destruct (closeConn_effects c callback s2 _ Hc2) as (E1 & E2 & E3 & E4).
  rewrite E1, I3. simpl. split; [reflexivity|]. split.
  { intros c0 Hne. rewrite E3, I6 by exact Hne. now apply upd_lookup_ne. }
  split.
  { intros r. rewrite E2, I7. simpl. unfold unregistered. split.
    - intros [Hin Hall]. split; [exact Hin|]. intros t sub Hsub. apply Hall; [|exact Hsub].
      apply in_map_iff. exists (t, sub). split; [reflexivity|].
      now apply list_elem_of_In, elem_of_map_to_list.
    - intros [Hin Hall]. split; [exact Hin|]. intros t sub _ Hsub. now apply Hall. }
  simpl in E4. destruct (_closed cl); rewrite I1, I2 in E4; exact E4.
Qed.

End closing.

Section publishing.
Import Server.
Import Broker.
Variable authorizePublish : client -> string -> string -> verdict.

(** [forward] to the connection [c]: one packet more for [c], the next
    message id one higher, the subscriptions as they were. *)
Lemma forward_self (c : nat) (t payload : string) (pub_qos : option Z)
    (sub_topic : string) (initial_qos : Z) (s : server) (cl : client) :
  conns s !! c = Some cl ->
  let s' := forward c t payload pub_qos sub_topic initial_qos s in
  published_to c (trace s')
  = published_to c (trace s)
    ++ [Packet t payload (forwarded_qos cl pub_qos sub_topic initial_qos) (nextId cl)]
  /\ bus s' = bus s /\ clients s' = clients s
  /\ exists cl', conns s' !! c = Some cl'
       /\ subscriptions cl' = subscriptions cl /\ nextId cl' = nextId cl + 1.
Proof.
  intros Hc s'. subst s'. rewrite (forward_effects c t payload _ _ _ s cl Hc).
  unfold actualSend. simpl.
  destruct (forwarded_qos cl pub_qos sub_topic initial_qos =? 1); simpl;
    rewrite ?published_to_app; simpl; rewrite bool_decide_eq_true_2 by reflexivity;
    simpl; rewrite ?app_nil_r, ?lookup_alter_eq, Hc; simpl;
    (split; [reflexivity|]); (split; [reflexivity|]); (split; [reflexivity|]);
    eexists; (split; [reflexivity|]); auto.
Qed.

(** [forward] to another connection leaves [c] alone. *)
Lemma forward_other (c c' : nat) (t payload : string) (pub_qos : option Z)
    (sub_topic : string) (initial_qos : Z) (s : server) :
  c' <> c ->
  let s' := forward c' t payload pub_qos sub_topic initial_qos s in
  published_to c (trace s') = published_to c (trace s)
  /\ bus s' = bus s /\ clients s' = clients s
  /\ conns s' !! c = conns s !! c.
Proof.
  intros Hne s'. subst s'. destruct (conns s !! c') as [cl'|] eqn:Hc'.
  2:{ unfold forward. rewrite Hc'. auto. }
  rewrite (forward_effects c' t payload _ _ _ s cl' Hc').
  unfold actualSend. simpl.
  destruct (forwarded_qos cl' pub_qos sub_topic initial_qos =? 1); simpl;
    rewrite ?published_to_app; simpl; rewrite bool_decide_eq_false_2 by exact Hne;
    simpl; rewrite ?app_nil_r, ?lookup_alter_ne by exact Hne; auto.
Qed.

Lemma forwarded_qos_ext (cl cl' : client) (pub_qos : option Z) (sub_topic : string)
    (initial_qos : Z) :
  subscriptions cl' = subscriptions cl ->
  forwarded_qos cl' pub_qos sub_topic initial_qos
  = forwarded_qos cl pub_qos sub_topic initial_qos.
Proof. intros E. unfold forwarded_qos. now rewrite E. Qed.

Lemma deliveries_ext (c : nat) (cl cl' : client) (t payload : string)
    (q : option Z) (hs : list handler) :
  subscriptions cl' = subscriptions cl ->
  forall n, deliveries c cl' t payload q n hs = deliveries c cl t payload q n hs.
Proof.
  intros E. induction hs as [|h hs IH]; intros n; simpl; [reflexivity|].
  rewrite (forwarded_qos_ext cl cl' _ _ _ E), !IH. reflexivity.
Qed.

Lemma registered_bus (h : handler) (s s' : server) :
  bus s' = bus s -> registered h s' = registered h s.
Proof. intros E. unfold registered. now rewrite E. Qed.

(** The calls that the bus makes of the handlers [hs], one after the
    other. *)
Lemma bus_calls (H : hooks) (c : nat) (t payload : string) (q : option Z)
    (hs : list handler) :
  forall (s : server) (cl : client),
  conns s !! c = Some cl ->
  (forall h, In h hs -> registered h s = true) ->
  let s' := run H s (List.map (fun h => Deliver h t payload q) hs) in
  published_to c (trace s')
  = published_to c (trace s) ++ deliveries c cl t payload q (nextId cl) hs
  /\ bus s' = bus s /\ clients s' = clients s.
Proof.
  induction hs as [|h hs IH]; intros s cl Hc Hreg; simpl.
  - rewrite app_nil_r. auto.
  - rewrite (Hreg h) by now left.
    case_bool_decide as Hh.
    + destruct (forward_self (h_conn h) t payload q (h_topic h) (h_qos h) s cl)
        as (F1 & F2 & F3 & cl' & Hc' & Hs' & Hn'); [now rewrite Hh|].
      rewrite Hh in *.
      destruct (IH _ cl' Hc') as (I1 & I2 & I3).
      { intros h0 Hin. rewrite (registered_bus h0 s _ F2). apply Hreg. now right. }
      rewrite I1, I2, I3, F1, F2, F3, Hn', (deliveries_ext c cl cl' _ _ _ _ Hs').
      rewrite <- app_assoc. auto.
    + destruct (forward_other c (h_conn h) t payload q (h_topic h) (h_qos h) s Hh)
        as (F1 & F2 & F3 & F4).
      destruct (IH (forward (h_conn h) t payload q (h_topic h) (h_qos h) s) cl)
        as (I1 & I2 & I3); [now rewrite F4| |].
      { intros h0 Hin. rewrite (registered_bus h0 s _ F2). apply Hreg. now right. }
      rewrite I1, I2, I3, F1, F2, F3. auto.
Qed.

(** X12: a PUBLISH that [authorizePublish] allows is handed to the bus
    with its topic, its payload and its qos and changes nothing in the
    server; the publisher gets a PUBACK with the message id of the
    packet when the qos is 1 and no answer otherwise (also for a qos of
    2), and [published] is emitted.  Whichever registered handlers the
    bus then calls for the message, and in whichever order, every
    connection is written one PUBLISH for each call of a handler of its
    own, in the order of the calls, with message ids that follow each
    other and the smaller of the qos of the publication and of its
    subscription; the registry and the bus stay as they are. *)
Theorem bus_calls_are_forwarded (H : hooks) (c : nat) (pkt : packet) (s : server)
    (cl : client) (hs : list handler) :
  conns s !! c = Some cl ->
  authorizePublish cl (topic pkt) (payload pkt) = Verdict true ->
  (forall h, In h hs -> registered h s = true) ->
  let r := on_publish authorizePublish c pkt s in
  let s' := run H (fst r)
              (List.map (fun h => Deliver h (topic pkt) (payload pkt) (Some (qos pkt))) hs) in
  fst r = s
  /\ snd r = BusPublish (topic pkt) (payload pkt) (qos pkt)
             :: (if qos pkt =? 1 then [Puback c (messageId pkt)] else [])
             ++ [Published pkt c]
  /\ bus s' = bus s /\ clients s' = clients s
  /\ forall c' cl', conns s !! c' = Some cl' ->
       published_to c' (trace s')
       = published_to c' (trace s)
         ++ deliveries c' cl' (topic pkt) (payload pkt) (Some (qos pkt)) (nextId cl') hs.
Proof.
  intros Hc Hauth Hreg r s'. subst s' r. unfold on_publish. rewrite Hc, Hauth.
  cbn [fst snd]. split; [reflexivity|]. split; [reflexivity|].
  destruct (bus_calls H c (topic pkt) (payload pkt) (Some (qos pkt)) hs s cl Hc Hreg)
    as (_ & B & R).
  split; [exact B|]. split; [exact R|].
  intros c' cl' Hc'.
  exact (proj1 (bus_calls H c' (topic pkt) (payload pkt) (Some (qos pkt)) hs s cl' Hc'
                  Hreg)).
Qed.


End publishing.

Section will_effects.
Import Server.

Lemma wills_of_app (c : nat) (l1 l2 : list effect) :
  wills_of c (l1 ++ l2) = wills_of c l1 ++ wills_of c l2.
Proof. unfold wills_of. apply omap_app. Qed.

Lemma wills_of_clear (c : nat) (l : list (Z * nat)) :
  wills_of c (List.map (fun kv => ClearTimeout (snd kv)) l) = [].
Proof. induction l; simpl; auto. Qed.

Lemma wills_of_keepalive_clear (c : nat) (cl : client) :
  wills_of c (keepalive_clear cl) = [].
Proof. unfold keepalive_clear. now destruct (truthy_id cl), (timer cl). Qed.

Lemma wills_of_cleanup_trace (c : nat) (cl : client) :
  wills_of c (cleanup_trace c false cl) = [].
Proof. unfold cleanup_trace. now rewrite wills_of_app, wills_of_clear. Qed.

End will_effects.

Section wills.
Import Server.
Import Broker.



End wills.

(** ** One keepalive timer for a connection *)

Section keepalive.
Import Server.
Import Broker.
Variable H : hooks.
Variable authorizePublish : client -> string -> string -> verdict.

Lemma keep_same (s s' : server) :
  timers s' = timers s -> conns s' = conns s -> next_conn s' = next_conn s ->
  one_keepalive s -> one_keepalive s'.
Proof. intros Ht Hc Hn [K1 K2]. split; rewrite ?Ht, ?Hc, ?Hn; assumption. Qed.

Lemma keep_emit (e : effect) (s : server) : one_keepalive s -> one_keepalive (emit e s).
Proof. now apply keep_same. Qed.

Lemma keep_set_bus f (s : server) : one_keepalive s -> one_keepalive (set_bus f s).
Proof. now apply keep_same. Qed.

Lemma keep_set_clients f (s : server) : one_keepalive s -> one_keepalive (set_clients f s).
Proof. now apply keep_same. Qed.

Lemma keep_set_next_handler n (s : server) :
  one_keepalive s -> one_keepalive (set_next_handler n s).
Proof. now apply keep_same. Qed.

Lemma keep_upd (c : nat) (f : client -> client) (s : server) :
  (forall cl, timer (f cl) = timer cl) -> one_keepalive s -> one_keepalive (upd c f s).
Proof.
  intros Hf [K1 K2]. split; simpl.
  - intros h c0 d Hh. destruct (K1 h c0 d Hh) as (cl & Hc & Ht).
    destruct (decide (c = c0)) as [->|Hne].
    + exists (f cl). rewrite lookup_alter_eq, Hc. split; [reflexivity|]. now rewrite Hf.
    + exists cl. now rewrite lookup_alter_ne.
  - intros c0 Hc0. destruct (decide (c = c0)) as [->|Hne].
    + now rewrite lookup_alter_eq, (K2 c0 Hc0).
    + rewrite lookup_alter_ne by exact Hne. now apply K2.
Qed.

Lemma keep_delete_timer (h : nat) (s : server) :
  one_keepalive s -> one_keepalive (set_timers (delete h) s).
Proof.
  intros [K1 K2]. split; [|exact K2]. simpl. intros h' c d Hh.
  apply lookup_delete_Some in Hh as [_ Hh]. eauto.
Qed.

Lemma keep_clearTimeout (h : nat) (s : server) :
  one_keepalive s -> one_keepalive (clearTimeout h s).
Proof. intros K. unfold clearTimeout. now apply keep_emit, keep_delete_timer. Qed.

Lemma keep_resend (c : nat) (pkt : packet) (r d : Z) (s : server) :
  one_keepalive s -> one_keepalive (snd (setTimeout (Resend c pkt r) d s)).
Proof.
  intros [K1 K2]. split; [|exact K2]. simpl. intros h' c0 d0 Hh.
  apply lookup_insert_Some in Hh as [[_ Hh]|[_ Hh]]; [discriminate|eauto].
Qed.

Lemma keep_foldl {A : Type} (f : server -> A -> server) (l : list A) :
  (forall s a, one_keepalive s -> one_keepalive (f s a)) ->
  forall s, one_keepalive s -> one_keepalive (foldl f s l).
Proof.
  intros Hstep. induction l as [|a l IH]; intros s Hs; simpl; auto.
Qed.

Create HintDb keepalive.

#[local] Hint Resolve keep_emit keep_set_bus keep_set_clients keep_set_next_handler
  keep_upd keep_delete_timer keep_clearTimeout : keepalive.

#[local] Hint Extern 1 (forall cl : client, timer _ = timer cl) =>
  intros; reflexivity : keepalive.

Ltac keep_cases :=
  repeat match goal with
         | |- one_keepalive _ => solve [auto 8 with keepalive]
         | |- one_keepalive (foldl _ _ _) => apply keep_foldl; [intros ? ? ?|]
         | |- one_keepalive (_ _ (foldl _ _ _)) => apply keep_emit || apply keep_upd
         | |- context [match ?x with _ => _ end] => destruct x
         end.

Lemma keep_stream_end (c : nat) (s : server) :
  one_keepalive s -> one_keepalive (stream_end c s).
Proof. intros K. unfold stream_end. keep_cases. Qed.

#[local] Hint Resolve keep_stream_end : keepalive.

(** [setUpTimer] clears the keepalive timer that the client holds
    before it sets the new one. *)
Lemma keep_setUpTimer (c : nat) (s : server) :
  one_keepalive s -> one_keepalive (setUpTimer c s).
Proof.
  intros [K1 K2]. unfold setUpTimer.
  destruct (conns s !! c) as [cl|] eqn:Hc; [|now split].
  set (s1 := match timer cl with Some h => clearTimeout h s | None => s end).
  assert (Hs1 : conns s1 = conns s /\ next_conn s1 = next_conn s
                 /\ forall h c0 d, timers s1 !! h = Some (KeepaliveTimeout c0, d) ->
                      c0 <> c /\ timers s !! h = Some (KeepaliveTimeout c0, d)).
  { subst s1. destruct (timer cl) as [h0|] eqn:Ht; simpl.
    - split; [reflexivity|]. split; [reflexivity|]. intros h c0 d Hh.
      apply lookup_delete_Some in Hh as [Hne Hh]. split; [|exact Hh].
      intros ->. destruct (K1 h c d Hh) as (cl' & Hc' & Ht'). congruence.
    - split; [reflexivity|]. split; [reflexivity|]. intros h c0 d Hh.
      split; [|exact Hh].
      intros ->. destruct (K1 h c d Hh) as (cl' & Hc' & Ht'). congruence. }
  destruct Hs1 as (C1 & N1 & T1).
  change (one_keepalive
            (upd c (set_timer (Some (next_timer s1)))
               (snd (setTimeout (KeepaliveTimeout c) (keepalive cl * 1000 * 5 / 4) s1)))).
  split; simpl.
  - intros h c0 d Hh. apply lookup_insert_Some in Hh as [[<- Heq]|[Hne Hh]].
    + injection Heq as <- _. rewrite lookup_alter_eq, C1, Hc. simpl. eauto.
    + destruct (T1 h c0 d Hh) as [Hc0 Hold].
      rewrite lookup_alter_ne, C1 by auto. eauto.
  - intros c0 Hc0. rewrite N1 in Hc0. destruct (decide (c = c0)) as [->|Hne].
    + now rewrite lookup_alter_eq, C1, (K2 c0 Hc0).
    + rewrite lookup_alter_ne, C1 by exact Hne. now apply K2.
Qed.

Lemma keep_emit_error (c : nat) (m : string) (s : server) :
  one_keepalive s -> one_keepalive (emit_error c m s).
Proof. intros K. unfold emit_error. keep_cases. Qed.

Lemma keep_actualSend (c : nat) (pkt : packet) (r : Z) (s : server) :
  one_keepalive s -> one_keepalive (actualSend c pkt r s).
Proof.
  intros K. unfold actualSend.
  destruct (r =? 10); [now apply keep_emit_error|].
  destruct (qos pkt =? 1); [|auto with keepalive].
  change (one_keepalive
            (upd c (set_inflight (insert (messageId pkt) (next_timer s)))
               (snd (setTimeout (Resend c pkt r) (baseRetryTimeout s * 2 ^ r)
                       (emit (Publish c pkt) s))))).
  apply keep_upd; [reflexivity|]. apply keep_resend. auto with keepalive.
Qed.

#[local] Hint Resolve keep_setUpTimer keep_emit_error keep_actualSend : keepalive.

Lemma keep_forward (c : nat) (t p : string) (q : option Z) (st : string) (iq : Z)
    (s : server) :
  one_keepalive s -> one_keepalive (forward c t p q st iq s).
Proof. intros K. unfold forward. keep_cases. Qed.

Lemma keep_unsubscribeMapTo (c : nat) (t : string) (s : server) :
  one_keepalive s -> one_keepalive (unsubscribeMapTo c t s).
Proof. intros K. unfold unsubscribeMapTo. keep_cases. Qed.

#[local] Hint Resolve keep_forward keep_unsubscribeMapTo : keepalive.

Lemma keep_cleanup (c : nat) (callback : bool) (s : server) :
  one_keepalive s -> one_keepalive (cleanup c callback s).
Proof.
  intros K. unfold cleanup.
  destruct (conns s !! c) as [cl|]; [|exact K]. cbv zeta.
  assert (Hloop : one_keepalive
                    (foldl (fun st kv => upd c (set_inflight (delete (fst kv)))
                                           (clearTimeout (snd kv) st))
                       s (map_to_list (inflight cl))))
    by (apply keep_foldl; auto with keepalive).
  destruct callback; [destruct (will cl)|]; auto 8 with keepalive.
Qed.

#[local] Hint Resolve keep_cleanup : keepalive.

Lemma keep_closeConn (c : nat) (callback : bool) (s : server) :
  one_keepalive s -> one_keepalive (closeConn c callback s).
Proof. intros K. unfold closeConn. keep_cases. Qed.

#[local] Hint Resolve keep_closeConn : keepalive.

Lemma keep_unsubAndClose (c : nat) (callback : bool) (s : server) :
  one_keepalive s -> one_keepalive (unsubAndClose c callback s).
Proof.
  intros K. unfold unsubAndClose.
  destruct (conns s !! c) as [cl|]; [|exact K].
  apply keep_closeConn, keep_foldl; auto with keepalive.
Qed.

#[local] Hint Resolve keep_unsubAndClose : keepalive.

Lemma keep_subscribe_task (c : nat) (acc : server * bool) (e : request) :
  one_keepalive (fst acc) -> one_keepalive (fst (subscribe_task H c acc e)).
Proof.
  destruct acc as [s failed]. simpl. intros K.
  destruct (conns s !! c) as [cl|]; [|exact K].
  destruct (authorizeSubscribe H cl (req_topic e)) as [|[|]];
    try (destruct failed; simpl; auto with keepalive).
Qed.

Lemma keep_on_subscribe (c : nat) (mid : Z) (reqs : list request) (s : server) :
  one_keepalive s -> one_keepalive (on_subscribe H c mid reqs s).
Proof.
  intros K. unfold on_subscribe. cbv zeta.
  destruct (conns _ !! c) as [cl|]; [|exact K].
  set (subs := List.filter _ _).
  assert (Hfold : forall l acc, one_keepalive (fst acc) ->
                    one_keepalive (fst (foldl (subscribe_task H c) acc l))).
  { induction l as [|a l IH]; intros acc Ha; simpl; [exact Ha|].
    now apply IH, keep_subscribe_task. }
  specialize (Hfold subs (foldl (regrant c) s (List.map downgrade reqs), false)).
  destruct (foldl (subscribe_task H c) _ subs) as [s2 failed]. simpl in Hfold.
  assert (Hs2 : one_keepalive s2).
  { apply Hfold, keep_foldl; [|exact K]. intros. unfold regrant. auto with keepalive. }
  destruct failed; auto with keepalive.
Qed.

Lemma keep_serve (r : random) (s : server) :
  one_keepalive s -> one_keepalive (snd (serve r s)).
Proof.
  intros [K1 K2]. split; simpl.
  - intros h c d Hh. destruct (K1 h c d Hh) as (cl & Hc & Ht).
    destruct (decide (next_conn s = c)) as [<-|Hne].
    + rewrite K2 in Hc by lia. discriminate.
    + exists cl. now rewrite lookup_insert_ne.
  - intros c Hc. rewrite lookup_insert_ne by lia. apply K2. lia.
Qed.

Lemma keep_step (s : server) (e : event) : one_keepalive s -> one_keepalive (step H s e).
Proof.
  intros K. destruct e; simpl.
  - now apply keep_serve.
  - destruct (is_listening c s); [|exact K]. unfold on_connect.
    destruct (conns _ !! c) as [cl|]; [|exact K].
    destruct (authenticate H cl _ _) as [|[|]]; auto 10 with keepalive.
  - destruct (is_listening c s); [|exact K]. unfold on_puback. keep_cases.
  - destruct (is_listening c s); [|exact K]. now apply keep_on_subscribe.
  - destruct (is_listening c s); auto with keepalive.
  - destruct (is_listening c s); [|exact K]. unfold on_close. keep_cases.
  - unfold on_stream_end. keep_cases.
  - destruct (registered h s); auto with keepalive.
  - unfold on_timer. destruct (timers s !! h) as [[[c pkt r|c] d]|]; auto with keepalive.
Qed.

Lemma keep_handle (acc : server * list reply) (a : arrival) :
  one_keepalive (fst acc) -> one_keepalive (fst (handle H authorizePublish acc a)).
Proof.
  destruct acc as [s out]. simpl. intros K. destruct a as [e|c pkt|c mid l|c]; simpl.
  - now apply keep_step.
  - destruct (is_listening c s); [|exact K]. simpl. unfold on_publish.
    destruct (conns s !! c) as [cl|]; [|exact K].
    destruct (authorizePublish cl (topic pkt) (payload pkt)) as [|[|]]; simpl;
      auto with keepalive.
  - destruct (is_listening c s); [|exact K]. simpl.
    apply keep_foldl; auto with keepalive.
  - destruct (is_listening c s); [|exact K]. simpl. now apply keep_setUpTimer.
Qed.


End keepalive.

(** ** No will after DISCONNECT *)

Section disconnect.
Import Server.
Import Broker.
Variable H : hooks.
Variable authorizePublish : client -> string -> string -> verdict.

Lemma unsub_loop_closed (c : nat) (cl : client) (s : server) :
  conns s !! c = Some cl ->
  exists cl', conns (foldl (fun st kv => unsubscribeMapTo c (fst kv) st) s
                       (map_to_list (subscriptions cl))) !! c = Some cl'
              /\ _closed cl' = _closed cl /\ onclose cl' = onclose cl
              /\ end_listeners cl' = end_listeners cl.
Proof.
  intros Hc. rewrite (foldl_fst (fun st t => unsubscribeMapTo c t st)).
  destruct (unsub_loop c (List.map fst (map_to_list (subscriptions cl))) s cl Hc)
    as (_ & _ & _ & _ & Hc' & _).
  eexists. split; [exact Hc'|]. now destruct cl.
Qed.

(** *** [tidy] is kept *)

Lemma tidy_same (s s' : server) : conns s' = conns s -> tidy s -> tidy s'.
Proof. intros Hc T c cl. rewrite Hc. apply T. Qed.

Lemma tidy_emit (e : effect) (s : server) : tidy s -> tidy (emit e s).
Proof. now apply tidy_same. Qed.

Lemma tidy_set_bus f (s : server) : tidy s -> tidy (set_bus f s).
Proof. now apply tidy_same. Qed.

Lemma tidy_set_clients f (s : server) : tidy s -> tidy (set_clients f s).
Proof. now apply tidy_same. Qed.

Lemma tidy_set_next_handler n (s : server) : tidy s -> tidy (set_next_handler n s).
Proof. now apply tidy_same. Qed.

Lemma tidy_set_timers f (s : server) : tidy s -> tidy (set_timers f s).
Proof. now apply tidy_same. Qed.

Lemma tidy_clearTimeout (h : nat) (s : server) : tidy s -> tidy (clearTimeout h s).
Proof. now apply tidy_same. Qed.

Lemma tidy_setTimeout (cb : callback) (d : Z) (s : server) :
  tidy s -> tidy (snd (setTimeout cb d s)).
Proof. now apply tidy_same. Qed.

Lemma tidy_upd (c : nat) (f : client -> client) (s : server) :
  (forall cl, Forall (fun b => b = false) (end_listeners cl) ->
              Forall (fun b => b = false) (end_listeners (f cl))) ->
  tidy s -> tidy (upd c f s).
Proof.
  intros Hf T c0 cl0. simpl. destruct (decide (c = c0)) as [->|Hne].
  - rewrite lookup_alter_eq. destruct (conns s !! c0) as [cl|] eqn:Hc; [|discriminate].
    simpl. intros [= <-]. apply Hf, (T c0 cl Hc).
  - rewrite lookup_alter_ne by exact Hne. apply T.
Qed.

Lemma tidy_foldl {A : Type} (f : server -> A -> server) (l : list A) :
  (forall s a, tidy s -> tidy (f s a)) ->
  forall s, tidy s -> tidy (foldl f s l).
Proof.
  intros Hstep. induction l as [|a l IH]; intros s Hs; simpl; auto.
Qed.

Create HintDb tidy.

#[local] Hint Resolve tidy_emit tidy_set_bus tidy_set_clients tidy_set_next_handler
  tidy_set_timers tidy_clearTimeout tidy_setTimeout tidy_upd : tidy.

#[local] Hint Extern 1 (forall cl : client, Forall _ (end_listeners cl) -> Forall _ _) =>
  intros ? ?; simpl; first [assumption | constructor
                            | apply Forall_app_2; [assumption|repeat constructor]]
  : tidy.

Ltac tidy_cases :=
  repeat match goal with
         | |- tidy _ => solve [auto 8 with tidy]
         | |- tidy (foldl _ _ _) => apply tidy_foldl; [intros ? ? ?|]
         | |- tidy (_ _ (foldl _ _ _)) => apply tidy_emit || apply tidy_upd
         | |- context [match ?x with _ => _ end] => destruct x
         end.

Lemma tidy_stream_end (c : nat) (s : server) : tidy s -> tidy (stream_end c s).
Proof. intros T. unfold stream_end. tidy_cases. Qed.

#[local] Hint Resolve tidy_stream_end : tidy.

Lemma tidy_setUpTimer (c : nat) (s : server) : tidy s -> tidy (setUpTimer c s).
Proof.
  intros T. unfold setUpTimer.
  destruct (conns s !! c) as [cl|]; [|exact T].
  change (tidy (upd c (set_timer (Some (next_timer (match timer cl with
                                                     | Some h => clearTimeout h s
                                                     | None => s
                                                     end))))
                  (snd (setTimeout (KeepaliveTimeout c) (keepalive cl * 1000 * 5 / 4)
                          (match timer cl with
                           | Some h => clearTimeout h s
                           | None => s
                           end))))).
  destruct (timer cl); auto with tidy.
Qed.

Lemma tidy_emit_error (c : nat) (m : string) (s : server) :
  tidy s -> tidy (emit_error c m s).
Proof. intros T. unfold emit_error. tidy_cases. Qed.

Lemma tidy_actualSend (c : nat) (pkt : packet) (r : Z) (s : server) :
  tidy s -> tidy (actualSend c pkt r s).
Proof.
  intros T. unfold actualSend.
  destruct (r =? 10); [now apply tidy_emit_error|].
  destruct (qos pkt =? 1); [|auto with tidy].
  change (tidy (upd c (set_inflight (insert (messageId pkt) (next_timer s)))
                  (snd (setTimeout (Resend c pkt r) (baseRetryTimeout s * 2 ^ r)
                          (emit (Publish c pkt) s))))).
  auto with tidy.
Qed.

#[local] Hint Resolve tidy_setUpTimer tidy_emit_error tidy_actualSend : tidy.

Lemma tidy_forward (c : nat) (t p : string) (q : option Z) (st : string) (iq : Z)
    (s : server) :
  tidy s -> tidy (forward c t p q st iq s).
Proof. intros T. unfold forward. tidy_cases. Qed.

Lemma tidy_unsubscribeMapTo (c : nat) (t : string) (s : server) :
  tidy s -> tidy (unsubscribeMapTo c t s).
Proof. intros T. unfold unsubscribeMapTo. tidy_cases. Qed.

#[local] Hint Resolve tidy_forward tidy_unsubscribeMapTo : tidy.

Lemma tidy_cleanup (c : nat) (callback : bool) (s : server) :
  tidy s -> tidy (cleanup c callback s).
Proof.
  intros T. unfold cleanup.
  destruct (conns s !! c) as [cl|]; [|exact T]. cbv zeta.
  assert (Hloop : tidy (foldl (fun st kv => upd c (set_inflight (delete (fst kv)))
                                              (clearTimeout (snd kv) st))
                          s (map_to_list (inflight cl))))
    by (apply tidy_foldl; auto with tidy).
  destruct callback; [destruct (will cl)|]; auto 8 with tidy.
Qed.

#[local] Hint Resolve tidy_cleanup : tidy.

(** [closeConn] leaves the callback of [_onclose] to the end of the
    stream only when the stream has not closed; [_onclose] runs when it
    has. *)
Lemma tidy_closeConn (c : nat) (callback : bool) (s : server) :
  (callback = true -> forall cl, conns s !! c = Some cl -> _closed cl = true) ->
  tidy s -> tidy (closeConn c callback s).
Proof.
  intros Hcb T. unfold closeConn.
  destruct (conns s !! c) as [cl|] eqn:Hc; [|exact T]. cbv zeta.
  set (s1 := match id cl with
             | Some i => if String.eqb i "" then s
                         else set_clients (delete i)
                                (match timer cl with
                                 | Some h => clearTimeout h s
                                 | None => s
                                 end)
             | None => s
             end).
  assert (T1 : tidy s1).
  { subst s1. destruct (id cl) as [i|]; [|exact T].
    destruct (String.eqb i ""); [exact T|]. destruct (timer cl); auto with tidy. }
  destruct (_closed cl) eqn:Hclosed; [auto with tidy|].
  apply tidy_stream_end, tidy_upd; [|auto with tidy].
  intros cl0 H0. simpl. apply Forall_app_2; [exact H0|].
  constructor; [|constructor]. destruct callback; [|reflexivity].
  specialize (Hcb eq_refl cl eq_refl). congruence.
Qed.

Lemma tidy_unsubAndClose (c : nat) (callback : bool) (s : server) :
  (callback = true -> forall cl, conns s !! c = Some cl -> _closed cl = true) ->
  tidy s -> tidy (unsubAndClose c callback s).
Proof.
  intros Hcb T. unfold unsubAndClose.
  destruct (conns s !! c) as [cl|] eqn:Hc; [|exact T]. cbv zeta.
  assert (Hc1 : conns (upd c (set_onclose false) s) !! c = Some (set_onclose false cl))
    by (rewrite upd_lookup, Hc; reflexivity).
  destruct (unsub_loop_closed c (set_onclose false cl) _ Hc1) as (cl' & Hc' & Hcl & _).
  apply tidy_closeConn.
  - intros Htrue cl2 Hc2. simpl in Hc'. rewrite Hc' in Hc2. injection Hc2 as <-.
    rewrite Hcl. simpl. now apply Hcb.
  - apply tidy_foldl; auto with tidy.
Qed.

Lemma tidy_subscribe_task (c : nat) (acc : server * bool) (e : request) :
  tidy (fst acc) -> tidy (fst (subscribe_task H c acc e)).
Proof.
  destruct acc as [s failed]. simpl. intros T.
  destruct (conns s !! c) as [cl|]; [|exact T].
  destruct (authorizeSubscribe H cl (req_topic e)) as [|[|]];
    try (destruct failed; simpl; auto with tidy);
    now apply tidy_unsubAndClose.
Qed.

Lemma tidy_on_subscribe (c : nat) (mid : Z) (reqs : list request) (s : server) :
  tidy s -> tidy (on_subscribe H c mid reqs s).
Proof.
  intros T. unfold on_subscribe. cbv zeta.
  destruct (conns _ !! c) as [cl|]; [|exact T].
  set (subs := List.filter _ _).
  assert (Hfold : forall l acc, tidy (fst acc) ->
                    tidy (fst (foldl (subscribe_task H c) acc l))).
  { induction l as [|a l IH]; intros acc Ha; simpl; [exact Ha|].
    now apply IH, tidy_subscribe_task. }
  specialize (Hfold subs (foldl (regrant c) s (List.map downgrade reqs), false)).
  destruct (foldl (subscribe_task H c) _ subs) as [s2 failed]. simpl in Hfold.
  assert (Hs2 : tidy s2).
  { apply Hfold, tidy_foldl; [|exact T]. intros. unfold regrant. auto with tidy. }
  destruct failed; auto with tidy.
Qed.

Lemma tidy_step (s : server) (e : event) : tidy s -> tidy (step H s e).
Proof.
  intros T. destruct e; simpl.
  - intros c cl. simpl. destruct (decide (next_conn s = c)) as [->|Hne].
    + rewrite lookup_insert_eq. intros [= <-]. constructor.
    + rewrite lookup_insert_ne by exact Hne. apply T.
  - destruct (is_listening c s); [|exact T]. unfold on_connect.
    destruct (conns _ !! c) as [cl|]; [|exact T].
    destruct (authenticate H cl _ _) as [|[|]]; auto 10 with tidy.
  - destruct (is_listening c s); [|exact T]. unfold on_puback. tidy_cases.
  - destruct (is_listening c s); [|exact T]. now apply tidy_on_subscribe.
  - destruct (is_listening c s); [|exact T]. now apply tidy_unsubAndClose.
  - destruct (is_listening c s); [|exact T]. unfold on_close.
    destruct (conns s !! c) as [cl|] eqn:Hc; [|exact T]. cbv zeta.
    destruct (onclose cl); [|auto with tidy].
    apply tidy_unsubAndClose; [|auto with tidy].
    intros _ cl1. rewrite upd_lookup, Hc. simpl. now intros [= <-].
  - unfold on_stream_end. tidy_cases.
  - destruct (registered h s); auto with tidy.
  - unfold on_timer. destruct (timers s !! h) as [[[c pkt r|c] d]|]; auto with tidy.
    now apply tidy_closeConn; auto with tidy.
Qed.

Lemma tidy_handle (acc : server * list reply) (a : arrival) :
  tidy (fst acc) -> tidy (fst (handle H authorizePublish acc a)).
Proof.
  destruct acc as [s out]. simpl. intros T. destruct a as [e|c pkt|c mid l|c]; simpl.
  - now apply tidy_step.
  - destruct (is_listening c s); [|exact T]. simpl. unfold on_publish.
    destruct (conns s !! c) as [cl|]; [|exact T].
    destruct (authorizePublish cl (topic pkt) (payload pkt)) as [|[|]]; simpl;
      try (now apply tidy_unsubAndClose).
    exact T.
  - destruct (is_listening c s); [|exact T]. simpl.
    apply tidy_foldl; auto with tidy.
  - destruct (is_listening c s); [|exact T]. simpl. now apply tidy_setUpTimer.
Qed.

(** *** No will of a connection that is [quiet] *)

Lemma still_same (c : nat) (ws : list will_packet) (s s' : server) :
  conns s' = conns s -> trace s' = trace s -> still c ws s -> still c ws s'.
Proof. intros Hc Ht [Q W]. split; [unfold quiet|]; now rewrite ?Hc, ?Ht. Qed.

Lemma still_emit (c : nat) (ws : list will_packet) (e : effect) (s : server) :
  match e with WillPublished c' _ => c' <> c | _ => True end ->
  still c ws s -> still c ws (emit e s).
Proof.
  intros He [Q W]. split; [exact Q|]. simpl. rewrite wills_of_app, W.
  destruct e; simpl; try apply app_nil_r.
  rewrite bool_decide_eq_false_2 by exact He. apply app_nil_r.
Qed.

Lemma still_set_bus c ws f (s : server) : still c ws s -> still c ws (set_bus f s).
Proof. now apply still_same. Qed.

Lemma still_set_clients c ws f (s : server) :
  still c ws s -> still c ws (set_clients f s).
Proof. now apply still_same. Qed.

Lemma still_set_next_handler c ws n (s : server) :
  still c ws s -> still c ws (set_next_handler n s).
Proof. now apply still_same. Qed.

Lemma still_set_timers c ws f (s : server) :
  still c ws s -> still c ws (set_timers f s).
Proof. now apply still_same. Qed.

Lemma still_clearTimeout c ws (h : nat) (s : server) :
  still c ws s -> still c ws (clearTimeout h s).
Proof. intros St. unfold clearTimeout. apply still_emit; [exact I|]. now apply still_same with s. Qed.

Lemma still_setTimeout c ws (cb : callback) (d : Z) (s : server) :
  still c ws s -> still c ws (snd (setTimeout cb d s)).
Proof. intros St. simpl. apply still_emit; [exact I|]. now apply still_same with s. Qed.

Lemma still_upd (c : nat) (ws : list will_packet) (c' : nat) (f : client -> client)
    (s : server) :
  (c' = c -> forall cl, onclose cl = false ->
     Forall (fun b => b = false) (end_listeners cl) ->
     onclose (f cl) = false /\ Forall (fun b => b = false) (end_listeners (f cl))) ->
  still c ws s -> still c ws (upd c' f s).
Proof.
  intros Hf [(cl & Hc & Ho & He) W]. split; [|exact W].
  unfold quiet. simpl. destruct (decide (c' = c)) as [->|Hne].
  - exists (f cl). rewrite lookup_alter_eq, Hc. split; [reflexivity|].
    now apply Hf.
  - exists cl. now rewrite lookup_alter_ne.
Qed.

Lemma still_foldl {A : Type} (c : nat) (ws : list will_packet)
    (f : server -> A -> server) (l : list A) :
  (forall s a, In a l -> still c ws s -> still c ws (f s a)) ->
  forall s, still c ws s -> still c ws (foldl f s l).
Proof.
  induction l as [|a l IH]; intros Hstep s Hs; simpl; [exact Hs|].
  apply IH; [|apply Hstep; [now left|exact Hs]].
  intros s0 a0 Hin. apply Hstep. now right.
Qed.

Create HintDb still.

#[local] Hint Resolve still_emit still_set_bus still_set_clients still_set_next_handler
  still_set_timers still_clearTimeout still_setTimeout still_upd : still.

#[local] Hint Extern 1 => exact I : still.

#[local] Hint Extern 2 =>
  intros _ ? ? ?; simpl; split;
  first [assumption | reflexivity | constructor
         | apply Forall_app_2; [assumption|repeat constructor]]
  : still.

Ltac still_cases :=
  repeat match goal with
         | |- still _ _ _ => solve [auto 8 with still]
         | |- still _ _ (foldl _ _ _) => apply still_foldl; [intros ? ? ? ?|]
         | |- still _ _ (_ _ (foldl _ _ _)) => apply still_emit || apply still_upd
         | |- context [match ?x with _ => _ end] => destruct x
         end.

Lemma still_stream_end c ws (c' : nat) (s : server) :
  still c ws s -> still c ws (stream_end c' s).
Proof. intros St. unfold stream_end. still_cases. Qed.

#[local] Hint Resolve still_stream_end : still.

Lemma still_setUpTimer c ws (c' : nat) (s : server) :
  still c ws s -> still c ws (setUpTimer c' s).
Proof.
  intros St. unfold setUpTimer.
  destruct (conns s !! c') as [cl|]; [|exact St].
  change (still c ws
            (upd c' (set_timer (Some (next_timer (match timer cl with
                                                  | Some h => clearTimeout h s
                                                  | None => s
                                                  end))))
               (snd (setTimeout (KeepaliveTimeout c') (keepalive cl * 1000 * 5 / 4)
                       (match timer cl with
                        | Some h => clearTimeout h s
                        | None => s
                        end))))).
  destruct (timer cl); auto with still.
Qed.

Lemma still_emit_error c ws (c' : nat) (m : string) (s : server) :
  still c ws s -> still c ws (emit_error c' m s).
Proof. intros St. unfold emit_error. still_cases. Qed.

Lemma still_actualSend c ws (c' : nat) (pkt : packet) (r : Z) (s : server) :
  still c ws s -> still c ws (actualSend c' pkt r s).
Proof.
  intros St. unfold actualSend.
  destruct (r =? 10); [now apply still_emit_error|].
  destruct (qos pkt =? 1); [|auto with still].
  change (still c ws
            (upd c' (set_inflight (insert (messageId pkt) (next_timer s)))
               (snd (setTimeout (Resend c' pkt r) (baseRetryTimeout s * 2 ^ r)
                       (emit (Publish c' pkt) s))))).
  auto with still.
Qed.

#[local] Hint Resolve still_setUpTimer still_emit_error still_actualSend : still.

Lemma still_forward c ws (c' : nat) (t p : string) (q : option Z) (st : string)
    (iq : Z) (s : server) :
  still c ws s -> still c ws (forward c' t p q st iq s).
Proof. intros St. unfold forward. still_cases. Qed.

Lemma still_unsubscribeMapTo c ws (c' : nat) (t : string) (s : server) :
  still c ws s -> still c ws (unsubscribeMapTo c' t s).
Proof. intros St. unfold unsubscribeMapTo. still_cases. Qed.

#[local] Hint Resolve still_forward still_unsubscribeMapTo : still.

(** [cleanup] publishes a will only when its callback is the one of
    [_onclose]. *)
Lemma still_cleanup c ws (c' : nat) (callback : bool) (s : server) :
  (c' = c -> callback = false) ->
  still c ws s -> still c ws (cleanup c' callback s).
Proof.
  intros Hcb St. unfold cleanup.
  destruct (conns s !! c') as [cl|]; [|exact St]. cbv zeta.
  assert (Hloop : still c ws
                    (foldl (fun st kv => upd c' (set_inflight (delete (fst kv)))
                                           (clearTimeout (snd kv) st))
                       s (map_to_list (inflight cl))))
    by (apply still_foldl; auto with still).
  destruct callback; [destruct (will cl)|]; auto 8 with still.
  apply still_emit; [|auto 8 with still].
  intros Heq. specialize (Hcb Heq). discriminate.
Qed.

Lemma still_closeConn c ws (c' : nat) (callback : bool) (s : server) :
  (c' = c -> callback = false) ->
  still c ws s -> still c ws (closeConn c' callback s).
Proof.
  intros Hcb St. unfold closeConn.
  destruct (conns s !! c') as [cl|] eqn:Hc; [|exact St]. cbv zeta.
  set (s1 := match id cl with
             | Some i => if String.eqb i "" then s
                         else set_clients (delete i)
                                (match timer cl with
                                 | Some h => clearTimeout h s
                                 | None => s
                                 end)
             | None => s
             end).
  assert (St1 : still c ws s1).
  { subst s1. destruct (id cl) as [i|]; [|exact St].
    destruct (String.eqb i ""); [exact St|]. destruct (timer cl); auto with still. }
  destruct (_closed cl).
  - apply still_cleanup; [exact Hcb|auto with still].
  - apply still_stream_end, still_upd; [|auto with still].
    intros Heq cl0 Ho He. simpl. split; [exact Ho|].
    apply Forall_app_2; [exact He|]. rewrite (Hcb Heq). repeat constructor.
Qed.

Lemma still_unsubAndClose c ws (c' : nat) (callback : bool) (s : server) :
  (c' = c -> callback = false) ->
  still c ws s -> still c ws (unsubAndClose c' callback s).
Proof.
  intros Hcb St. unfold unsubAndClose.
  destruct (conns s !! c') as [cl|]; [|exact St]. cbv zeta.
  apply still_closeConn; [exact Hcb|].
  apply still_foldl; auto with still.
Qed.

Lemma still_subscribe_task c ws (c' : nat) (acc : server * bool) (e : request) :
  still c ws (fst acc) -> still c ws (fst (subscribe_task H c' acc e)).
Proof.
  destruct acc as [s failed]. simpl. intros St.
  destruct (conns s !! c') as [cl|]; [|exact St].
  destruct (authorizeSubscribe H cl (req_topic e)) as [|[|]];
    try (destruct failed; simpl; auto with still);
    now apply still_unsubAndClose.
Qed.

Lemma still_on_subscribe c ws (c' : nat) (mid : Z) (reqs : list request) (s : server) :
  still c ws s -> still c ws (on_subscribe H c' mid reqs s).
Proof.
  intros St. unfold on_subscribe. cbv zeta.
  destruct (conns _ !! c') as [cl|]; [|exact St].
  set (subs := List.filter _ _).
  assert (Hfold : forall l acc, still c ws (fst acc) ->
                    still c ws (fst (foldl (subscribe_task H c') acc l))).
  { induction l as [|a l IH]; intros acc Ha; simpl; [exact Ha|].
    now apply IH, still_subscribe_task. }
  specialize (Hfold subs (foldl (regrant c') s (List.map downgrade reqs), false)).
  destruct (foldl (subscribe_task H c') _ subs) as [s2 failed]. simpl in Hfold.
  assert (Hs2 : still c ws s2).
  { apply Hfold, still_foldl; [|exact St]. intros. unfold regrant. auto with still. }
  destruct failed; auto with still.
Qed.

Lemma still_step c ws (s : server) (e : event) :
  one_keepalive s -> still c ws s -> still c ws (step H s e).
Proof.
  intros [_ K2] St. destruct e as [r|c' pkt|c' mid|c' mid reqs|c'|c'|c'|h t p q|h]; simpl.
  - destruct St as [(cl & Hc & Ho & He) W]. split; [|exact W].
    exists cl. simpl. rewrite lookup_insert_ne; [now split|].
    intros Heq. rewrite K2 in Hc by lia. discriminate.
  - destruct (is_listening c' s); [|exact St]. unfold on_connect.
    destruct (conns _ !! c') as [cl|]; [|exact St].
    destruct (authenticate H cl _ _) as [|[|]]; auto 10 with still.
  - destruct (is_listening c' s); [|exact St]. unfold on_puback. still_cases.
  - destruct (is_listening c' s); [|exact St]. now apply still_on_subscribe.
  - destruct (is_listening c' s); [|exact St]. now apply still_unsubAndClose.
  - destruct (is_listening c' s); [|exact St]. unfold on_close.
    destruct (conns s !! c') as [cl|] eqn:Hc; [|exact St]. cbv zeta.
    destruct (onclose cl) eqn:Ho; [|auto with still].
    apply still_unsubAndClose; [|auto with still].
    intros ->. destruct St as [(cl0 & Hc0 & Ho0 & _) _]. congruence.
  - unfold on_stream_end.
    destruct (conns s !! c') as [cl|] eqn:Hc; [|exact St].
    apply still_foldl; [|auto with still].
    intros s0 cb Hin St0. apply still_cleanup; [|exact St0].
    intros ->. destruct St as [(cl0 & Hc0 & _ & He0) _].
    rewrite Hc in Hc0. injection Hc0 as <-.
    rewrite List.Forall_forall in He0. now apply He0.
  - destruct (registered h s); auto with still.
  - unfold on_timer. destruct (timers s !! h) as [[[c' pkt r|c'] d]|]; auto with still.
    apply still_closeConn; auto with still.
Qed.

Lemma still_handle c ws (acc : server * list reply) (a : arrival) :
  one_keepalive (fst acc) -> still c ws (fst acc) ->
  still c ws (fst (handle H authorizePublish acc a)).
Proof.
  destruct acc as [s out]. simpl. intros K St.
  destruct a as [e|c' pkt|c' mid l|c']; simpl.
  - now apply still_step.
  - destruct (is_listening c' s); [|exact St]. simpl. unfold on_publish.
    destruct (conns s !! c') as [cl|]; [|exact St].
    destruct (authorizePublish cl (topic pkt) (payload pkt)) as [|[|]]; simpl;
      try (now apply still_unsubAndClose).
    exact St.
  - destruct (is_listening c' s); [|exact St]. simpl.
    apply still_foldl; auto with still.
  - destruct (is_listening c' s); [|exact St]. simpl. now apply still_setUpTimer.
Qed.

Lemma reachable_foldl (P : server -> Prop) (l : list arrival) :
  (forall acc a, P (fst acc) -> P (fst (handle H authorizePublish acc a))) ->
  forall acc, P (fst acc) -> P (fst (foldl (handle H authorizePublish) acc l)).
Proof.
  intros Hstep. induction l as [|a l IH]; intros acc Ha; simpl; [exact Ha|].
  now apply IH, Hstep.
Qed.

Lemma closing_still (c : nat) (s s' : server) (cl cl' : client) (tr : list effect) :
  trace s' = trace s ++ keepalive_clear cl ++ tr -> wills_of c tr = [] ->
  conns s' !! c = Some cl' -> onclose cl' = false ->
  Forall (fun b => b = false) (end_listeners cl') ->
  still c (wills_of c (trace s)) s'.
Proof.
  intros Ht Htr Hc Ho He. split; [now exists cl'|].
  now rewrite Ht, !wills_of_app, wills_of_keepalive_clear, Htr, app_nil_r.
Qed.

(** What holds of the server whatever has arrived. *)
Lemma serving_invariants (base : option Z) (l : list arrival) :
  one_keepalive (fst (serving H authorizePublish base l))
  /\ tidy (fst (serving H authorizePublish base l)).
Proof.
  unfold serving.
  apply (reachable_foldl (fun s => one_keepalive s /\ tidy s)).
  - intros acc a [K T]. split; [now apply keep_handle|now apply tidy_handle].
  - split; [|intros c0 cl0; simpl; now rewrite lookup_empty].
    split; simpl; [intros h c0 d Hh|intros c0 _]; now rewrite lookup_empty in *.
Qed.

Lemma still_forever (c : nat) (ws : list will_packet) (l : list arrival)
    (s : server) (out : list reply) :
  one_keepalive s -> still c ws s ->
  wills_of c (trace (fst (foldl (handle H authorizePublish) (s, out) l))) = ws.
Proof.
  intros K St.
  assert (Hboth : one_keepalive (fst (foldl (handle H authorizePublish) (s, out) l))
                  /\ still c ws (fst (foldl (handle H authorizePublish) (s, out) l))).
  { apply (reachable_foldl (fun s => one_keepalive s /\ still c ws s)).
    - intros acc a [Ka Sa]. split; [now apply keep_handle|now apply still_handle].
    - split; assumption. }
  destruct Hboth as [_ [_ W]]. exact W.
Qed.




End disconnect.

(** ** A CONNECT that is refused *)

Section refused.
Import Server.
Variable H : hooks.


End refused.

(** ** SUBSCRIBE for filters that are new *)

Section subscribing.
Import Server.
Variable H : hooks.

Lemma subacks_app (l1 l2 : list effect) : subacks (l1 ++ l2) = subacks l1 ++ subacks l2.
Proof. apply List.filter_app. Qed.

Lemma subacks_closing (c : nat) (cl : client) :
  subacks (keepalive_clear cl ++ cleanup_trace c false cl) = []
  /\ subacks (keepalive_clear cl ++ [StreamEnd c]) = [].
Proof.
  assert (Hk : subacks (keepalive_clear cl) = [])
    by (unfold keepalive_clear; now destruct (truthy_id cl), (timer cl)).
  assert (Hm : forall l : list (Z * nat),
             subacks (List.map (fun kv => ClearTimeout (snd kv)) l) = [])
    by (induction l; simpl; auto).
  rewrite !subacks_app, Hk. unfold cleanup_trace. now rewrite subacks_app, Hm.
Qed.

(** The state of the client once a task has failed: [unsubAndClose] has
    run. *)
Lemma tasks_after_denial (c : nat) (closed : bool) (d : request) (subs : list request) :
  (forall cl', authorizeSubscribe H cl' (req_topic d) <> Verdict true) ->
  forall (acc : server * bool),
  (exists cl, conns (fst acc) !! c = Some cl /\ _closed cl = closed
              /\ (snd acc = true ->
                  onclose cl = false
                  /\ if closed then listening cl = false else stream_ended cl = true)) ->
  snd acc = true \/ In d subs ->
  let r := foldl (subscribe_task H c) acc subs in
  snd r = true
  /\ subacks (trace (fst r)) = subacks (trace (fst acc))
  /\ exists cl, conns (fst r) !! c = Some cl
                /\ onclose cl = false
                /\ if closed then listening cl = false else stream_ended cl = true.
Proof.
  intros Hdeny. induction subs as [|e subs IH]; intros [s failed] (cl & Hc & Hcl & Hf) Hor;
    simpl in *.
  - destruct Hor as [->|[]]. split; [reflexivity|]. split; [reflexivity|].
    exists cl. split; [exact Hc|]. now apply Hf.
  - rewrite Hc.
    assert (Hfail : forall failed', failed' = failed ->
              let acc' := if failed' then (s, true) else (unsubAndClose c false s, true) in
              (exists cl0, conns (fst acc') !! c = Some cl0 /\ _closed cl0 = closed
                 /\ (snd acc' = true ->
                     onclose cl0 = false
                     /\ if closed then listening cl0 = false
                        else stream_ended cl0 = true))
              /\ subacks (trace (fst acc')) = subacks (trace s) /\ snd acc' = true).
    { intros failed' ->. destruct failed; simpl.
      - split; [exists cl; auto|]. split; reflexivity.
      - destruct (unsubAndClose_effects c false s cl Hc) as (_ & _ & _ & E).
        rewrite Hcl in E. destruct closed; destruct E as (Et & _ & Ec).
        + split; [eexists; split; [exact Ec|]; simpl; auto|].
          split; [|reflexivity].
          rewrite Et, subacks_app, (proj1 (subacks_closing c cl)). apply app_nil_r.
        + split; [eexists; split; [exact Ec|]; simpl; auto|].
          split; [|reflexivity].
          rewrite Et, subacks_app, (proj2 (subacks_closing c cl)). apply app_nil_r. }
    destruct (authorizeSubscribe H cl (req_topic e)) as [|[|]] eqn:Hauth.
    + destruct (Hfail failed eq_refl) as (P1 & P2 & P3).
      destruct (IH _ P1 (or_introl P3)) as (R1 & R2 & R3).
      split; [exact R1|]. split; [now rewrite R2|exact R3].
    + set (acc' := (upd c _ _, failed)).
      assert (Hor' : snd acc' = true \/ In d subs).
      { destruct Hor as [Ht|[<-|Hin]]; [now left| |now right].
        exfalso. now apply (Hdeny cl). }
      destruct (IH acc') as (R1 & R2 & R3); [|exact Hor'|].
      * subst acc'. simpl. rewrite lookup_alter_eq. simpl. rewrite Hc. simpl.
        eexists. split; [reflexivity|]. simpl. auto.
      * split; [exact R1|]. split; [exact R2|exact R3].
    + destruct (Hfail failed eq_refl) as (P1 & P2 & P3).
      destruct (IH _ P1 (or_introl P3)) as (R1 & R2 & R3).
      split; [exact R1|]. split; [now rewrite R2|exact R3].
Qed.


Lemma asked_app (f : string) (l1 l2 : list request) :
  asked f (l1 ++ l2) = asked f l1 ++ asked f l2.
Proof. apply List.filter_app. Qed.

Lemma registrations_snoc (c : nat) (f : string) (b : list (string * handler))
    (t : string) (h : handler) :
  registrations c f (b ++ [(t, h)])
  = registrations c f b
    ++ (if bool_decide (h_conn h = c) && String.eqb (h_topic h) f then [(t, h)] else []).
Proof. unfold registrations. now rewrite List.filter_app. Qed.

(** The tasks of [async.parallel], all authorized: each one registers a
    handler of its own, and the client keeps the one of the last task
    for a filter, which is the last that the bus has got for it. *)
Lemma tasks_register (c : nat) (f : string) (s : server) (cl : client)
    (subs : list request) :
  (forall e cl', In e subs -> authorizeSubscribe H cl' (req_topic e) = Verdict true) ->
  conns s !! c = Some cl ->
  let r := foldl (subscribe_task H c) (s, false) subs in
  snd r = false
  /\ trace (fst r) = trace s
  /\ length (registrations c f (bus (fst r)))
     = (length (registrations c f (bus s)) + length (asked f subs))%nat
  /\ exists cl2, conns (fst r) !! c = Some cl2
       /\ match asked f subs with
          | [] => subscriptions cl2 !! f = subscriptions cl !! f
          | _ => exists sub, subscriptions cl2 !! f = Some sub
                   /\ sub_qos sub
                      = foldl (fun q e => if String.eqb (req_topic e) f
                                          then req_qos e else q) 0 subs
                   /\ h_qos (sub_handler sub) = sub_qos sub
                   /\ last (registrations c f (bus (fst r)))
                      = Some (replace_hash f, sub_handler sub)
          end.
Proof.
  induction subs as [|e subs IH] using rev_ind; intros Hall Hc r.
  - subst r. simpl. do 2 (split; [reflexivity|]).
    split; [lia|]. exists cl. now split.
  - subst r. rewrite foldl_app. simpl foldl.
    destruct IH as (I1 & I2 & I4 & cl2 & I5 & I6);
      [intros e0 cl' He0; apply Hall, in_or_app; now left|exact Hc|].
    destruct (foldl (subscribe_task H c) (s, false) subs) as [s2 failed].
    simpl in I1, I2, I4, I5, I6. subst failed. simpl.
    rewrite I5, (Hall e cl2) by (apply in_or_app; right; now left). simpl.
    split; [reflexivity|]. split; [exact I2|].
    rewrite lookup_alter_eq, I5. simpl.
    rewrite asked_app, foldl_app, registrations_snoc. simpl.
    rewrite bool_decide_eq_true_2 by reflexivity. simpl.
    rewrite !length_app, I4.
    destruct (String.eqb (req_topic e) f) eqn:Ef.
    + apply String.eqb_eq in Ef. subst f. simpl. split; [lia|].
      eexists. split; [reflexivity|]. simpl.
      assert (Hne : asked (req_topic e) subs ++ [e] <> [])
        by (now destruct (asked (req_topic e) subs)).
      destruct (asked (req_topic e) subs ++ [e]) as [|x l] eqn:El; [congruence|].
      eexists. rewrite lookup_insert_eq. split; [reflexivity|]. simpl.
      split; [reflexivity|]. split; [reflexivity|]. apply last_snoc.
    + simpl. split; [lia|]. eexists. split; [reflexivity|]. simpl.
      rewrite !app_nil_r. apply String.eqb_neq in Ef.
      rewrite lookup_insert_ne by exact Ef.
      destruct (asked f subs) as [|x l]; [exact I6|].
      destruct I6 as (sub & J1 & J2 & J3 & J4). exists sub. auto.
Qed.

Lemma foldl_filter_ignored {A B : Type} (g : B -> A -> B) (p : A -> bool) (l : list A) :
  (forall b a, p a = false -> g b a = b) ->
  forall b, foldl g b (List.filter p l) = foldl g b l.
Proof.
  intros Hg. induction l as [|a l IH]; intros b; simpl; [reflexivity|].
  destruct (p a) eqn:Ep; simpl; [apply IH|]. rewrite (Hg b a Ep). apply IH.
Qed.

Lemma filter_filter_implied {A : Type} (p q : A -> bool) (l : list A) :
  (forall a, p a = true -> q a = true) ->
  List.filter p (List.filter q l) = List.filter p l.
Proof.
  intros Hpq. induction l as [|a l IH]; simpl; [reflexivity|].
  destruct (q a) eqn:Eq; simpl; rewrite IH; [reflexivity|].
  destruct (p a) eqn:Ep; [|reflexivity]. rewrite (Hpq a Ep) in Eq. discriminate.
Qed.

Lemma asked_downgrade (f : string) (reqs : list request) :
  asked f (List.map downgrade reqs) = List.map downgrade (asked f reqs).
Proof.
  unfold asked. induction reqs as [|e reqs IH]; simpl; [reflexivity|].
  rewrite downgrade_topic. destruct (String.eqb (req_topic e) f); simpl; now rewrite IH.
Qed.


End subscribing.

(** ** The properties at work *)

Section persistence_at_work.
Import Persistance.

Lemma stored_subscriptions_are_looked_up_witness :
  snd (lookupSubscriptions two_qos (storeSubscriptions two_qos (create no_options ∅)))
  = kept two_qos
  /\ kept two_qos !! "a/b" = Some 1 /\ kept two_qos !! "news" = None.
Proof.
  destruct (stored_subscriptions_are_looked_up two_qos (create no_options ∅) eq_refl)
    as [H1 H2].
  split; [now rewrite H1|]. split; [now rewrite H2|now rewrite H2].
Defined.

Lemma durable_subscriptions_are_indexed_witness :
  _subscriptions (storeSubscriptions two_qos (create no_options ∅)) !! "a/b:c"
  = Some (Entry (Sub "c" "a/b" 1) (Some 3600000))
  /\ In "a/b:c" (Qlobber.match_ "a/b"
                   (_subLobber (storeSubscriptions two_qos (create no_options ∅))))
  /\ _subscriptions (storeSubscriptions two_qos (create no_options ∅)) !! "news:c" = None.
Proof.
  destruct (durable_subscriptions_are_indexed two_qos (create no_options ∅) eq_refl)
    as [H1 H2].
  destruct (H1 "a/b" 1 eq_refl ltac:(lia)) as [Ha Hb].
  split; [exact Ha|]. split; [exact (Hb "a/b" eq_refl)|].
  exact (H2 "news" 0 eq_refl ltac:(lia)).
Defined.

Lemma offline_packet_reaches_durable_subscriber_witness :
  In hello
     (snd (streamOfflinePackets (durable "c1" "a/#")
             (fst (storeOfflinePacket tick hello
                     (storeSubscriptions (durable "c1" "a/#") (create no_options ∅)))))).
Proof.
  destruct (offline_packet_reaches_durable_subscriber (durable "c1" "a/#") tick hello
              (create no_options ∅) "a/#" 1 eq_refl eq_refl ltac:(lia) eq_refl)
    as [Hin _].
  exact Hin.
Defined.

Lemma unsubscribed_filter_keeps_its_row_witness :
  _subscriptions
    (fst (lookupSubscriptions clean_c
            (storeSubscriptions reconnecting
               (storeSubscriptions (durable "c" "a/#") (create no_options ∅)))))
    !! "a/#:c"
  = Some (Entry (Sub "c" "a/#" 1) (Some 3600000)).
Proof.
  destruct (unsubscribed_filter_keeps_its_row (durable "c" "a/#") reconnecting clean_c
              (create no_options ∅) "a/#" 1 tick hello
              eq_refl eq_refl eq_refl eq_refl eq_refl eq_refl ltac:(lia) eq_refl eq_refl)
    as (_ & Hrow & _).
  exact Hrow.
Defined.

End persistence_at_work.

Section server_at_work.
Import Server.
Import Broker.

Lemma forward_sends_smaller_qos_witness :
  inflight <$> conns (forward 0 "x/y" "hi" (Some 1) "x/#" 1 subscribed_once) !! 0%nat
  = Some {[ 32767 := 1%nat ]}.
Proof.
  assert (Hc : conns subscribed_once !! 0%nat = Some subscribed_client)
    by (vm_compute; reflexivity).
  destruct (forward_sends_smaller_qos 0 "x/y" "hi" (Some 1) "x/#" 1 subscribed_once
              subscribed_client Hc) as (_ & _ & Hi).
  rewrite Hi. vm_compute. reflexivity.
Defined.

Lemma resubscribed_qos_is_used_witness :
  exists cl',
    conns (on_subscribe default_hooks 0 8 [Request "x/#" 0] subscribed_once) !! 0%nat
    = Some cl'
    /\ published_to 0
         (trace (forward 0 "x/y" "hi" (Some 1) "x/#" 1
                   (on_subscribe default_hooks 0 8 [Request "x/#" 0] subscribed_once)))
       = published_to 0
           (trace (on_subscribe default_hooks 0 8 [Request "x/#" 0] subscribed_once))
         ++ [Packet "x/y" "hi" 0 (nextId cl')].
Proof.
  assert (Hc : conns subscribed_once !! 0%nat = Some subscribed_client)
    by (vm_compute; reflexivity).
  destruct (resubscribed_qos_is_used default_hooks 0 8 [Request "x/#" 0] subscribed_once
              subscribed_client (Subscription 1 (Handler 0 0 "x/#" 1)) "x/#"
              "x/y" "hi" (Some 1) Hc eq_refl)
    as (cl' & H1 & _ & H3).
  - intros e cl0 _ _. reflexivity.
  - exists cl'. split; [exact H1|exact H3].
Defined.

Lemma unsubscribe_removes_subscriptions_witness :
  snd (on_unsubscribe 0 9 ["x/#"] subscribed_once) = [Unsuback 0 9]
  /\ exists cl', conns (fst (on_unsubscribe 0 9 ["x/#"] subscribed_once)) !! 0%nat
                 = Some cl'
                 /\ subscriptions cl' !! "x/#" = None.
Proof.
  assert (Hc : conns subscribed_once !! 0%nat = Some subscribed_client)
    by (vm_compute; reflexivity).
  destruct (unsubscribe_removes_subscriptions 0 9 ["x/#"] subscribed_once
              subscribed_client Hc) as (H1 & _ & _ & (cl' & Hc' & _ & Hs) & _).
  split; [exact H1|]. exists cl'. split; [exact Hc'|].
  rewrite (Hs "x/#"), bool_decide_eq_true_2 by (now left). reflexivity.
Defined.

Lemma bus_calls_are_forwarded_witness :
  snd (on_publish allow_all 0 (Packet "x/y" "hi" 1 5) subscribed_once)
  = [BusPublish "x/y" "hi" 1; Puback 0 5; Published (Packet "x/y" "hi" 1 5) 0]
  /\ published_to 0
       (trace (run default_hooks
                 (fst (on_publish allow_all 0 (Packet "x/y" "hi" 1 5) subscribed_once))
                 [Deliver (Handler 0 0 "x/#" 1) "x/y" "hi" (Some 1)]))
     = [Packet "x/y" "hi" 1 32767].
Proof.
  assert (Hc : conns subscribed_once !! 0%nat = Some subscribed_client)
    by (vm_compute; reflexivity).
  assert (Hreg : forall h, In h [Handler 0 0 "x/#" 1] ->
                           registered h subscribed_once = true)
    by (intros h [<-|[]]; vm_compute; reflexivity).
  destruct (bus_calls_are_forwarded allow_all default_hooks 0 (Packet "x/y" "hi" 1 5)
              subscribed_once subscribed_client [Handler 0 0 "x/#" 1] Hc eq_refl Hreg)
    as (_ & H1 & _ & _ & H4).
  split; [exact H1|].
  specialize (H4 0%nat subscribed_client Hc). simpl List.map in H4.
  rewrite H4. vm_compute. reflexivity.
Defined.











End server_at_work.
